(** * Line and triangle cells and the Cocoa render window of the
    Visualization Toolkit: a Rocq model

    The development embeds the inline geometry of [vtkTriangle.h] and
    [vtkLine.h], the segment/triangle kernel their declarations announce,
    and the window bookkeeping of [vtkCocoaRenderWindow.mm].

    Numbers.  The inline arithmetic of [vtkTriangle.h] --
    [ComputeNormalDirection], [ComputeNormal], [TriangleCenter] and
    [TriangleArea] -- is modelled in IEEE 754 binary64, the format of a C++
    [double]: the operations are those of Rocq's primitive floats, each
    rounded to nearest with ties to even on its own (no fused multiply-add,
    no excess precision), with signed zeros, infinities and NaN.  The
    functions whose bodies are not among the sources and are written from
    the specification, and the two [GetParametricCenter], which only store
    constants, read a [double] as a real number: there every operation is
    the exact one of [R] and a comparison is the order of [R].

    Arrays.  [double a[3]] and [double a[2]] are the records [double3] and
    [double2]; [a[i]] is [get3 a i] and [a[i] = v] is [set3 a i v].  Every
    index in the code is a literal within bounds; the functions are made
    total by reading the last slot, and storing nothing, past the end.  The
    binary64 arrays are the record [Binary64.double3].

    Out-parameters.  A C++ out-parameter that the callee overwrites entirely
    is returned as a value; where a caller can observe the previous contents
    ([GetParametricCenter]) the array is threaded through the function. *)

From Stdlib Require Import Reals Lra Psatz ZArith.
From Stdlib Require String List Bool Lia FunctionalExtensionality.
From Stdlib Require QArith Qpower Lqa Floats.

Local Open Scope R_scope.

(** ** Fixed-size arrays of doubles *)

Record double3 : Type := D3 { at0 : R; at1 : R; at2 : R }.
Record double2 : Type := D2 { fst2 : R; snd2 : R }.

Definition get3 (a : double3) (i : nat) : R :=
  match i with
  | O => at0 a
  | S O => at1 a
  | _ => at2 a
  end.

Definition set3 (a : double3) (i : nat) (v : R) : double3 :=
  match i with
  | O => D3 v (at1 a) (at2 a)
  | S O => D3 (at0 a) v (at2 a)
  | S (S O) => D3 (at0 a) (at1 a) v
  | _ => a
  end.

Definition get2 (a : double2) (i : nat) : R :=
  match i with
  | O => fst2 a
  | _ => snd2 a
  end.

(** ** Division with a recorded failure

    [fdiv x y] is the quotient [x / y] of the source together with the fact
    that it was defined: [None] records a division by zero.  Functions whose
    claims speak of "never dividing by zero" are written in this small error
    monad, so that the absence of such a division is a statement about the
    function's result. *)

Definition fdiv (x y : R) : option R :=
  if Req_dec_T y 0 then None else Some (x / y).

Definition bind {A B : Type} (c : option A) (k : A -> option B) : option B :=
  match c with
  | Some a => k a
  | None => None
  end.

Notation "x <- c ;; k" := (bind c (fun x => k))
  (at level 61, c at next level, right associativity).

(** ** IEEE 754 binary64

    The doubles of the inline arithmetic of [vtkTriangle.h].  A [double] is
    a primitive float; [x + y], [x - y], [x * y], [x / y] and [sqrt x] are
    the operations of the format, each rounded to nearest with ties to
    even, and [x =? y] is the comparison [==] of C++, which holds between
    the two zeros and fails on NaN. *)

Module Binary64.

Import Stdlib.QArith.QArith.
Import PrimFloat FloatOps SpecFloat.
Local Open Scope float_scope.

(** [double a[3]], read and written as [a[i]]. *)
Record double3 : Type := D3 { at0 : float; at1 : float; at2 : float }.

Definition get3 (a : double3) (i : nat) : float :=
  match i with
  | O => at0 a
  | S O => at1 a
  | _ => at2 a
  end.

Definition set3 (a : double3) (i : nat) (v : float) : double3 :=
  match i with
  | O => D3 v (at1 a) (at2 a)
  | S O => D3 (at0 a) v (at2 a)
  | S (S O) => D3 (at0 a) (at1 a) v
  | _ => a
  end.

(** The quotient [x / y] together with the fact that the divisor was not
    zero: [None] records a division by [0.0] or [-0.0]. *)
Definition fdiv (x y : float) : option float :=
  if y =? 0 then None else Some (x / y).

(** *** Vocabulary: doubles as numbers

    None of what follows is code of the repository; it is what the
    statements about the code are written in. *)

(** [x] is a number: a zero or a finite double, not an infinity or NaN. *)
Definition finite (x : float) : bool :=
  match Prim2SF x with
  | S754_zero _ | S754_finite _ _ _ => true
  | _ => false
  end.

(** The rational number a finite double stands for: [+-m * 2^e] for the
    mantissa [m] and the exponent [e], 0 for the two zeros (and, by
    convention, for what is not a number). *)
Definition value (x : float) : Q :=
  match Prim2SF x with
  | S754_finite s m e =>
      ((if s then -1 else 1) * inject_Z (Zpos m) * 2 ^ e)%Q
  | _ => 0%Q
  end.

(** The operation [op] did not round on [x] and [y]: its result is a number
    and stands for the exact result [opQ] on the numbers [x] and [y] stand
    for. *)
Definition exact (op : float -> float -> float) (opQ : Q -> Q -> Q)
    (x y : float) : bool :=
  finite (op x y) && Qeq_bool (value (op x y)) (opQ (value x) (value y)).

(** [x] is one of the two zeros. *)
Definition is_zero (x : float) : bool := x =? 0.

Definition finite3 (v : double3) : bool :=
  finite (at0 v) && finite (at1 v) && finite (at2 v).

(** The zero vector, whatever the signs of its zeros. *)
Definition is_zero3 (v : double3) : bool :=
  is_zero (at0 v) && is_zero (at1 v) && is_zero (at2 v).

(** [y] is the opposite of [x]: [-x], or a zero when [x] is a zero (the
    difference of two equal doubles is [+0.0] in either order). *)
Definition opposite (x y : float) : Prop :=
  y = - x \/ (is_zero x = true /\ is_zero y = true).

Definition opposite3 (u v : double3) : Prop :=
  opposite (at0 u) (at0 v) /\ opposite (at1 u) (at1 v)
  /\ opposite (at2 u) (at2 v).

(** Difference and cross product of two arrays in double arithmetic: every
    subtraction and every multiplication rounds. *)
Definition vsub (p q : double3) : double3 :=
  D3 (at0 p - at0 q) (at1 p - at1 q) (at2 p - at2 q).

Definition cross (a b : double3) : double3 :=
  D3 (at1 a * at2 b - at2 a * at1 b)
     (at2 a * at0 b - at0 a * at2 b)
     (at0 a * at1 b - at1 a * at0 b).

(** Exact vectors: triples of rationals, compared component by
    component. *)
Definition rational3 : Type := (Q * Q * Q)%type.

Definition value3 (v : double3) : rational3 :=
  (value (at0 v), value (at1 v), value (at2 v)).

Definition Qeq3 (u v : rational3) : Prop :=
  let '(a, b, c) := u in
  let '(a', b', c') := v in
  (a == a' /\ b == b' /\ c == c')%Q.

Definition Qsub3 (u v : rational3) : rational3 :=
  let '(a, b, c) := u in
  let '(a', b', c') := v in
  (a - a', b - b', c - c')%Q.

Definition Qadd3 (u v : rational3) : rational3 :=
  let '(a, b, c) := u in
  let '(a', b', c') := v in
  (a + a', b + b', c + c')%Q.

Definition Qscale (k : Q) (u : rational3) : rational3 :=
  let '(a, b, c) := u in (k * a, k * b, k * c)%Q.

(** The exact cross product. *)
Definition Qcross (u v : rational3) : rational3 :=
  let '(a, b, c) := u in
  let '(a', b', c') := v in
  (b * c' - c * b', c * a' - a * c', a * b' - b * a')%Q.

(** Three points are collinear when they lie on one parametrised line: a
    degenerate, zero-area triangle. *)
Definition Qcollinear (p1 p2 p3 : rational3) : Prop :=
  exists (a d : rational3) (s1 s2 s3 : Q),
    Qeq3 p1 (Qadd3 a (Qscale s1 d))
    /\ Qeq3 p2 (Qadd3 a (Qscale s2 d))
    /\ Qeq3 p3 (Qadd3 a (Qscale s3 d)).

(** The rational [q] is a double: zero, or [+-m * 2^e] for a mantissa and
    an exponent of the format. *)
Definition representable (q : Q) : Prop :=
  (q == 0)%Q
  \/ exists (s : bool) (m : positive) (e : Z),
       bounded prec emax m e = true
       /\ (q == (if s then -1 else 1) * inject_Z (Zpos m) * 2 ^ e)%Q.

(** [x] stands for a whole number of magnitude at most [2^k]. *)
Definition integer_within (k : Z) (x : float) : Prop :=
  finite x = true
  /\ exists n : Z, (value x == inject_Z n)%Q /\ (Z.abs n <= 2 ^ k)%Z.

Definition integers_within (k : Z) (v : double3) : Prop :=
  integer_within k (at0 v) /\ integer_within k (at1 v)
  /\ integer_within k (at2 v).

End Binary64.

(** ** Vector vocabulary of the specification

    Plain vector algebra on [double3] and [double2], used to state what the
    functions compute; none of it is code of the repository. *)

Module Geometry.

Definition vadd (p q : double3) : double3 :=
  D3 (at0 p + at0 q) (at1 p + at1 q) (at2 p + at2 q).

Definition vsub (p q : double3) : double3 :=
  D3 (at0 p - at0 q) (at1 p - at1 q) (at2 p - at2 q).

Definition vscale (k : R) (p : double3) : double3 :=
  D3 (k * at0 p) (k * at1 p) (k * at2 p).

Definition vopp (p : double3) : double3 := vscale (-1) p.

Definition vzero : double3 := D3 0 0 0.

Definition cross (a b : double3) : double3 :=
  D3 (at1 a * at2 b - at2 a * at1 b)
     (at2 a * at0 b - at0 a * at2 b)
     (at0 a * at1 b - at1 a * at0 b).

Definition dot (a b : double3) : R :=
  at0 a * at0 b + at1 a * at1 b + at2 a * at2 b.

(** Squared Euclidean distance between two points. *)
Definition sqdist (p q : double3) : R := dot (vsub p q) (vsub p q).

(** The point of parameter [s] on the line through [p1] and [p2]:
    [p1 + s (p2 - p1)]. *)
Definition along (p1 p2 : double3) (s : R) : double3 :=
  vadd p1 (vscale s (vsub p2 p1)).

(** [x] lies on the closed segment [p1 p2]. *)
Definition on_segment (p1 p2 x : double3) : Prop :=
  exists s : R, 0 <= s <= 1 /\ x = along p1 p2 s.

(** The two closed segments have a common point. *)
Definition segments_meet (l0 l1 m0 m1 : double3) : Prop :=
  exists x : double3, on_segment l0 l1 x /\ on_segment m0 m1 x.

(** Plane vectors. *)
Definition combo2 (w0 w1 w2 : R) (x1 x2 x3 : double2) : double2 :=
  D2 (w0 * fst2 x1 + w1 * fst2 x2 + w2 * fst2 x3)
     (w0 * snd2 x1 + w1 * snd2 x2 + w2 * snd2 x3).

(** [x] lies in the closed triangle [x1 x2 x3]: it is a convex combination
    of the three vertices. *)
Definition in_closed_triangle (x x1 x2 x3 : double2) : Prop :=
  exists w0 w1 w2 : R,
    0 <= w0 /\ 0 <= w1 /\ 0 <= w2 /\ w0 + w1 + w2 = 1 /\
    x = combo2 w0 w1 w2 x1 x2 x3.

(** [x] lies strictly inside the triangle. *)
Definition in_open_triangle (x x1 x2 x3 : double2) : Prop :=
  exists w0 w1 w2 : R,
    0 < w0 /\ 0 < w1 /\ 0 < w2 /\ w0 + w1 + w2 = 1 /\
    x = combo2 w0 w1 w2 x1 x2 x3.

End Geometry.

(** ** vtkMath *)

Module vtkMath.

(** Modelled from the spec: [vtkMath::Dot] of two 3-vectors, "the dot
    products of the direction vectors". *)
Definition Dot (a b : double3) : R :=
  at0 a * at0 b + at1 a * at1 b + at2 a * at2 b.

(** Modelled from the spec: [vtkMath::Distance2BetweenPoints], the "squared
    Euclidean distance" between two points. *)
Definition Distance2BetweenPoints (p q : double3) : R :=
  (at0 p - at0 q) * (at0 p - at0 q)
  + (at1 p - at1 q) * (at1 p - at1 q)
  + (at2 p - at2 q) * (at2 p - at2 q).

Import PrimFloat.
Local Open Scope float_scope.

(** Modelled from the spec: [vtkMath.h] is not among the sources; the
    specification reads [vtkMath::Norm] as "the magnitude" of a 3-vector,
    the expression [ComputeNormal] spells out for its [length]:
    [sqrt(v[0] * v[0] + v[1] * v[1] + v[2] * v[2])], in doubles. *)
Definition Norm (v : Binary64.double3) : float :=
  sqrt (Binary64.get3 v 0 * Binary64.get3 v 0
        + Binary64.get3 v 1 * Binary64.get3 v 1
        + Binary64.get3 v 2 * Binary64.get3 v 2).

End vtkMath.

(** ** vtkTriangle: the inline functions of [vtkTriangle.h] *)

Module vtkTriangle.

(** [pcoords[0] = pcoords[1] = 1. / 3; pcoords[2] = 0.0; return 0;]
    The chained assignment stores into [pcoords[1]] first and copies the
    stored value into [pcoords[0]]. *)
Definition GetParametricCenter (pcoords : double3) : Z * double3 :=
  let pcoords := set3 pcoords 1 (1 / 3) in
  let pcoords := set3 pcoords 0 (get3 pcoords 1) in
  let pcoords := set3 pcoords 2 0 in
  (0%Z, pcoords).

Import PrimFloat.
Import Binary64.
Local Open Scope float_scope.

(** The six edge components, [ax = v3[0] - v2[0]] to [bz = v1[2] - v2[2]],
    and the three stores [n[0] = (ay * bz - az * by)],
    [n[1] = (az * bx - ax * bz)], [n[2] = (ax * by - ay * bx)]. *)
Definition ComputeNormalDirection (v1 v2 v3 : double3) : double3 :=
  let ax := get3 v3 0 - get3 v2 0 in
  let ay := get3 v3 1 - get3 v2 1 in
  let az := get3 v3 2 - get3 v2 2 in
  let bx := get3 v1 0 - get3 v2 0 in
  let by_ := get3 v1 1 - get3 v2 1 in
  let bz := get3 v1 2 - get3 v2 2 in
  D3 (ay * bz - az * by_) (az * bx - ax * bz) (ax * by_ - ay * bx).

(** None of the fifteen operations of [ComputeNormalDirection] rounds on
    these vertices: the six differences of coordinates, the six products
    and the three differences of products are numbers and are exact.  This
    is vocabulary for the statements, not code of the repository. *)
Definition ComputeNormalDirection_exact (v1 v2 v3 : double3) : bool :=
  let ax := get3 v3 0 - get3 v2 0 in
  let ay := get3 v3 1 - get3 v2 1 in
  let az := get3 v3 2 - get3 v2 2 in
  let bx := get3 v1 0 - get3 v2 0 in
  let by_ := get3 v1 1 - get3 v2 1 in
  let bz := get3 v1 2 - get3 v2 2 in
  exact sub QArith_base.Qminus (get3 v3 0) (get3 v2 0)
  && exact sub QArith_base.Qminus (get3 v3 1) (get3 v2 1)
  && exact sub QArith_base.Qminus (get3 v3 2) (get3 v2 2)
  && exact sub QArith_base.Qminus (get3 v1 0) (get3 v2 0)
  && exact sub QArith_base.Qminus (get3 v1 1) (get3 v2 1)
  && exact sub QArith_base.Qminus (get3 v1 2) (get3 v2 2)
  && exact mul QArith_base.Qmult ay bz
  && exact mul QArith_base.Qmult az by_
  && exact mul QArith_base.Qmult az bx
  && exact mul QArith_base.Qmult ax bz
  && exact mul QArith_base.Qmult ax by_
  && exact mul QArith_base.Qmult ay bx
  && exact sub QArith_base.Qminus (ay * bz) (az * by_)
  && exact sub QArith_base.Qminus (az * bx) (ax * bz)
  && exact sub QArith_base.Qminus (ax * by_) (ay * bx).

(** [ComputeNormalDirection] fills [n]; then, under the guard
    [(length = sqrt(...)) != 0.0], the three components are divided in
    place.  A NaN [length] passes the guard, as [!=] holds for NaN. *)
Definition ComputeNormal (v1 v2 v3 : double3) : option double3 :=
  let n := ComputeNormalDirection v1 v2 v3 in
  let length :=
    sqrt (get3 n 0 * get3 n 0 + get3 n 1 * get3 n 1 + get3 n 2 * get3 n 2) in
  if negb (length =? 0) then
    n0 <- fdiv (get3 n 0) length ;;
    let n := set3 n 0 n0 in
    n1 <- fdiv (get3 n 1) length ;;
    let n := set3 n 1 n1 in
    n2 <- fdiv (get3 n 2) length ;;
    let n := set3 n 2 n2 in
    Some n
  else Some n.

(** [center[i] = (p1[i] + p2[i] + p3[i]) / 3.0], the sum taken from the
    left. *)
Definition TriangleCenter (p1 p2 p3 : double3) : double3 :=
  D3 ((get3 p1 0 + get3 p2 0 + get3 p3 0) / 3)
     ((get3 p1 1 + get3 p2 1 + get3 p3 1) / 3)
     ((get3 p1 2 + get3 p2 2 + get3 p3 2) / 3).

(** [ComputeNormalDirection(p1, p2, p3, n); return 0.5 * vtkMath::Norm(n);] *)
Definition TriangleArea (p1 p2 p3 : double3) : float :=
  let n := ComputeNormalDirection p1 p2 p3 in
  0.5 * vtkMath.Norm n.

End vtkTriangle.

(** ** vtkTriangle: the functions whose bodies are in [vtkTriangle.cxx]

    [vtkTriangle.cxx] is not among the sources; [vtkTriangle.h] declares
    [BarycentricCoords] and documents it ("Returns 0 if triangle is
    degenerate").  Its body is written from the specification. *)

Module vtkTriangleSpec.

(** Modelled from the spec: the determinant that the missing body of
    [vtkTriangle::BarycentricCoords] tests, "the 2x2 linear system from the
    two edge vectors"; the edge vectors are [x1 - x3] and [x2 - x3]. *)
Definition EdgeDeterminant (x1 x2 x3 : double2) : R :=
  let e1x := get2 x1 0 - get2 x3 0 in
  let e1y := get2 x1 1 - get2 x3 1 in
  let e2x := get2 x2 0 - get2 x3 0 in
  let e2y := get2 x2 1 - get2 x3 1 in
  e1x * e2y - e1y * e2x.

(** Modelled from the spec: the missing body of
    [vtkTriangle::BarycentricCoords], which "solves the 2x2 linear system
    from the two edge vectors for 2D inputs; returns failure when the
    triangle is degenerate (determinant ~ 0 under tolerance), otherwise
    returns 3 barycentric weights summing to 1 (third computed as
    [1 - b0 - b1], not re-solved)".

    The weights are listed in vertex order: [bcoords[0]] belongs to [x1], as
    in the specification's scenario, where the query (0.25,0.25) in the
    triangle (0,0),(1,0),(0,1) has weights (0.5,0.25,0.25).  The two solved
    weights are therefore those of [x1] and [x2], along the edge vectors
    [x1 - x3] and [x2 - x3].  The tolerance, whose value the specification
    does not give, is the parameter [tol]; the return code is 0 for failure
    and 1 for success, and a failing call leaves [bcoords] as it was. *)
Definition BarycentricCoords (tol : R) (x x1 x2 x3 : double2)
    (bcoords : double3) : Z * double3 :=
  let e1x := get2 x1 0 - get2 x3 0 in
  let e1y := get2 x1 1 - get2 x3 1 in
  let e2x := get2 x2 0 - get2 x3 0 in
  let e2y := get2 x2 1 - get2 x3 1 in
  let rx := get2 x 0 - get2 x3 0 in
  let ry := get2 x 1 - get2 x3 1 in
  let det := e1x * e2y - e1y * e2x in
  if Rlt_dec (Rabs det) tol then (0%Z, bcoords)
  else
    let b0 := (rx * e2y - ry * e2x) / det in
    let b1 := (e1x * ry - e1y * rx) / det in
    let bcoords := set3 bcoords 0 b0 in
    let bcoords := set3 bcoords 1 b1 in
    let bcoords := set3 bcoords 2 (1 - b0 - b1) in
    (1%Z, bcoords).

End vtkTriangleSpec.

(** ** vtkLine *)

Module vtkLine.

(** [pcoords[0] = 0.5; pcoords[1] = pcoords[2] = 0.0; return 0;] *)
Definition GetParametricCenter (pcoords : double3) : Z * double3 :=
  let pcoords := set3 pcoords 0 0.5 in
  let pcoords := set3 pcoords 2 0 in
  let pcoords := set3 pcoords 1 (get3 pcoords 2) in
  (0%Z, pcoords).

End vtkLine.

(** ** vtkLine: the functions whose bodies are in [vtkLine.cxx]

    [vtkLine.cxx] is not among the sources; only the declarations and their
    comments in [vtkLine.h] are.  The bodies below follow section 4.1 of the
    specification, and the header's comments where the two speak of the same
    thing. *)

Module vtkLineSpec.

Import Geometry.

(** Modelled from the spec: the numerator of the "unclamped
    numerator/denominator computation" that the missing bodies of
    [EvaluatePosition] and [DistanceToLine] share, for the projection of [x]
    onto the line through [p1] and [p2]. *)
Definition ProjectionNumerator (x p1 p2 : double3) : R :=
  vtkMath.Dot (vsub p2 p1) (vsub x p1).

(** Modelled from the spec: the denominator of the same computation, the
    squared length of the segment. *)
Definition ProjectionDenominator (p1 p2 : double3) : R :=
  vtkMath.Dot (vsub p2 p1) (vsub p2 p1).

(** Modelled from the spec: the parametric coordinate of the projection in
    the missing bodies of [EvaluatePosition] and [DistanceToLine];
    "degenerate case [p1 == p2]: treat the segment as a point, [t = 0]". *)
Definition Projection (x p1 p2 : double3) : R :=
  let num := ProjectionNumerator x p1 p2 in
  let denom := ProjectionDenominator p1 p2 in
  if Req_dec_T denom 0 then 0 else num / denom.

(** Modelled from the spec: the step of the missing body of
    [EvaluatePosition] that "clamps [t] into [[0,1]]". *)
Definition Clamp01 (t : R) : R :=
  if Rlt_dec t 0 then 0 else if Rlt_dec 1 t then 1 else t.

(** Modelled from the spec: the test of the missing bodies for "[t] inside
    [[0,1]]". *)
Definition InUnitInterval (t : R) : bool :=
  if Rlt_dec t 0 then false else if Rlt_dec 1 t then false else true.

(** Modelled from the spec: the missing body of
    [vtkLine::DistanceToLine(x, p1, p2, t, closestPoint)], "same projection
    but unclamped -- [t] may lie outside [[0,1]]".  As the header says,
    "[t] is unconstrained (i.e., it may lie outside the range [[0,1]]) but
    the closest point will lie within the finite line [[p1,p2]]", and the
    result is the squared distance from [x] to that point.  The triple is
    (dist2, t, closestPoint). *)
Definition DistanceToLine (x p1 p2 : double3) : R * R * double3 :=
  let t := Projection x p1 p2 in
  let closest := along p1 p2 (Clamp01 t) in
  (vtkMath.Distance2BetweenPoints closest x, t, closest).

(** Modelled from the spec: the missing body of
    [vtkLine::DistanceToLine(x, p1, p2)], "the overload without a [t] output
    [...] for infinite-line distance only" (header: "line is assumed
    infinite in extent"): the squared distance from [x] to its projection. *)
Definition DistanceToLine_infinite (x p1 p2 : double3) : R :=
  let t := Projection x p1 p2 in
  vtkMath.Distance2BetweenPoints (along p1 p2 t) x.

(** The classification [EvaluatePosition] reports. *)
Inductive Classification : Type :=
| OnSegment
| BeyondEndpoint.

Record Evaluation : Type := MkEvaluation {
  ev_closestPoint : double3;
  ev_t : R;
  ev_dist2 : R;
  ev_class : Classification
}.

(** Modelled from the spec: the missing body of [vtkLine::EvaluatePosition]
    on the segment [(p1,p2)], which "projects [x] onto the infinite line,
    clamps [t] into [[0,1]] to get the closest point on the finite segment,
    returns squared Euclidean distance from [x] to that clamped point, and a
    classification ([t] inside [[0,1]] => on segment; else beyond an
    endpoint)".  The projection is the one of [DistanceToLine] ("same
    formula"). *)
Definition EvaluatePosition (x p1 p2 : double3) : Evaluation :=
  let '(dist2, t, closest) := DistanceToLine x p1 p2 in
  {| ev_closestPoint := closest;
     ev_t := Clamp01 t;
     ev_dist2 := dist2;
     ev_class := if InUnitInterval t then OnSegment else BeyondEndpoint |}.

(** What the two-line operations return. *)
Record Closest : Type := MkClosest {
  cl_dist2 : R;
  cl_closestPt1 : double3;
  cl_closestPt2 : double3;
  cl_t1 : R;
  cl_t2 : R
}.

(** Which way [DistanceBetweenLines] went. *)
Inductive Branch : Type :=
| Solved
| ParallelFallback.

(** Modelled from the spec: the coefficients of "the standard 2x2 linear
    system from the dot products of the direction vectors" in the missing
    body of [DistanceBetweenLines]: the dot products of the directions
    [u = l1 - l0], [v = m1 - m0] and of the offset [w = l0 - m0]. *)
Definition coef_a (l0 l1 : double3) : R :=
  vtkMath.Dot (vsub l1 l0) (vsub l1 l0).
Definition coef_b (l0 l1 m0 m1 : double3) : R :=
  vtkMath.Dot (vsub l1 l0) (vsub m1 m0).
Definition coef_c (m0 m1 : double3) : R :=
  vtkMath.Dot (vsub m1 m0) (vsub m1 m0).
Definition coef_d (l0 l1 m0 : double3) : R :=
  vtkMath.Dot (vsub l1 l0) (vsub l0 m0).
Definition coef_e (l0 m0 m1 : double3) : R :=
  vtkMath.Dot (vsub m1 m0) (vsub l0 m0).

(** Modelled from the spec: the determinant of that 2x2 system. *)
Definition Determinant (l0 l1 m0 m1 : double3) : R :=
  coef_a l0 l1 * coef_c m0 m1 - coef_b l0 l1 m0 m1 * coef_b l0 l1 m0 m1.

(** Modelled from the spec: the singularity test of the missing body of
    [DistanceBetweenLines], "determinant ~ 0 under a relative tolerance".
    The determinant is compared with [tol] times the product of the two
    squared lengths, so that a zero-length segment (product 0) counts as
    singular; the value of the tolerance, which the specification does not
    give, is the parameter [tol]. *)
Definition Singular (tol : R) (l0 l1 m0 m1 : double3) : bool :=
  if Rle_dec (Rabs (Determinant l0 l1 m0 m1))
             (tol * (coef_a l0 l1 * coef_c m0 m1))
  then true else false.

(** Modelled from the spec: the fallback of the missing body of
    [DistanceBetweenLines], "treating one endpoint against the other line
    via [DistanceToLine]"; the endpoint is [l0], at [t1 = 0]. *)
Definition DistanceBetweenLines_parallel (l0 m0 m1 : double3) : Closest :=
  let '(_, t2, _) := DistanceToLine l0 m0 m1 in
  {| cl_dist2 := DistanceToLine_infinite l0 m0 m1;
     cl_closestPt1 := l0;
     cl_closestPt2 := along m0 m1 t2;
     cl_t1 := 0;
     cl_t2 := t2 |}.

(** Modelled from the spec: the division branch of the missing body of
    [DistanceBetweenLines], Cramer's rule on the 2x2 system. *)
Definition DistanceBetweenLines_solve (l0 l1 m0 m1 : double3)
    : option Closest :=
  let a := coef_a l0 l1 in
  let b := coef_b l0 l1 m0 m1 in
  let c := coef_c m0 m1 in
  let d := coef_d l0 l1 m0 in
  let e := coef_e l0 m0 m1 in
  let det := Determinant l0 l1 m0 m1 in
  t1 <- fdiv (b * e - c * d) det ;;
  t2 <- fdiv (a * e - b * d) det ;;
  let closestPt1 := along l0 l1 t1 in
  let closestPt2 := along m0 m1 t2 in
  Some {| cl_dist2 := vtkMath.Distance2BetweenPoints closestPt1 closestPt2;
          cl_closestPt1 := closestPt1;
          cl_closestPt2 := closestPt2;
          cl_t1 := t1;
          cl_t2 := t2 |}.

(** Modelled from the spec: the missing body of
    [vtkLine::DistanceBetweenLines], "closest approach between two infinite
    lines via
    the standard 2x2 linear system from the dot products of the direction
    vectors; when the system is singular [...] fall back to treating one
    endpoint against the other line via [DistanceToLine].  [t1], [t2] are
    unconstrained."  The result carries the branch taken, and is [None]
    when a division by zero takes place. *)
Definition DistanceBetweenLines (tol : R) (l0 l1 m0 m1 : double3)
    : option (Branch * Closest) :=
  if Singular tol l0 l1 m0 m1
  then Some (ParallelFallback, DistanceBetweenLines_parallel l0 m0 m1)
  else
    r <- DistanceBetweenLines_solve l0 l1 m0 m1 ;;
    Some (Solved, r).

End vtkLineSpec.

(** ** Vocabulary for two lines *)

Module SegmentPair.

Import Geometry vtkLineSpec.

(** The direction vectors are parallel (one of them may be zero). *)
Definition parallel (l0 l1 m0 m1 : double3) : Prop :=
  cross (vsub l1 l0) (vsub m1 m0) = vzero.

End SegmentPair.

(** ** vtkCocoaRenderWindow: the bookkeeping of [vtkCocoaRenderWindow.mm]

    Pointers ([void*], [id]) are addresses, [nullptr] and [nil] being 0.
    Integer members are [Z], overflow being outside the model, and a
    [CGFloat] is read as a real number.  The object is the record
    [Window]; what the code reaches through Cocoa lives in the record
    [World]: the OpenGL context current on the calling thread, the
    [NSMutableDictionary] objects by address, the reference counts of the
    objects, the observations registered with the default notification
    centre, the frames of views, windows and screens, and a log of the
    calls whose effect is not tracked otherwise, the most recent first.
    Every function takes the world and the window and returns what it
    changed.  A message sent to [nil] does nothing and returns [nil] or
    zeros, as Objective-C defines.

    Reference counts.  The counts move with [CFRetain] and [CFRelease] on
    the manager and with the references a dictionary takes on the values it
    stores and gives up on those it drops.  The reference that [alloc] hands
    to the function creating a pixel format, a context, a view or the
    server is that function's own: it returns it with [release] once the
    manager holds the object, so the pair cancels and is left out.  The
    reference [alloc] hands out on a new [NSWindow] stays with the window
    until Cocoa closes it, and is left out as well. *)

Module vtkCocoaRenderWindow.

Import String List ListNotations.

Local Open Scope Z_scope.

Definition ptr : Type := N.
Definition nullptr : ptr := 0%N.

(** [p != nullptr], the truth value of a pointer. *)
Definition nonnull (p : ptr) : bool := negb (N.eqb p nullptr).

(** An [NSMutableDictionary] with string keys.  It holds no [nil] value and
    [objectForKey:] of an absent key is [nil], so a dictionary is the
    function that [objectForKey:] computes. *)
Definition Dictionary : Type := string -> ptr.

Definition emptyDictionary : Dictionary := fun _ => nullptr.

Definition setObject (d : Dictionary) (v : ptr) (key : string) : Dictionary :=
  fun k => if String.eqb k key then v else d k.

Definition removeObject (d : Dictionary) (key : string) : Dictionary :=
  fun k => if String.eqb k key then nullptr else d k.

(** The two notifications [vtkCocoaServer] observes. *)
Inductive Notification : Type :=
| NSWindowWillCloseNotification
| NSViewFrameDidChangeNotification.

Definition Notification_eqb (a b : Notification) : bool :=
  match a, b with
  | NSWindowWillCloseNotification, NSWindowWillCloseNotification => true
  | NSViewFrameDidChangeNotification, NSViewFrameDidChangeNotification => true
  | _, _ => false
  end.

(** One registration with the notification centre:
    [addObserver:observer selector:... name:name object:object]. *)
Record Observation : Type := MkObservation {
  ob_observer : ptr;
  ob_name : Notification;
  ob_object : ptr
}.

(** The calls that the log records: to [NSCursor] and [NSWindow], to
    [vtkWarningMacro] and [vtkErrorMacro], and to [Modified]. *)
Inductive Event : Type :=
| NSCursor_hide
| NSCursor_unhide
| NSWindow_close (window : ptr)
| Warning
| Error
| Modified.

(** [NSRect], in the order origin x, origin y, width, height. *)
Record NSRect : Type := MkRect {
  rect_x : R;
  rect_y : R;
  rect_width : R;
  rect_height : R
}.

Record World : Type := MkWorld {
  currentContext : ptr;
  dictionaries : ptr -> Dictionary;
  retainCount : ptr -> Z;
  observers : list Observation;
  events : list Event;
  frame : ptr -> NSRect;
  convertRectToBacking : ptr -> NSRect -> NSRect;
  screenOf : ptr -> ptr;
  mainScreen : ptr
}.

Definition with_currentContext (c : ptr) (W : World) : World :=
  let 'MkWorld _ d r o e f b s m := W in MkWorld c d r o e f b s m.

Definition with_dictionaries (d : ptr -> Dictionary) (W : World) : World :=
  let 'MkWorld c _ r o e f b s m := W in MkWorld c d r o e f b s m.

Definition with_retainCount (r : ptr -> Z) (W : World) : World :=
  let 'MkWorld c d _ o e f b s m := W in MkWorld c d r o e f b s m.

Definition with_observers (o : list Observation) (W : World) : World :=
  let 'MkWorld c d r _ e f b s m := W in MkWorld c d r o e f b s m.

Definition with_frame (f : ptr -> NSRect) (W : World) : World :=
  let 'MkWorld c d r o e _ b s m := W in MkWorld c d r o e f b s m.

Definition log (ev : Event) (W : World) : World :=
  let 'MkWorld c d r o e f b s m := W in MkWorld c d r o (ev :: e) f b s m.

(** [int OldScreen[5]]: position, size and borders before full screen. *)
Record Screen5 : Type := MkScreen5 {
  old0 : Z;
  old1 : Z;
  old2 : Z;
  old3 : Z;
  old4 : Z
}.

(** The members the modelled functions read or write.  Those from
    [Mapped] on are inherited from the superclasses; [ContextStack] is the
    [std::stack], its top first. *)
Record Window : Type := MkWindow {
  CocoaManager : ptr;
  WindowCreated : Z;
  ViewCreated : Z;
  CursorHidden : Z;
  ForceMakeCurrent : Z;
  OnScreenInitialized : Z;
  WantsBestResolution : bool;
  ContextStack : list ptr;
  Mapped : Z;
  OwnContext : Z;
  FullScreen : Z;
  Size : Z * Z;
  Position : Z * Z;
  OldScreen : Screen5;
  Borders : Z;
  DoubleBuffer : Z;
  StencilCapable : Z
}.

Definition with_CocoaManager (v : ptr) (w : Window) : Window :=
  let 'MkWindow _ b c d e f g h i j k l m n o p q := w in
  MkWindow v b c d e f g h i j k l m n o p q.

Definition with_WindowCreated (v : Z) (w : Window) : Window :=
  let 'MkWindow a _ c d e f g h i j k l m n o p q := w in
  MkWindow a v c d e f g h i j k l m n o p q.

Definition with_ViewCreated (v : Z) (w : Window) : Window :=
  let 'MkWindow a b _ d e f g h i j k l m n o p q := w in
  MkWindow a b v d e f g h i j k l m n o p q.

Definition with_CursorHidden (v : Z) (w : Window) : Window :=
  let 'MkWindow a b c _ e f g h i j k l m n o p q := w in
  MkWindow a b c v e f g h i j k l m n o p q.

Definition with_ForceMakeCurrent (v : Z) (w : Window) : Window :=
  let 'MkWindow a b c d _ f g h i j k l m n o p q := w in
  MkWindow a b c d v f g h i j k l m n o p q.

Definition with_OnScreenInitialized (v : Z) (w : Window) : Window :=
  let 'MkWindow a b c d e _ g h i j k l m n o p q := w in
  MkWindow a b c d e v g h i j k l m n o p q.

Definition with_WantsBestResolution (v : bool) (w : Window) : Window :=
  let 'MkWindow a b c d e f _ h i j k l m n o p q := w in
  MkWindow a b c d e f v h i j k l m n o p q.

Definition with_ContextStack (v : list ptr) (w : Window) : Window :=
  let 'MkWindow a b c d e f g _ i j k l m n o p q := w in
  MkWindow a b c d e f g v i j k l m n o p q.

Definition with_Mapped (v : Z) (w : Window) : Window :=
  let 'MkWindow a b c d e f g h _ j k l m n o p q := w in
  MkWindow a b c d e f g h v j k l m n o p q.

Definition with_FullScreen (v : Z) (w : Window) : Window :=
  let 'MkWindow a b c d e f g h i j _ l m n o p q := w in
  MkWindow a b c d e f g h i j v l m n o p q.

Definition with_Size (v : Z * Z) (w : Window) : Window :=
  let 'MkWindow a b c d e f g h i j k _ m n o p q := w in
  MkWindow a b c d e f g h i j k v m n o p q.

Definition with_Position (v : Z * Z) (w : Window) : Window :=
  let 'MkWindow a b c d e f g h i j k l _ n o p q := w in
  MkWindow a b c d e f g h i j k l v n o p q.

Definition with_OldScreen (v : Screen5) (w : Window) : Window :=
  let 'MkWindow a b c d e f g h i j k l m _ o p q := w in
  MkWindow a b c d e f g h i j k l m v o p q.

Definition with_Borders (v : Z) (w : Window) : Window :=
  let 'MkWindow a b c d e f g h i j k l m n _ p q := w in
  MkWindow a b c d e f g h i j k l m n v p q.

(** [[manager objectForKey:key]]. *)
Definition objectForKey (W : World) (manager : ptr) (key : string) : ptr :=
  if nonnull manager then dictionaries W manager key else nullptr.

(** [[p retain]] and [[p release]]: one more, one fewer reference to the
    object at [p]; sent to [nil] they do nothing. *)
Definition retain (p : ptr) (W : World) : World :=
  if nonnull p
  then with_retainCount
         (fun a => if N.eqb a p then retainCount W a + 1 else retainCount W a)
         W
  else W.

Definition release (p : ptr) (W : World) : World :=
  if nonnull p
  then with_retainCount
         (fun a => if N.eqb a p then retainCount W a - 1 else retainCount W a)
         W
  else W.

(** The references that an entry holding [p] keeps on the object at [a]:
    one when [a] is [p], none otherwise, and none when the entry is absent
    ([p] is [nil]). *)
Definition held (p a : ptr) : Z :=
  if (nonnull p && N.eqb a p)%bool then 1 else 0.

(** [[manager setObject:v forKey:key]], on the dictionary at the address
    [manager].  An [NSMutableDictionary] owns its values: it retains the
    object it stores and releases the one the key had before. *)
Definition setObjectForKey (W : World) (manager v : ptr) (key : string)
    : World :=
  if nonnull manager then
    let previous := dictionaries W manager key in
    let W := retain v W in
    let W :=
      with_dictionaries
        (fun a => if N.eqb a manager
                  then setObject (dictionaries W a) v key
                  else dictionaries W a) W in
    release previous W
  else W.

(** [[manager removeObjectForKey:key]]: the dictionary releases the value
    it removes. *)
Definition removeObjectForKey (W : World) (manager : ptr) (key : string)
    : World :=
  if nonnull manager then
    let previous := dictionaries W manager key in
    let W :=
      with_dictionaries
        (fun a => if N.eqb a manager
                  then removeObject (dictionaries W a) key
                  else dictionaries W a) W in
    release previous W
  else W.

Definition GetCocoaManager (w : Window) : ptr := CocoaManager w.

Definition GetRootWindow (W : World) (w : Window) : ptr :=
  objectForKey W (GetCocoaManager w) "RootWindow".

Definition SetRootWindow (arg : ptr) (W : World) (w : Window) : World :=
  if nonnull arg then setObjectForKey W (GetCocoaManager w) arg "RootWindow"
  else removeObjectForKey W (GetCocoaManager w) "RootWindow".

Definition GetWindowId (W : World) (w : Window) : ptr :=
  objectForKey W (GetCocoaManager w) "WindowId".

Definition SetWindowId (arg : ptr) (W : World) (w : Window) : World :=
  if nonnull arg then setObjectForKey W (GetCocoaManager w) arg "WindowId"
  else removeObjectForKey W (GetCocoaManager w) "WindowId".

Definition GetParentId (W : World) (w : Window) : ptr :=
  objectForKey W (GetCocoaManager w) "ParentId".

Definition SetParentId (arg : ptr) (W : World) (w : Window) : World :=
  if nonnull arg then setObjectForKey W (GetCocoaManager w) arg "ParentId"
  else removeObjectForKey W (GetCocoaManager w) "ParentId".

Definition SetContextId (contextId : ptr) (W : World) (w : Window) : World :=
  if nonnull contextId
  then setObjectForKey W (GetCocoaManager w) contextId "ContextId"
  else removeObjectForKey W (GetCocoaManager w) "ContextId".

Definition GetContextId (W : World) (w : Window) : ptr :=
  objectForKey W (GetCocoaManager w) "ContextId".

Definition SetPixelFormat (pixelFormat : ptr) (W : World) (w : Window)
    : World :=
  if nonnull pixelFormat
  then setObjectForKey W (GetCocoaManager w) pixelFormat "PixelFormat"
  else removeObjectForKey W (GetCocoaManager w) "PixelFormat".

Definition GetPixelFormat (W : World) (w : Window) : ptr :=
  objectForKey W (GetCocoaManager w) "PixelFormat".

Definition SetCocoaServer (server : ptr) (W : World) (w : Window) : World :=
  if nonnull server
  then setObjectForKey W (GetCocoaManager w) server "CocoaServer"
  else removeObjectForKey W (GetCocoaManager w) "CocoaServer".

Definition GetCocoaServer (W : World) (w : Window) : ptr :=
  objectForKey W (GetCocoaManager w) "CocoaServer".

(** The six entries of the manager, to speak of the six pairs of accessors
    at once. *)
Inductive Slot : Type :=
| RootWindow
| WindowId
| ParentId
| ContextId
| PixelFormat
| CocoaServer.

Definition Slot_eqb (a b : Slot) : bool :=
  match a, b with
  | RootWindow, RootWindow | WindowId, WindowId | ParentId, ParentId
  | ContextId, ContextId | PixelFormat, PixelFormat
  | CocoaServer, CocoaServer => true
  | _, _ => false
  end.

Definition GetSlot (s : Slot) (W : World) (w : Window) : ptr :=
  match s with
  | RootWindow => GetRootWindow W w
  | WindowId => GetWindowId W w
  | ParentId => GetParentId W w
  | ContextId => GetContextId W w
  | PixelFormat => GetPixelFormat W w
  | CocoaServer => GetCocoaServer W w
  end.

Definition SetSlot (s : Slot) (arg : ptr) (W : World) (w : Window) : World :=
  match s with
  | RootWindow => SetRootWindow arg W w
  | WindowId => SetWindowId arg W w
  | ParentId => SetParentId arg W w
  | ContextId => SetContextId arg W w
  | PixelFormat => SetPixelFormat arg W w
  | CocoaServer => SetCocoaServer arg W w
  end.

(** The references that the manager of the window holds on the object at
    [a] through its six entries. *)
Definition managed (W : World) (w : Window) (a : ptr) : Z :=
  held (GetContextId W w) a + held (GetPixelFormat W w) a
  + held (GetCocoaServer W w) a + held (GetWindowId W w) a
  + held (GetParentId W w) a + held (GetRootWindow W w) a.

(** [CFRetain] and [CFRelease]: one more, one fewer reference. *)
Definition CFRetain (p : ptr) (W : World) : World :=
  with_retainCount
    (fun a => if N.eqb a p then retainCount W a + 1 else retainCount W a) W.

Definition CFRelease (p : ptr) (W : World) : World :=
  with_retainCount
    (fun a => if N.eqb a p then retainCount W a - 1 else retainCount W a) W.

Definition SetCocoaManager (manager : ptr) (W : World) (w : Window)
    : World * Window :=
  let currentCocoaManager := CocoaManager w in
  let newCocoaManager := manager in
  if negb (N.eqb currentCocoaManager newCocoaManager) then
    let W := if nonnull currentCocoaManager
             then CFRelease currentCocoaManager W else W in
    if nonnull newCocoaManager
    then (CFRetain newCocoaManager W, with_CocoaManager newCocoaManager w)
    else (W, with_CocoaManager nullptr w)
  else (W, w).

(** A caller's successive [SetCocoaManager] calls. *)
Fixpoint SetCocoaManagers (managers : list ptr) (W : World) (w : Window)
    : World * Window :=
  match managers with
  | [] => (W, w)
  | m :: rest =>
      let '(W, w) := SetCocoaManager m W w in SetCocoaManagers rest W w
  end.

(** [[context makeCurrentContext]]: the receiver becomes the current
    context of the thread. *)
Definition makeCurrentContext (context : ptr) (W : World) : World :=
  if nonnull context then with_currentContext context W else W.

Definition MakeCurrent (W : World) (w : Window) : World :=
  if nonnull (GetContextId W w)
  then makeCurrentContext (GetContextId W w) W
  else W.

Definition PushContext (W : World) (w : Window) : World * Window :=
  let current := currentContext W in
  let mine := GetContextId W w in
  let w := with_ContextStack (current :: ContextStack w) w in
  if negb (N.eqb current mine) then (MakeCurrent W w, w) else (W, w).

(** [ContextStack.top()] of an empty stack is undefined; the model returns
    [None] there. *)
Definition PopContext (W : World) (w : Window) : option (World * Window) :=
  let current := currentContext W in
  match ContextStack w with
  | [] => None
  | target :: rest =>
      let w := with_ContextStack rest w in
      if negb (N.eqb target current)
      then Some (makeCurrentContext target W, w)
      else Some (W, w)
  end.

(** [n] nested [PushContext] calls, and the [n] matching [PopContext]
    calls. *)
Fixpoint PushContexts (n : nat) (W : World) (w : Window) : World * Window :=
  match n with
  | O => (W, w)
  | S n => let '(W, w) := PushContext W w in PushContexts n W w
  end.

Fixpoint PopContexts (n : nat) (W : World) (w : Window)
    : option (World * Window) :=
  match n with
  | O => Some (W, w)
  | S n =>
      match PopContext W w with
      | Some (W, w) => PopContexts n W w
      | None => None
      end
  end.

(** The world after [PushContext] then [PopContext]: the context that was
    current is current again, except that when none was current the
    window's own context, if it has one, stays current. *)
Definition after_push_pop (W : World) (w : Window) : World :=
  if (nonnull (currentContext W) || negb (nonnull (GetContextId W w)))%bool
  then W
  else with_currentContext (GetContextId W w) W.

Definition IsCurrent (W : World) (w : Window) : bool :=
  let result := false in
  if nonnull (GetContextId W w)
  then N.eqb (GetContextId W w) (currentContext W)
  else result.

Definition IsDirect (W : World) (w : Window) : World * Z :=
  let W := MakeCurrent W w in
  if orb (negb (nonnull (GetContextId W w)))
         (negb (nonnull (GetPixelFormat W w)))
  then (W, 0)
  else (W, 1).

Definition HideCursor (W : World) (w : Window) : World * Window :=
  if negb (Z.eqb (CursorHidden w) 0) then (W, w)
  else (log NSCursor_hide W, with_CursorHidden 1 w).

Definition ShowCursor (W : World) (w : Window) : World * Window :=
  if Z.eqb (CursorHidden w) 0 then (W, w)
  else (log NSCursor_unhide W, with_CursorHidden 0 w).

(** A caller's successive cursor calls. *)
Inductive CursorCall : Type :=
| CallHideCursor
| CallShowCursor.

Fixpoint CursorCalls (calls : list CursorCall) (W : World) (w : Window)
    : World * Window :=
  match calls with
  | [] => (W, w)
  | CallHideCursor :: rest =>
      let '(W, w) := HideCursor W w in CursorCalls rest W w
  | CallShowCursor :: rest =>
      let '(W, w) := ShowCursor W w in CursorCalls rest W w
  end.

(** The number of [[NSCursor hide]] calls in a log minus the number of
    [[NSCursor unhide]] calls. *)
Fixpoint hideBalance (log : list Event) : Z :=
  match log with
  | [] => 0
  | NSCursor_hide :: rest => hideBalance rest + 1
  | NSCursor_unhide :: rest => hideBalance rest - 1
  | _ :: rest => hideBalance rest
  end.

Definition GetEventPending (w : Window) : Z := 0.

Definition GetViewCreated (w : Window) : Z := ViewCreated w.

Definition GetWindowCreated (w : Window) : Z := WindowCreated w.

Definition SetForceMakeCurrent (w : Window) : Window :=
  with_ForceMakeCurrent 1 w.

Definition GetWantsBestResolution (w : Window) : bool :=
  WantsBestResolution w.

Definition SetWantsBestResolution (wantsBest : bool) (w : Window) : Window :=
  with_WantsBestResolution wantsBest w.

(** *** The observations of [vtkCocoaServer]

    [server] is the address of the [vtkCocoaServer] and the window the
    functions read is its [_renWin].  [addObserver:...] adds one
    registration; [removeObserver:name:object:] removes every registration
    of that observer for that notification and object. *)

Definition Observation_eqb (a b : Observation) : bool :=
  (N.eqb (ob_observer a) (ob_observer b)
   && Notification_eqb (ob_name a) (ob_name b)
   && N.eqb (ob_object a) (ob_object b))%bool.

Definition addObserver (o : Observation) (W : World) : World :=
  with_observers (o :: observers W) W.

Definition removeObserver (o : Observation) (W : World) : World :=
  with_observers
    (filter (fun x => negb (Observation_eqb x o)) (observers W)) W.

Definition startObservations (server : ptr) (W : World) (w : Window)
    : World :=
  let windowCreated := GetWindowCreated w in
  let win := GetRootWindow W w in
  let W :=
    if (negb (Z.eqb windowCreated 0) && nonnull win)%bool
    then addObserver (MkObservation server NSWindowWillCloseNotification win) W
    else W in
  let view := GetWindowId W w in
  let viewCreated := GetViewCreated w in
  if (negb (Z.eqb viewCreated 0) && nonnull view)%bool
  then addObserver (MkObservation server NSViewFrameDidChangeNotification view) W
  else W.

Definition stopObservations (server : ptr) (W : World) (w : Window)
    : World :=
  let windowCreated := GetWindowCreated w in
  let win := GetRootWindow W w in
  let W :=
    if (negb (Z.eqb windowCreated 0) && nonnull win)%bool
    then removeObserver
           (MkObservation server NSWindowWillCloseNotification win) W
    else W in
  let view := GetWindowId W w in
  let viewCreated := GetViewCreated w in
  if (negb (Z.eqb viewCreated 0) && nonnull view)%bool
  then removeObserver
         (MkObservation server NSViewFrameDidChangeNotification view) W
  else W.

(** The registrations that [startObservations] makes in a given state, the
    latest first. *)
Definition registrations (server : ptr) (W : World) (w : Window)
    : list Observation :=
  (if (negb (Z.eqb (ViewCreated w) 0) && nonnull (GetWindowId W w))%bool
   then [MkObservation server NSViewFrameDidChangeNotification
           (GetWindowId W w)]
   else [])
  ++ (if (negb (Z.eqb (WindowCreated w) 0)
          && nonnull (GetRootWindow W w))%bool
      then [MkObservation server NSWindowWillCloseNotification
              (GetRootWindow W w)]
      else []).

(** *** What the model takes as given

    The constants of the SDK's [NSOpenGL.h], the deployment target that the
    preprocessor tests, the objects Cocoa allocates, the conversions from
    pixels to points, and the two functions of the superclass that the
    modelled code calls, which are free to change the world and the object
    in any way.

    [initWithAttributes attribs] is what
    [[[NSOpenGLPixelFormat alloc] initWithAttributes:attribs]] returns for
    the entries written into [attribs], [nil] on failure;
    [initWithFormat pixelFormat sharedContext] is the new
    [NSOpenGLContext]; the four [alloc...] are the new windows and views
    for a content rectangle or frame, [allocServer] the new
    [vtkCocoaServer]; [windowOf view] is [[view window]]. *)
Record Platform : Type := MkPlatform {
  deploymentTargetAtLeast1010 : bool;
  NSOpenGLPFAOpenGLProfile : Z;
  NSOpenGLProfileVersion4_1Core : Z;
  NSOpenGLProfileVersion3_2Core : Z;
  NSOpenGLPFADepthSize : Z;
  NSOpenGLPFADoubleBuffer : Z;
  NSOpenGLPFAStencilSize : Z;
  NSOpenGLPFAAccelerated : Z;
  initWithAttributes : list Z -> ptr;
  initWithFormat : ptr -> ptr -> ptr;
  allocFullScreenWindow : NSRect -> ptr;
  allocWindow : NSRect -> ptr;
  allocView : NSRect -> ptr;
  allocGLView : NSRect -> ptr;
  allocServer : ptr;
  windowOf : ptr -> ptr;
  convertRectFromBacking : ptr -> NSRect -> NSRect;
  convertPointFromBacking : ptr -> R * R -> R * R;
  OpenGLInit : World -> Window -> World * Window;
  ReleaseGraphicsResources : World -> Window -> World * Window
}.

(** A function of the superclass that keeps to the OpenGL state: it leaves
    the members of the object, the entries of the managers, the
    notification centre and the log as they are. *)
Definition keeps_to_OpenGL (f : World -> Window -> World * Window) : Prop :=
  forall W w,
    snd (f W w) = w
    /\ dictionaries (fst (f W w)) = dictionaries W
    /\ observers (fst (f W w)) = observers W
    /\ events (fst (f W w)) = events W.

(** *** Tearing the window down

    The server in the manager is the one [CreateAWindow] installed, whose
    [_renWin] is this window.  Closing the [NSWindow] is logged; the
    delivery of the notification it posts is outside the model. *)

(** The first statement of [DestroyWindow]: "finish OpenGL rendering". *)
Definition finishRendering (P : Platform) (W : World) (w : Window)
    : World * Window :=
  if (negb (Z.eqb (OwnContext w) 0) && nonnull (GetContextId W w))%bool
  then ReleaseGraphicsResources P (MakeCurrent W w) w
  else (W, w).

Definition DestroyWindow (P : Platform) (W : World) (w : Window)
    : World * Window :=
  let '(W, w) := finishRendering P W w in
  let W := SetContextId nullptr W w in
  let W := SetPixelFormat nullptr W w in
  let server := GetCocoaServer W w in
  let W := if nonnull server then stopObservations server W w else W in
  let W := SetCocoaServer nullptr W w in
  let W :=
    if negb (Z.eqb (WindowCreated w) 0) then
      let window := GetRootWindow W w in
      if nonnull window then log (NSWindow_close window) W else W
    else W in
  let W := SetWindowId nullptr W w in
  let W := SetParentId nullptr W w in
  let W := SetRootWindow nullptr W w in
  let w := with_WindowCreated 0 w in
  let w := with_ViewCreated 0 w in
  let w := with_Mapped 0 w in
  (W, w).

Definition Finalize (P : Platform) (W : World) (w : Window)
    : World * Window :=
  if negb (Z.eqb (OnScreenInitialized w) 0) then
    let w := with_OnScreenInitialized 0 w in
    DestroyWindow P W w
  else (W, w).

(** The destructor; the loop that detaches the renderers works on the
    superclass's collection and is not tracked. *)
Definition Destructor (P : Platform) (W : World) (w : Window)
    : World * Window :=
  let '(W, w) :=
    if negb (Z.eqb (CursorHidden w) 0) then ShowCursor W w else (W, w) in
  let '(W, w) := Finalize P W w in
  let W := SetContextId nullptr W w in
  let W := SetPixelFormat nullptr W w in
  let W := SetCocoaServer nullptr W w in
  let W := SetRootWindow nullptr W w in
  let W := SetWindowId nullptr W w in
  let W := SetParentId nullptr W w in
  SetCocoaManager nullptr W w.

(** [windowWillClose:] of the server, for the notification whose object is
    [object].  The model returns [None] where an assertion fails; stopping
    the interactor's run loop is not tracked. *)
Definition windowWillClose (server object : ptr) (W : World) (w : Window)
    : option World :=
  if Z.eqb (GetWindowCreated w) 0 then None
  else if negb (N.eqb object (GetRootWindow W w)) then None
  else
    let W := stopObservations server W w in
    let W := SetRootWindow nullptr W w in
    Some W.

(** *** Creating the OpenGL context *)

(** The entries one pass of the loop writes into
    [NSOpenGLPixelFormatAttribute attribs[20]], in order; their number is
    the final value of [i]. *)
Definition attributes (P : Platform) (profileVersion hardware : Z)
    (w : Window) : list Z :=
  [NSOpenGLPFAOpenGLProfile P; profileVersion; NSOpenGLPFADepthSize P; 32]
  ++ (if negb (Z.eqb (DoubleBuffer w) 0) then [NSOpenGLPFADoubleBuffer P]
      else [])
  ++ (if negb (Z.eqb (StencilCapable w) 0)
      then [NSOpenGLPFAStencilSize P; 8]
      else [])
  ++ [hardware; 0].

(** How the search for a pixel format ends. *)
Inductive Search : Type :=
| OutOfFuel
| AssertionFailed
| Found (pixelFormat : ptr) (tried : list (list Z)) (warned : bool).

(** The loop [while (pixelFormat == nil)], [fuel] bounding its passes.
    [tried] collects the attribute lists passed to Cocoa, the latest first.
    The assertion is [sizeof(NSOpenGLPixelFormatAttribute) * i <
    sizeof(attribs)], that is [i < 20]. *)
Fixpoint searchPixelFormat (P : Platform) (fuel : nat)
    (profileVersion hardware : Z) (w : Window) (tried : list (list Z))
    : Search :=
  match fuel with
  | O => OutOfFuel
  | S fuel =>
      let attribs := attributes P profileVersion hardware w in
      if negb (Nat.ltb (length attribs) 20) then AssertionFailed
      else
        let pixelFormat := initWithAttributes P attribs in
        let tried := attribs :: tried in
        if nonnull pixelFormat then Found pixelFormat tried false
        else if negb (Z.eqb profileVersion (NSOpenGLProfileVersion3_2Core P))
        then searchPixelFormat P fuel (NSOpenGLProfileVersion3_2Core P)
               hardware w tried
        else if Z.eqb hardware (NSOpenGLPFAAccelerated P)
        then searchPixelFormat P fuel profileVersion 0 w tried
        else Found nullptr tried true
  end.

(** [shared] is [SafeDownCast(this->SharedRenderWindow)] when that is a
    Cocoa window.  Sharing the cache of buffer objects and the swap
    interval are not tracked; the manager takes its references on the pixel
    format and the context in [SetPixelFormat] and [SetContextId], and the
    function's own, from [alloc], are returned by the two [release] at its
    end.  The result is [None]
    when the loop runs out of fuel or the assertion fails; otherwise it
    comes with the attribute lists tried, the latest first. *)
Definition CreateGLContext (P : Platform) (fuel : nat)
    (shared : option Window) (W : World) (w : Window)
    : option (World * list (list Z)) :=
  let profileVersion :=
    if deploymentTargetAtLeast1010 P then NSOpenGLProfileVersion4_1Core P
    else NSOpenGLProfileVersion3_2Core P in
  let hardware := NSOpenGLPFAAccelerated P in
  match searchPixelFormat P fuel profileVersion hardware w [] with
  | OutOfFuel => None
  | AssertionFailed => None
  | Found pixelFormat tried warned =>
      let W := if warned then log Warning W else W in
      let sharedContext :=
        match shared with
        | Some renWin =>
            if nonnull (GetContextId W renWin) then GetContextId W renWin
            else nullptr
        | None => nullptr
        end in
      let context :=
        if nonnull pixelFormat
        then initWithFormat P pixelFormat sharedContext
        else nullptr in
      let W := SetPixelFormat pixelFormat W w in
      let W := SetContextId context W w in
      Some (W, tried)
  end.

(** The combinations of profile and renderer in the order the loop tries
    them. *)
Definition candidates (P : Platform) : list (Z * Z) :=
  let first :=
    if deploymentTargetAtLeast1010 P then NSOpenGLProfileVersion4_1Core P
    else NSOpenGLProfileVersion3_2Core P in
  if Z.eqb first (NSOpenGLProfileVersion3_2Core P)
  then [(NSOpenGLProfileVersion3_2Core P, NSOpenGLPFAAccelerated P);
        (NSOpenGLProfileVersion3_2Core P, 0)]
  else [(first, NSOpenGLPFAAccelerated P);
        (NSOpenGLProfileVersion3_2Core P, NSOpenGLPFAAccelerated P);
        (NSOpenGLProfileVersion3_2Core P, 0)].

(** The first pixel format Cocoa grants along a list of combinations,
    [nil] when it grants none. *)
Fixpoint firstGranted (P : Platform) (cs : list (Z * Z)) (w : Window) : ptr :=
  match cs with
  | [] => nullptr
  | (p, h) :: rest =>
      if nonnull (initWithAttributes P (attributes P p h w))
      then initWithAttributes P (attributes P p h w)
      else firstGranted P rest w
  end.

(** The attribute lists passed to Cocoa along a list of combinations: up
    to and including the first that is granted. *)
Fixpoint attempts (P : Platform) (cs : list (Z * Z)) (w : Window)
    : list (list Z) :=
  match cs with
  | [] => []
  | (p, h) :: rest =>
      attributes P p h w
      :: (if nonnull (initWithAttributes P (attributes P p h w)) then []
          else attempts P rest w)
  end.

(** *** Position, screen size and full screen *)

(** [static_cast<int>] of a [CGFloat]: truncation toward zero (for a value
    an [int] can hold). *)
Definition static_cast_int (x : R) : Z :=
  if Rle_dec 0 x then Int_part x else - Int_part (- x).

(** [[object frame]] and [[object convertRectToBacking:rect]]; sent to
    [nil] they return zeros. *)
Definition send_frame (W : World) (object : ptr) : NSRect :=
  if nonnull object then frame W object else MkRect 0 0 0 0.

Definition send_convertRectToBacking (W : World) (object : ptr) (r : NSRect)
    : NSRect :=
  if nonnull object then convertRectToBacking W object r else MkRect 0 0 0 0.

(** [[object setFrame:r]] and [[object setFrameOrigin:(x, y)]]. *)
Definition setFrame (object : ptr) (r : NSRect) (W : World) : World :=
  if nonnull object
  then with_frame (fun a => if N.eqb a object then r else frame W a) W
  else W.

Definition setFrameOrigin (object : ptr) (origin : R * R) (W : World)
    : World :=
  setFrame object
    (MkRect (fst origin) (snd origin) (rect_width (frame W object))
            (rect_height (frame W object))) W.

Definition GetPosition (W : World) (w : Window) : (Z * Z) * Window :=
  if Z.eqb (Mapped w) 0 then (Position w, w)
  else
    let parent := GetParentId W w in
    let view := GetWindowId W w in
    if (nonnull parent && nonnull view)%bool then
      let parentRect := send_frame W parent in
      let viewRect := send_frame W view in
      let backingParentRect :=
        send_convertRectToBacking W parent parentRect in
      let backingViewRect := send_convertRectToBacking W view viewRect in
      let w :=
        with_Position
          (static_cast_int (rect_x backingViewRect),
           static_cast_int
             (rect_height backingParentRect - rect_height backingViewRect
              - rect_y backingViewRect)%R) w in
      (Position w, w)
    else
      let window := GetRootWindow W w in
      if nonnull window then
        let windowRect := send_frame W window in
        let backingWindowRect :=
          send_convertRectToBacking W window windowRect in
        let w :=
          with_Position
            (static_cast_int (rect_x backingWindowRect),
             static_cast_int (rect_y backingWindowRect)) w in
        (Position w, w)
      else (Position w, w).

(** [resizing] is the value of the function's static flag on entry; the
    function leaves the flag as it finds it.  [setNeedsDisplay:] is not
    tracked. *)
Definition SetPosition (P : Platform) (resizing : bool) (x y : Z)
    (W : World) (w : Window) : World * Window :=
  if (negb (Z.eqb (fst (Position w)) x) || negb (Z.eqb (snd (Position w)) y)
      || nonnull (GetParentId W w))%bool
  then
    let W := log Modified W in
    let w := with_Position (x, y) w in
    if (nonnull (GetParentId W w) && nonnull (GetWindowId W w)
        && negb (Z.eqb (Mapped w) 0))%bool
    then
      if negb resizing then
        let parent := GetParentId W w in
        let parentRect := send_frame W parent in
        let theView := GetWindowId W w in
        let viewRect := send_frame W theView in
        let backingNewPosition := (IZR x, IZR y) in
        let newPosition :=
          convertPointFromBacking P theView backingNewPosition in
        let parentHeight := rect_height parentRect in
        let height := rect_height viewRect in
        let xpos := fst newPosition in
        let ypos := (parentHeight - height - snd newPosition)%R in
        (setFrameOrigin theView (xpos, ypos) W, w)
      else (W, w)
    else if (nonnull (GetRootWindow W w) && negb (Z.eqb (Mapped w) 0))%bool
    then
      if negb resizing then
        let window := GetRootWindow W w in
        let backingNewPosition := MkRect 0 0 (IZR x) (IZR y) in
        let newPosition :=
          convertRectFromBacking P window backingNewPosition in
        (setFrameOrigin window (rect_x newPosition, rect_y newPosition) W, w)
      else (W, w)
    else (W, w)
  else (W, w).

Definition GetScreenSize (W : World) (w : Window) : (Z * Z) * Window :=
  let window := GetRootWindow W w in
  let screen := if nonnull window then screenOf W window else nullptr in
  let screen := if negb (nonnull screen) then mainScreen W else screen in
  let screenRect := send_frame W screen in
  let backingScreenRect := send_convertRectToBacking W screen screenRect in
  let w :=
    with_Size
      (static_cast_int (rect_width backingScreenRect),
       static_cast_int (rect_height backingScreenRect)) w in
  (Size w, w).

Definition PrefFullScreen (W : World) (w : Window) : World * Window :=
  let '(_, w) := GetScreenSize W w in
  (log Warning W, w).

Definition WindowRemap (W : World) : World := log Warning W.

Definition SetFullScreen (arg : Z) (W : World) (w : Window)
    : World * Window :=
  if Z.eqb (FullScreen w) arg then (W, w)
  else if Z.eqb (Mapped w) 0 then (W, with_FullScreen arg w)
  else
    let w := with_FullScreen arg w in
    let '(W, w) :=
      if Z.leb (FullScreen w) 0 then
        let w := with_Position (old0 (OldScreen w), old1 (OldScreen w)) w in
        let w := with_Size (old2 (OldScreen w), old3 (OldScreen w)) w in
        let w := with_Borders (old4 (OldScreen w)) w in
        (W, w)
      else if nonnull (GetRootWindow W w) then
        let '(pos, w) := GetPosition W w in
        let w :=
          with_OldScreen
            (MkScreen5 (fst pos) (old1 (OldScreen w)) (old2 (OldScreen w))
                       (old3 (OldScreen w)) (old4 (OldScreen w))) w in
        let w :=
          with_OldScreen
            (MkScreen5 (old0 (OldScreen w)) (snd pos) (old2 (OldScreen w))
                       (old3 (OldScreen w)) (old4 (OldScreen w))) w in
        let w :=
          with_OldScreen
            (MkScreen5 (old0 (OldScreen w)) (old1 (OldScreen w))
                       (old2 (OldScreen w)) (old3 (OldScreen w))
                       (Borders w)) w in
        PrefFullScreen W w
      else (W, w) in
    let W := WindowRemap W in
    let W := log Modified W in
    (W, w).

(** *** Creating the window *)

(** The frame [CreateAWindow] computes for the view it creates inside a
    parent view, its "whole bunch of sanity checks": [parentRect] is the
    parent's frame and [viewRect] the requested position and size in
    points. *)
Definition CreateAWindow_glRect (parentRect viewRect : NSRect) : NSRect :=
  let parentHeight := rect_height parentRect in
  let parentWidth := rect_width parentRect in
  let width := rect_width viewRect in
  let height := rect_height viewRect in
  let x := rect_x viewRect in
  let y := (parentHeight - height - rect_y viewRect)%R in
  let x := if Rgt_dec x (parentWidth - 1) then (parentWidth - 1)%R else x in
  let y := if Rgt_dec y (parentHeight - 1) then (parentHeight - 1)%R else y in
  let x := if Rlt_dec x 0 then 0%R else x in
  let y := if Rlt_dec y 0 then 0%R else y in
  let width :=
    if Rgt_dec (x + width) parentWidth then (parentWidth - x)%R else width in
  let height :=
    if Rgt_dec (y + height) parentWidth then (parentHeight - y)%R
    else height in
  MkRect x y width height.

(** The first part of [CreateAWindow]: an [NSWindow] is created only if
    neither a window nor a view nor a parent view was given.  The boolean
    is false when the function returns early because no window could be
    created.  The shared application, its activation policy, the window
    level and showing the window are not tracked. *)
Definition CreateAWindow_window (P : Platform) (W : World) (w : Window)
    : World * Window * bool :=
  if (negb (nonnull (GetRootWindow W w)) && negb (nonnull (GetWindowId W w))
      && negb (nonnull (GetParentId W w)))%bool
  then
    let screen := mainScreen W in
    let screenRect := send_frame W screen in
    let backingScreenRect := send_convertRectToBacking W screen screenRect in
    let '(w, theWindow) :=
      if (negb (Z.eqb (FullScreen w) 0) && nonnull screen)%bool then
        let w :=
          with_Size
            (static_cast_int (rect_width backingScreenRect),
             static_cast_int (rect_height backingScreenRect)) w in
        (w, allocFullScreenWindow P screenRect)
      else
        let w :=
          if Z.eqb (fst (Size w) + snd (Size w)) 0 then with_Size (300, 300) w
          else w in
        let w :=
          if Z.eqb (fst (Position w) + snd (Position w)) 0
          then with_Position (50, 50) w
          else w in
        let backingContentRect :=
          MkRect (IZR (fst (Position w))) (IZR (snd (Position w)))
                 (IZR (fst (Size w))) (IZR (snd (Size w))) in
        let contentRect :=
          if nonnull screen
          then convertRectFromBacking P screen backingContentRect
          else backingContentRect in
        (w, allocWindow P contentRect) in
    if negb (nonnull theWindow) then (log Error W, w, false)
    else
      let W := SetRootWindow theWindow W w in
      let w := with_WindowCreated 1 w in
      (W, w, true)
  else (W, w, true).

(** The size and the position that the first part of [CreateAWindow]
    stores in the object before it asks Cocoa for the [NSWindow]: the size
    of the main screen in pixels for a full-screen window, otherwise 300 by
    300 for a size that sums to 0 and (50, 50) for a position that sums to
    0. *)
Definition CreateAWindow_Size (W : World) (w : Window) : Z * Z :=
  let screen := mainScreen W in
  let backingScreenRect :=
    send_convertRectToBacking W screen (send_frame W screen) in
  if (negb (Z.eqb (FullScreen w) 0) && nonnull screen)%bool
  then (static_cast_int (rect_width backingScreenRect),
        static_cast_int (rect_height backingScreenRect))
  else if Z.eqb (fst (Size w) + snd (Size w)) 0 then (300, 300)
  else Size w.

Definition CreateAWindow_Position (W : World) (w : Window) : Z * Z :=
  if (negb (Z.eqb (FullScreen w) 0) && nonnull (mainScreen W))%bool
  then Position w
  else if Z.eqb (fst (Position w) + snd (Position w)) 0 then (50, 50)
  else Position w.

(** The second part: a view is created if none was given.  The result is
    [None] where an [assert(window)] fails.  Adding the view to its parent
    or making it the content view, and the resolution it wants, are not
    tracked. *)
Definition CreateAWindow_view (P : Platform) (W : World) (w : Window)
    : option (World * Window) :=
  if negb (nonnull (GetWindowId W w)) then
    if nonnull (GetParentId W w) then
      let parent := GetParentId W w in
      let parentRect := send_frame W parent in
      let window := windowOf P parent in
      if negb (nonnull window) then None
      else
        let backingViewRect :=
          MkRect (IZR (fst (Position w))) (IZR (snd (Position w)))
                 (IZR (fst (Size w))) (IZR (snd (Size w))) in
        let viewRect := convertRectFromBacking P window backingViewRect in
        let glRect := CreateAWindow_glRect parentRect viewRect in
        let glView := allocView P glRect in
        let W := setFrame glView glRect W in
        let W := SetWindowId glView W w in
        let w := with_ViewCreated 1 w in
        Some (W, w)
    else
      let backingViewRect :=
        MkRect 0 0 (IZR (fst (Size w))) (IZR (snd (Size w))) in
      let window := GetRootWindow W w in
      if negb (nonnull window) then None
      else
        let viewRect := convertRectFromBacking P window backingViewRect in
        let glView := allocGLView P viewRect in
        let W := setFrame glView viewRect W in
        let W := SetWindowId glView W w in
        let w := with_ViewCreated 1 w in
        Some (W, w)
  else Some (W, w).

(** The third part: the context is created and made current, the
    superclass initialises OpenGL, the window counts as mapped and the
    server starts its observations.  The window title, attaching the
    context to the view, and the loop over the renderers are not
    tracked. *)
Definition CreateAWindow_context (P : Platform) (fuel : nat)
    (shared : option Window) (W : World) (w : Window)
    : option (World * Window) :=
  match CreateGLContext P fuel shared W w with
  | None => None
  | Some (W, _) =>
      let W := MakeCurrent W w in
      let '(W, w) := OpenGLInit P W w in
      let w := with_Mapped 1 w in
      let server := allocServer P in
      let W := SetCocoaServer server W w in
      let W := if nonnull server then startObservations server W w else W in
      Some (W, w)
  end.

Definition CreateAWindow (P : Platform) (fuel : nat) (shared : option Window)
    (W : World) (w : Window) : option (World * Window) :=
  let '(W, w, continue) := CreateAWindow_window P W w in
  if negb continue then Some (W, w)
  else
    match CreateAWindow_view P W w with
    | None => None
    | Some (W, w) => CreateAWindow_context P fuel shared W w
    end.

(** [Initialize]; updating the context for the view at its end is not
    tracked. *)
Definition Initialize (P : Platform) (fuel : nat) (shared : option Window)
    (W : World) (w : Window) : option (World * Window) :=
  if Z.eqb (OnScreenInitialized w) 0 then
    let w := with_OnScreenInitialized 1 w in
    CreateAWindow P fuel shared W w
  else Some (W, w).

(** The constructor.  [cocoaManager] is the address of the dictionary that
    [[NSMutableDictionary dictionary]] creates, new and empty; [base] is the
    object as the superclass constructors leave it.  [SetWindowName] stores
    the name in the superclass and titles the root window when there is
    one; neither is tracked. *)
Definition Constructor (cocoaManager : ptr) (W : World) (base : Window)
    : World * Window :=
  let W := with_dictionaries
             (fun a => if N.eqb a cocoaManager then emptyDictionary
                       else dictionaries W a) W in
  let w := with_ContextStack [] base in
  let w := with_CocoaManager nullptr w in
  let '(W, w) := SetCocoaManager cocoaManager W w in
  let w := with_WindowCreated 0 w in
  let w := with_ViewCreated 0 w in
  let w := with_CursorHidden 0 w in
  let w := with_ForceMakeCurrent 0 w in
  let w := with_OnScreenInitialized 0 w in
  let w := with_WantsBestResolution true w in
  (W, w).

(** A world without any Cocoa object and a blank object, for the examples:
    no current context, empty dictionaries, no retain, no observation, all
    frames zero. *)
Definition blankWorld : World :=
  {| currentContext := nullptr;
     dictionaries := fun _ => emptyDictionary;
     retainCount := fun _ => 0;
     observers := [];
     events := [];
     frame := fun _ => MkRect 0 0 0 0;
     convertRectToBacking := fun _ r => r;
     screenOf := fun _ => nullptr;
     mainScreen := nullptr |}.

Definition blankWindow : Window :=
  {| CocoaManager := nullptr;
     WindowCreated := 0;
     ViewCreated := 0;
     CursorHidden := 0;
     ForceMakeCurrent := 0;
     OnScreenInitialized := 0;
     WantsBestResolution := false;
     ContextStack := [];
     Mapped := 0;
     OwnContext := 0;
     FullScreen := 0;
     Size := (0, 0);
     Position := (0, 0);
     OldScreen := MkScreen5 0 0 0 0 0;
     Borders := 0;
     DoubleBuffer := 0;
     StencilCapable := 0 |}.

(** A platform for the examples: the values of the SDK's constants, a
    Cocoa that refuses every accelerated pixel format and grants the others
    at address 21, contexts at address 22, windows and views at addresses
    31 to 34, the server at address 35, pixels for points, and a superclass
    that does nothing. *)
Definition examplePlatform : Platform :=
  {| deploymentTargetAtLeast1010 := true;
     NSOpenGLPFAOpenGLProfile := 99;
     NSOpenGLProfileVersion4_1Core := 16640;
     NSOpenGLProfileVersion3_2Core := 12800;
     NSOpenGLPFADepthSize := 12;
     NSOpenGLPFADoubleBuffer := 5;
     NSOpenGLPFAStencilSize := 13;
     NSOpenGLPFAAccelerated := 73;
     initWithAttributes :=
       fun attribs => if existsb (Z.eqb 73) attribs then nullptr else 21%N;
     initWithFormat := fun _ _ => 22%N;
     allocFullScreenWindow := fun _ => 31%N;
     allocWindow := fun _ => 32%N;
     allocView := fun _ => 33%N;
     allocGLView := fun _ => 34%N;
     allocServer := 35%N;
     windowOf := fun _ => 32%N;
     convertRectFromBacking := fun _ r => r;
     convertPointFromBacking := fun _ p => p;
     OpenGLInit := fun W w => (W, w);
     ReleaseGraphicsResources := fun W w => (W, w) |}.

End vtkCocoaRenderWindow.

Import Geometry.

(** ** Tactics for componentwise reasoning *)

Ltac unfold_vec :=
  unfold along, sqdist, dot, cross, vopp, vzero, vscale, vsub,
    vadd, combo2, vtkMath.Dot, vtkMath.Distance2BetweenPoints
    in *;
  cbn [at0 at1 at2 get3 set3 fst2 snd2 get2] in *.

Ltac destruct_points :=
  repeat match goal with
         | p : double3 |- _ => destruct p
         | p : double2 |- _ => destruct p
         end.

(** Equality of two arrays, component by component. *)
Ltac vec_eq := destruct_points; unfold_vec; f_equal; try ring; try lra.

(** * Proofs *)

(** ** Arrays *)

Lemma double3_eq (p q : double3) :
  at0 p = at0 q -> at1 p = at1 q -> at2 p = at2 q -> p = q.
Proof. destruct p, q; cbn; intros; subst; reflexivity. Qed.

Lemma double3_components (p q : double3) :
  p = q -> at0 p = at0 q /\ at1 p = at1 q /\ at2 p = at2 q.
Proof. intros ->; repeat split. Qed.

Lemma double2_eq (p q : double2) :
  fst2 p = fst2 q -> snd2 p = snd2 q -> p = q.
Proof. destruct p, q; cbn; intros; subst; reflexivity. Qed.

(** ** Squares *)

Lemma square_nonneg (x : R) : 0 <= x * x.
Proof. nra. Qed.

Lemma sum_squares_nonneg (x y z : R) : 0 <= x * x + y * y + z * z.
Proof. nra. Qed.

Lemma sum_squares_zero (x y z : R) :
  x * x + y * y + z * z = 0 -> x = 0 /\ y = 0 /\ z = 0.
Proof. intros H; repeat split; nra. Qed.

(** ** Parallel vectors *)

(** Two vectors with a vanishing cross product are parallel: when the first
    is not zero the second is a multiple of it. *)
Lemma cross_zero_parallel (u v : double3) :
  cross u v = vzero -> u <> vzero -> exists k : R, v = vscale k u.
Proof.
  intros Hc Hu. apply double3_components in Hc.
  destruct u as [ux uy uz], v as [vx vy vz]. unfold_vec.
  destruct Hc as (H0 & H1 & H2).
  destruct (Req_dec_T ux 0) as [Ex | Nx].
  - destruct (Req_dec_T uy 0) as [Ey | Ny].
    + destruct (Req_dec_T uz 0) as [Ez | Nz].
      * subst. exfalso. apply Hu. reflexivity.
      * exists (vz / uz). subst ux uy. f_equal.
        -- assert (vx * uz = 0) by lra. nra.
        -- assert (vy * uz = 0) by lra. nra.
        -- field. exact Nz.
    + exists (vy / uy). subst ux. f_equal.
      * assert (vx * uy = 0) by lra. nra.
      * field. exact Ny.
      * apply Rmult_eq_reg_r with uy; [| exact Ny].
        replace (vy / uy * uz * uy) with (vy * uz) by (field; exact Ny). lra.
  - exists (vx / ux). f_equal.
    + field. exact Nx.
    + apply Rmult_eq_reg_r with ux; [| exact Nx].
      replace (vx / ux * uy * ux) with (vx * uy) by (field; exact Nx). lra.
    + apply Rmult_eq_reg_r with ux; [| exact Nx].
      replace (vx / ux * uz * ux) with (vx * uz) by (field; exact Nx). lra.
Qed.

(** ** The parametric centres *)

(** C10.  Whatever [pcoords] held before the call,
    [vtkTriangle::GetParametricCenter] leaves exactly (1/3, 1/3, 0) in it and
    returns 0 -- the third slot is 0 and not the third barycentric weight
    [1 - 1/3 - 1/3] -- and [vtkLine::GetParametricCenter] leaves exactly
    (0.5, 0, 0) and returns 0. *)
Theorem GetParametricCenter_overwrites :
  forall pcoords : double3,
    vtkTriangle.GetParametricCenter pcoords = (0%Z, D3 (1 / 3) (1 / 3) 0)
    /\ get3 (snd (vtkTriangle.GetParametricCenter pcoords)) 2
       <> 1 - 1 / 3 - 1 / 3
    /\ vtkLine.GetParametricCenter pcoords = (0%Z, D3 0.5 0 0).
Proof.
  intros [a b c]. split; [| split].
  - reflexivity.
  - unfold vtkTriangle.GetParametricCenter; cbn. lra.
  - reflexivity.
Qed.

(** ** Divisions *)

Lemma fdiv_defined (x y : R) : y <> 0 -> fdiv x y = Some (x / y).
Proof.
  intros Hy. unfold fdiv.
  destruct (Req_dec_T y 0); [contradiction | reflexivity].
Qed.

(** ** The projection onto a line *)

Import vtkLineSpec.

Lemma Distance2BetweenPoints_sqdist (p q : double3) :
  vtkMath.Distance2BetweenPoints p q = sqdist q p.
Proof. vec_eq. Qed.

Lemma sqdist_nonneg (p q : double3) : 0 <= sqdist p q.
Proof. destruct p, q. unfold_vec. apply sum_squares_nonneg. Qed.

Lemma sqdist_zero_iff (p q : double3) : sqdist p q = 0 <-> p = q.
Proof.
  split.
  - intros H. destruct p, q. unfold_vec.
    apply sum_squares_zero in H. f_equal; lra.
  - intros ->. destruct q. unfold_vec. ring.
Qed.

Lemma ProjectionDenominator_nonneg (p1 p2 : double3) :
  0 <= ProjectionDenominator p1 p2.
Proof.
  destruct p1, p2. unfold ProjectionDenominator. unfold_vec.
  apply sum_squares_nonneg.
Qed.

Lemma ProjectionDenominator_zero_iff (p1 p2 : double3) :
  ProjectionDenominator p1 p2 = 0 <-> p1 = p2.
Proof.
  split.
  - intros H. destruct p1, p2. unfold ProjectionDenominator in H. unfold_vec.
    apply sum_squares_zero in H. f_equal; lra.
  - intros ->. destruct p2. unfold ProjectionDenominator. unfold_vec. ring.
Qed.

(** The squared distance from [x] to the point of parameter [s] is a
    quadratic polynomial in [s] whose coefficients are the numerator and the
    denominator of the projection. *)
Lemma sqdist_along (x p1 p2 : double3) (s : R) :
  sqdist x (along p1 p2 s)
  = sqdist x p1 - 2 * s * ProjectionNumerator x p1 p2
    + s * s * ProjectionDenominator p1 p2.
Proof.
  destruct x, p1, p2.
  unfold ProjectionNumerator, ProjectionDenominator. unfold_vec. ring.
Qed.

Lemma Projection_degenerate (x p : double3) : Projection x p p = 0.
Proof.
  unfold Projection.
  destruct (Req_dec_T (ProjectionDenominator p p) 0) as [_ | N];
    [reflexivity |].
  exfalso. apply N. apply ProjectionDenominator_zero_iff. reflexivity.
Qed.

Lemma Projection_quotient (x p1 p2 : double3) :
  p1 <> p2 ->
  Projection x p1 p2
  = ProjectionNumerator x p1 p2 / ProjectionDenominator p1 p2.
Proof.
  intros H. unfold Projection.
  destruct (Req_dec_T (ProjectionDenominator p1 p2) 0) as [E | _];
    [| reflexivity].
  exfalso. apply H. apply ProjectionDenominator_zero_iff. exact E.
Qed.

(** The normal equation of the projection; it also holds in the degenerate
    case, where both sides are 0. *)
Lemma Projection_normal_equation (x p1 p2 : double3) :
  Projection x p1 p2 * ProjectionDenominator p1 p2
  = ProjectionNumerator x p1 p2.
Proof.
  unfold Projection.
  destruct (Req_dec_T (ProjectionDenominator p1 p2) 0) as [E | N].
  - apply ProjectionDenominator_zero_iff in E. subst p2.
    destruct x, p1. unfold ProjectionNumerator. unfold_vec. ring.
  - field. exact N.
Qed.

Lemma Projection_along (p1 p2 : double3) (r : R) :
  p1 <> p2 -> Projection (along p1 p2 r) p1 p2 = r.
Proof.
  intros H. rewrite (Projection_quotient _ _ _ H).
  assert (N : ProjectionDenominator p1 p2 <> 0).
  { intros E. apply H. apply ProjectionDenominator_zero_iff. exact E. }
  assert (E : ProjectionNumerator (along p1 p2 r) p1 p2
              = r * ProjectionDenominator p1 p2).
  { destruct p1, p2. unfold ProjectionNumerator, ProjectionDenominator.
    unfold_vec. ring. }
  rewrite E. field. exact N.
Qed.

Lemma Clamp01_range (t : R) : 0 <= Clamp01 t <= 1.
Proof.
  unfold Clamp01. destruct (Rlt_dec t 0); [lra |].
  destruct (Rlt_dec 1 t); lra.
Qed.

Lemma Clamp01_id (t : R) : 0 <= t <= 1 -> Clamp01 t = t.
Proof.
  intros H. unfold Clamp01. destruct (Rlt_dec t 0); [lra |].
  destruct (Rlt_dec 1 t); [lra | reflexivity].
Qed.

Lemma InUnitInterval_true (t : R) : InUnitInterval t = true <-> 0 <= t <= 1.
Proof.
  unfold InUnitInterval.
  destruct (Rlt_dec t 0); [split; [discriminate | lra] |].
  destruct (Rlt_dec 1 t); [split; [discriminate | lra] |].
  split; [lra | reflexivity].
Qed.

Lemma InUnitInterval_false (t : R) :
  InUnitInterval t = false <-> (t < 0 \/ 1 < t).
Proof.
  unfold InUnitInterval.
  destruct (Rlt_dec t 0); [split; [tauto | reflexivity] |].
  destruct (Rlt_dec 1 t); [split; [tauto | reflexivity] |].
  split; [discriminate | lra].
Qed.

(** A convex parabola restricted to [[0,1]] is least at the clamped vertex. *)
Lemma clamped_vertex_minimises (den tv s : R) :
  0 <= den -> 0 <= s <= 1 ->
  - 2 * Clamp01 tv * (tv * den) + Clamp01 tv * Clamp01 tv * den
  <= - 2 * s * (tv * den) + s * s * den.
Proof.
  intros Hden Hs. unfold Clamp01.
  destruct (Rlt_dec tv 0) as [Neg | NotNeg].
  - assert (0 <= den * (s * (s - 2 * tv))).
    { apply Rmult_le_pos; [exact Hden | apply Rmult_le_pos; lra]. }
    lra.
  - destruct (Rlt_dec 1 tv) as [Big | Small].
    + assert (0 <= den * ((1 - s) * (2 * tv - s - 1))).
      { apply Rmult_le_pos; [exact Hden | apply Rmult_le_pos; lra]. }
      lra.
    + assert (0 <= den * ((s - tv) * (s - tv))).
      { apply Rmult_le_pos; [exact Hden | apply square_nonneg]. }
      lra.
Qed.

(** The unclamped vertex is least over the whole line. *)
Lemma vertex_minimises (den tv s : R) :
  0 <= den ->
  - 2 * tv * (tv * den) + tv * tv * den
  <= - 2 * s * (tv * den) + s * s * den.
Proof.
  intros Hden.
  assert (0 <= den * ((s - tv) * (s - tv))).
  { apply Rmult_le_pos; [exact Hden | apply square_nonneg]. }
  lra.
Qed.

Lemma sqdist_clamped_least (x p1 p2 : double3) (s : R) :
  0 <= s <= 1 ->
  sqdist x (along p1 p2 (Clamp01 (Projection x p1 p2)))
  <= sqdist x (along p1 p2 s).
Proof.
  intros Hs. rewrite !sqdist_along.
  rewrite <- (Projection_normal_equation x p1 p2).
  pose proof (clamped_vertex_minimises (ProjectionDenominator p1 p2)
                (Projection x p1 p2) s
                (ProjectionDenominator_nonneg p1 p2) Hs).
  lra.
Qed.

Lemma sqdist_projection_least (x p1 p2 : double3) (s : R) :
  sqdist x (along p1 p2 (Projection x p1 p2)) <= sqdist x (along p1 p2 s).
Proof.
  rewrite !sqdist_along.
  rewrite <- (Projection_normal_equation x p1 p2).
  pose proof (vertex_minimises (ProjectionDenominator p1 p2)
                (Projection x p1 p2) s
                (ProjectionDenominator_nonneg p1 p2)).
  lra.
Qed.

Lemma along_degenerate (p : double3) (s : R) : along p p s = p.
Proof. destruct p. unfold_vec. f_equal; ring. Qed.



(** ** DistanceToLine *)



(** ** Barycentric coordinates *)

Import vtkTriangleSpec.

Lemma BarycentricCoords_failure
    (tol : R) (x x1 x2 x3 : double2) (b : double3) :
  Rabs (EdgeDeterminant x1 x2 x3) < tol ->
  BarycentricCoords tol x x1 x2 x3 b = (0%Z, b).
Proof.
  intros H. unfold BarycentricCoords, EdgeDeterminant in *. cbn [get2] in *.
  destruct (Rlt_dec _ tol); [reflexivity | contradiction].
Qed.

Lemma BarycentricCoords_success
    (tol : R) (x x1 x2 x3 : double2) (b : double3) :
  ~ Rabs (EdgeDeterminant x1 x2 x3) < tol ->
  BarycentricCoords tol x x1 x2 x3 b
  = (1%Z,
     let det := EdgeDeterminant x1 x2 x3 in
     let b0 := ((fst2 x - fst2 x3) * (snd2 x2 - snd2 x3)
                - (snd2 x - snd2 x3) * (fst2 x2 - fst2 x3)) / det in
     let b1 := ((fst2 x1 - fst2 x3) * (snd2 x - snd2 x3)
                - (snd2 x1 - snd2 x3) * (fst2 x - fst2 x3)) / det in
     D3 b0 b1 (1 - b0 - b1)).
Proof.
  intros H. unfold BarycentricCoords, EdgeDeterminant in *. cbn [get2] in *.
  destruct (Rlt_dec _ tol); [contradiction |].
  destruct b; reflexivity.
Qed.

Lemma BarycentricCoords_code (tol : R) (x x1 x2 x3 : double2) (b : double3) :
  (fst (BarycentricCoords tol x x1 x2 x3 b) = 0%Z
   /\ Rabs (EdgeDeterminant x1 x2 x3) < tol)
  \/ (fst (BarycentricCoords tol x x1 x2 x3 b) = 1%Z
      /\ ~ Rabs (EdgeDeterminant x1 x2 x3) < tol).
Proof.
  destruct (Rlt_dec (Rabs (EdgeDeterminant x1 x2 x3)) tol) as [L | N].
  - left. rewrite (BarycentricCoords_failure _ _ _ _ _ _ L).
    split; [reflexivity | exact L].
  - right. rewrite (BarycentricCoords_success _ _ _ _ _ _ N).
    split; [reflexivity | exact N].
Qed.

(** The weights of a successful call under a positive tolerance. *)
Section Barycentric.

Variable tol : R.
Hypothesis tol_positive : 0 < tol.
Variables x x1 x2 x3 : double2.
Variable bcoords : double3.
Hypothesis success : fst (BarycentricCoords tol x x1 x2 x3 bcoords) = 1%Z.

Lemma success_determinant : EdgeDeterminant x1 x2 x3 <> 0.
Proof.
  destruct (BarycentricCoords_code tol x x1 x2 x3 bcoords) as [[E _] | [_ N]].
  - rewrite success in E. discriminate.
  - intros Z. apply N. rewrite Z, Rabs_R0. exact tol_positive.
Qed.

Lemma success_not_below : ~ Rabs (EdgeDeterminant x1 x2 x3) < tol.
Proof.
  destruct (BarycentricCoords_code tol x x1 x2 x3 bcoords) as [[E _] | [_ N]].
  - rewrite success in E. discriminate.
  - exact N.
Qed.

(** Any weights that add up to 1 and combine the vertices into [x] are the
    ones returned. *)
Lemma BarycentricCoords_unique (w0 w1 w2 : R) :
  w0 + w1 + w2 = 1 ->
  x = combo2 w0 w1 w2 x1 x2 x3 ->
  snd (BarycentricCoords tol x x1 x2 x3 bcoords) = D3 w0 w1 w2.
Proof.
  intros Hsum Hx.
  rewrite (BarycentricCoords_success _ _ _ _ _ _ success_not_below).
  pose proof success_determinant as Hdet.
  cbn [snd]. cbv zeta.
  assert (W2 : w2 = 1 - w0 - w1) by lra. subst w2. clear Hsum.
  destruct x1 as [a1 b1], x2 as [a2 b2], x3 as [a3 b3].
  subst x. unfold EdgeDeterminant, combo2 in *. cbn [get2 fst2 snd2] in *.
  assert (E0 : ((w0 * a1 + w1 * a2 + (1 - w0 - w1) * a3 - a3) * (b2 - b3)
                - (w0 * b1 + w1 * b2 + (1 - w0 - w1) * b3 - b3) * (a2 - a3))
               / ((a1 - a3) * (b2 - b3) - (b1 - b3) * (a2 - a3)) = w0)
    by (field; exact Hdet).
  assert (E1 : ((a1 - a3) * (w0 * b1 + w1 * b2 + (1 - w0 - w1) * b3 - b3)
                - (b1 - b3) * (w0 * a1 + w1 * a2 + (1 - w0 - w1) * a3 - a3))
               / ((a1 - a3) * (b2 - b3) - (b1 - b3) * (a2 - a3)) = w1)
    by (field; exact Hdet).
  rewrite E0, E1. reflexivity.
Qed.

(** The returned weights combine the vertices into [x]. *)
Lemma BarycentricCoords_reconstructs :
  let b := snd (BarycentricCoords tol x x1 x2 x3 bcoords) in
  at0 b + at1 b + at2 b = 1
  /\ x = combo2 (at0 b) (at1 b) (at2 b) x1 x2 x3.
Proof.
  rewrite (BarycentricCoords_success _ _ _ _ _ _ success_not_below).
  pose proof success_determinant as Hdet.
  cbn [snd]. cbv zeta. cbn [at0 at1 at2].
  split; [ring |].
  destruct x as [a b], x1 as [a1 b1], x2 as [a2 b2], x3 as [a3 b3].
  unfold EdgeDeterminant, combo2 in *. cbn [get2 fst2 snd2] in *.
  f_equal; field; exact Hdet.
Qed.

Lemma BarycentricCoords_closed :
  let b := snd (BarycentricCoords tol x x1 x2 x3 bcoords) in
  (0 <= at0 b <= 1 /\ 0 <= at1 b <= 1 /\ 0 <= at2 b <= 1)
  <-> in_closed_triangle x x1 x2 x3.
Proof.
  intros b. split.
  - intros (H0 & H1 & H2).
    destruct BarycentricCoords_reconstructs as [Hs Hx]. fold b in Hs, Hx.
    exists (at0 b), (at1 b), (at2 b). repeat split; try tauto; lra.
  - intros (w0 & w1 & w2 & P0 & P1 & P2 & Hs & Hx).
    unfold b. rewrite (BarycentricCoords_unique w0 w1 w2 Hs Hx).
    cbn [at0 at1 at2]. lra.
Qed.

Lemma BarycentricCoords_open :
  let b := snd (BarycentricCoords tol x x1 x2 x3 bcoords) in
  (0 < at0 b /\ 0 < at1 b /\ 0 < at2 b) <-> in_open_triangle x x1 x2 x3.
Proof.
  intros b. split.
  - intros (H0 & H1 & H2).
    destruct BarycentricCoords_reconstructs as [Hs Hx]. fold b in Hs, Hx.
    exists (at0 b), (at1 b), (at2 b). repeat split; try tauto; lra.
  - intros (w0 & w1 & w2 & P0 & P1 & P2 & Hs & Hx).
    unfold b. rewrite (BarycentricCoords_unique w0 w1 w2 Hs Hx).
    cbn [at0 at1 at2]. lra.
Qed.

End Barycentric.


Lemma unit_triangle_success (x : double2) :
  fst (BarycentricCoords (1 / 1000000) x (D2 0 0) (D2 1 0) (D2 0 1) (D3 0 0 0))
  = 1%Z.
Proof.
  destruct (BarycentricCoords_code (1 / 1000000) x
              (D2 0 0) (D2 1 0) (D2 0 1) (D3 0 0 0)) as [[_ L] | [E _]];
    [| exact E].
  exfalso. unfold EdgeDeterminant in L. cbn [get2 fst2 snd2] in L.
  replace ((0 - 0) * (0 - 1) - (0 - 1) * (1 - 0)) with 1 in L by ring.
  rewrite Rabs_R1 in L. lra.
Qed.


(** ** Two lines *)

Import SegmentPair.

Lemma sqdist_sym (p q : double3) : sqdist p q = sqdist q p.
Proof. destruct p, q. unfold_vec. ring. Qed.

Lemma along_zero (p1 p2 : double3) : along p1 p2 0 = p1.
Proof. destruct p1, p2. unfold_vec. f_equal; ring. Qed.

(** Lagrange's identity: the determinant of the system is the squared
    magnitude of the cross product of the two directions. *)
Lemma Determinant_cross (l0 l1 m0 m1 : double3) :
  Determinant l0 l1 m0 m1
  = dot (cross (vsub l1 l0) (vsub m1 m0)) (cross (vsub l1 l0) (vsub m1 m0)).
Proof.
  destruct l0, l1, m0, m1.
  unfold Determinant, coef_a, coef_b, coef_c. unfold_vec. ring.
Qed.

Lemma Determinant_nonneg (l0 l1 m0 m1 : double3) :
  0 <= Determinant l0 l1 m0 m1.
Proof.
  rewrite Determinant_cross.
  destruct (cross (vsub l1 l0) (vsub m1 m0)). unfold_vec.
  apply sum_squares_nonneg.
Qed.

Lemma Determinant_zero_iff_parallel (l0 l1 m0 m1 : double3) :
  Determinant l0 l1 m0 m1 = 0 <-> parallel l0 l1 m0 m1.
Proof.
  rewrite Determinant_cross. unfold parallel.
  destruct (cross (vsub l1 l0) (vsub m1 m0)) as [cx cy cz].
  unfold dot, vzero. cbn [at0 at1 at2]. split.
  - intros H. apply sum_squares_zero in H. f_equal; tauto.
  - intros H. apply double3_components in H. cbn [at0 at1 at2] in H.
    destruct H as (-> & -> & ->). ring.
Qed.

Lemma coef_product_nonneg (l0 l1 m0 m1 : double3) :
  0 <= coef_a l0 l1 * coef_c m0 m1.
Proof.
  apply Rmult_le_pos.
  - apply (ProjectionDenominator_nonneg l0 l1).
  - apply (ProjectionDenominator_nonneg m0 m1).
Qed.

Lemma Singular_true (tol : R) (l0 l1 m0 m1 : double3) :
  Singular tol l0 l1 m0 m1 = true
  <-> Rabs (Determinant l0 l1 m0 m1) <= tol * (coef_a l0 l1 * coef_c m0 m1).
Proof.
  unfold Singular. destruct (Rle_dec _ _) as [L | N].
  - split; [intros _; exact L | reflexivity].
  - split; [discriminate | intros L; contradiction].
Qed.

Lemma Singular_false (tol : R) (l0 l1 m0 m1 : double3) :
  Singular tol l0 l1 m0 m1 = false
  <-> tol * (coef_a l0 l1 * coef_c m0 m1) < Rabs (Determinant l0 l1 m0 m1).
Proof.
  unfold Singular. destruct (Rle_dec _ _) as [L | N].
  - split; [discriminate | intros H; lra].
  - split; [intros _; lra | reflexivity].
Qed.

Lemma Singular_false_determinant (tol : R) (l0 l1 m0 m1 : double3) :
  0 <= tol -> Singular tol l0 l1 m0 m1 = false ->
  Determinant l0 l1 m0 m1 <> 0.
Proof.
  intros Htol H Z. apply Singular_false in H. rewrite Z, Rabs_R0 in H.
  pose proof (coef_product_nonneg l0 l1 m0 m1) as P.
  pose proof (Rmult_le_pos _ _ Htol P). lra.
Qed.

Lemma DistanceBetweenLines_solve_defined (l0 l1 m0 m1 : double3) :
  Determinant l0 l1 m0 m1 <> 0 ->
  DistanceBetweenLines_solve l0 l1 m0 m1
  = let t1 := (coef_b l0 l1 m0 m1 * coef_e l0 m0 m1
               - coef_c m0 m1 * coef_d l0 l1 m0)
              / Determinant l0 l1 m0 m1 in
    let t2 := (coef_a l0 l1 * coef_e l0 m0 m1
               - coef_b l0 l1 m0 m1 * coef_d l0 l1 m0)
              / Determinant l0 l1 m0 m1 in
    Some {| cl_dist2 :=
              vtkMath.Distance2BetweenPoints (along l0 l1 t1) (along m0 m1 t2);
            cl_closestPt1 := along l0 l1 t1;
            cl_closestPt2 := along m0 m1 t2;
            cl_t1 := t1;
            cl_t2 := t2 |}.
Proof.
  intros H. unfold DistanceBetweenLines_solve.
  rewrite !(fdiv_defined _ _ H). reflexivity.
Qed.

(** C5.  Under a non-negative tolerance [DistanceBetweenLines] always
    returns: no division by a zero determinant takes place.  When the
    determinant is within the relative tolerance -- in particular when the
    directions are parallel or a segment has length zero -- the result is
    the fallback: the endpoint [l0] (parameter 0) against the line through
    [m0] and [m1], with the parameter and the distance of [DistanceToLine].
    Whenever the result comes from the division branch, the determinant is
    above the tolerance and is not zero, and the parameters are the two
    quotients by it. *)
Theorem DistanceBetweenLines_singular_fallback :
  forall (tol : R) (l0 l1 m0 m1 : double3),
    0 <= tol ->
    (exists br, DistanceBetweenLines tol l0 l1 m0 m1 = Some br)
    /\ (Rabs (Determinant l0 l1 m0 m1) <= tol * (coef_a l0 l1 * coef_c m0 m1) ->
        DistanceBetweenLines tol l0 l1 m0 m1
        = Some (ParallelFallback,
                {| cl_dist2 := DistanceToLine_infinite l0 m0 m1;
                   cl_closestPt1 := l0;
                   cl_closestPt2 :=
                     along m0 m1 (snd (fst (DistanceToLine l0 m0 m1)));
                   cl_t1 := 0;
                   cl_t2 := snd (fst (DistanceToLine l0 m0 m1)) |}))
    /\ (parallel l0 l1 m0 m1 ->
        exists r : Closest,
          DistanceBetweenLines tol l0 l1 m0 m1 = Some (ParallelFallback, r))
    /\ (forall r : Closest,
          DistanceBetweenLines tol l0 l1 m0 m1 = Some (Solved, r) ->
          tol * (coef_a l0 l1 * coef_c m0 m1) < Rabs (Determinant l0 l1 m0 m1)
          /\ Determinant l0 l1 m0 m1 <> 0
          /\ cl_t1 r = (coef_b l0 l1 m0 m1 * coef_e l0 m0 m1
                        - coef_c m0 m1 * coef_d l0 l1 m0)
                       / Determinant l0 l1 m0 m1
          /\ cl_t2 r = (coef_a l0 l1 * coef_e l0 m0 m1
                        - coef_b l0 l1 m0 m1 * coef_d l0 l1 m0)
                       / Determinant l0 l1 m0 m1).
Proof.
  intros tol l0 l1 m0 m1 Htol.
  assert (Fallback :
    Rabs (Determinant l0 l1 m0 m1) <= tol * (coef_a l0 l1 * coef_c m0 m1) ->
    DistanceBetweenLines tol l0 l1 m0 m1
    = Some (ParallelFallback,
            {| cl_dist2 := DistanceToLine_infinite l0 m0 m1;
               cl_closestPt1 := l0;
               cl_closestPt2 :=
                 along m0 m1 (snd (fst (DistanceToLine l0 m0 m1)));
               cl_t1 := 0;
               cl_t2 := snd (fst (DistanceToLine l0 m0 m1)) |})).
  { intros L. apply Singular_true in L. unfold DistanceBetweenLines.
    rewrite L. reflexivity. }
  split; [| split; [exact Fallback | split]].
  - destruct (Singular tol l0 l1 m0 m1) eqn:S.
    + apply Singular_true in S. rewrite (Fallback S). eexists. reflexivity.
    + pose proof (Singular_false_determinant _ _ _ _ _ Htol S) as D.
      unfold DistanceBetweenLines. rewrite S.
      rewrite (DistanceBetweenLines_solve_defined _ _ _ _ D).
      eexists. reflexivity.
  - intros P. apply Determinant_zero_iff_parallel in P.
    eexists. apply Fallback. rewrite P, Rabs_R0.
    apply Rmult_le_pos; [exact Htol | apply coef_product_nonneg].
  - intros r Hr. unfold DistanceBetweenLines in Hr.
    destruct (Singular tol l0 l1 m0 m1) eqn:S; [discriminate |].
    pose proof (Singular_false_determinant _ _ _ _ _ Htol S) as D.
    rewrite (DistanceBetweenLines_solve_defined _ _ _ _ D) in Hr.
    cbv zeta in Hr. cbn [bind] in Hr. injection Hr as <-.
    cbn [cl_t1 cl_t2].
    split; [apply Singular_false; exact S |].
    split; [exact D |]. split; reflexivity.
Qed.

(** C5 on two parallel lines (the x axis and its translate by one unit of
    y) with tolerance one millionth: the call goes to the fallback. *)
Lemma DistanceBetweenLines_singular_fallback_witness :
  exists r : Closest,
    DistanceBetweenLines (1 / 1000000)
      (D3 0 0 0) (D3 1 0 0) (D3 0 1 0) (D3 1 1 0)
    = Some (ParallelFallback, r).
Proof.
  assert (Tol : 0 <= 1 / 1000000) by lra.
  apply (DistanceBetweenLines_singular_fallback (1 / 1000000)
           (D3 0 0 0) (D3 1 0 0) (D3 0 1 0) (D3 1 1 0) Tol).
  unfold parallel. unfold_vec. f_equal; ring.
Defined.

(** ** The components of [DistanceToLine] *)

Lemma DistanceToLine_components (x p1 p2 : double3) :
  DistanceToLine x p1 p2
  = (sqdist x (along p1 p2 (Clamp01 (Projection x p1 p2))),
     Projection x p1 p2,
     along p1 p2 (Clamp01 (Projection x p1 p2))).
Proof.
  unfold DistanceToLine. rewrite Distance2BetweenPoints_sqdist. reflexivity.
Qed.

(** ** The specification's scenarios, run on the model *)

(** "unit segment p1=(0,0,0), p2=(1,0,0); EvaluatePosition(x=(0.5,1,0)) ->
    closest point (0.5,0,0), t=0.5, dist2=1.0". *)
Example scenario_EvaluatePosition_unit_segment :
  EvaluatePosition (D3 0.5 1 0) (D3 0 0 0) (D3 1 0 0)
  = {| ev_closestPoint := D3 0.5 0 0;
       ev_t := 0.5;
       ev_dist2 := 1;
       ev_class := OnSegment |}.
Proof.
  assert (N : D3 0 0 0 <> D3 1 0 0).
  { intros E. apply double3_components in E. cbn in E. lra. }
  assert (T : Projection (D3 0.5 1 0) (D3 0 0 0) (D3 1 0 0) = 0.5).
  { rewrite (Projection_quotient _ _ _ N).
    unfold ProjectionNumerator, ProjectionDenominator. unfold_vec. lra. }
  unfold EvaluatePosition. rewrite DistanceToLine_components, T.
  rewrite (Clamp01_id 0.5) by lra.
  rewrite (proj2 (InUnitInterval_true 0.5)) by lra.
  f_equal.
  - unfold_vec. f_equal; lra.
  - unfold_vec. lra.
Qed.

(** * The inline arithmetic of [vtkTriangle.h] in doubles *)

Section Binary64_facts.

Import Stdlib.QArith.QArith Stdlib.QArith.Qpower Stdlib.micromega.Lqa.
Import Stdlib.Bool.Bool.
Import PrimFloat FloatOps SpecFloat FloatAxioms.
Import Binary64.
Local Open Scope float_scope.

(** ** Zeros *)

Lemma Prim2SF_zero (x : float) (s : bool) :
  Prim2SF x = S754_zero s -> x = 0 \/ x = -0.
Proof.
  intros H. rewrite <- (SF2Prim_Prim2SF x), H.
  destruct s; [right | left]; reflexivity.
Qed.

Lemma double_eqb_zero (x : float) :
  (x =? 0) = true <-> x = 0 \/ x = -0.
Proof.
  split.
  - rewrite eqb_spec. change (Prim2SF 0) with (S754_zero false).
    destruct (Prim2SF x) as [s | s | | s m e] eqn:E; cbn.
    + intros _. exact (Prim2SF_zero x s E).
    + destruct s; discriminate.
    + discriminate.
    + destruct s; discriminate.
  - intros [-> | ->]; reflexivity.
Qed.

Lemma Qpower2_pos (e : Z) : (0 < 2 ^ e)%Q.
Proof. apply Qpower_0_lt. reflexivity. Qed.

Lemma finite_value_zero (x : float) :
  finite x = true -> (value x == 0)%Q -> (x =? 0) = true.
Proof.
  unfold finite, value. intros F V. apply double_eqb_zero.
  destruct (Prim2SF x) as [s | s | | s m e] eqn:E; try discriminate F.
  - exact (Prim2SF_zero x s E).
  - exfalso. pose proof (Qpower2_pos e) as P.
    assert (M : (0 < inject_Z (Zpos m))%Q) by reflexivity.
    assert (N : (0 < inject_Z (Zpos m) * 2 ^ e)%Q).
    { apply Qmult_lt_0_compat; assumption. }
    revert V N. generalize (2 ^ e)%Q (inject_Z (Z.pos m)). intros p q V N.
    destruct s; lra.
Qed.

Lemma is_zero_value (x : float) :
  (x =? 0) = true -> finite x = true /\ (value x == 0)%Q.
Proof.
  intros H. apply double_eqb_zero in H. destruct H as [-> | ->]; split; reflexivity.
Qed.

(** ** A finite double is determined by its value

    Two mantissas in canonical position with the same value have the same
    exponent, hence are the same: the number of binary digits of the
    mantissa fixes the exponent. *)

Lemma digits2_pos_size (m : positive) : digits2_pos m = Pos.size m.
Proof. induction m; cbn; congruence. Qed.

Lemma digits2_pos_log2 (m : positive) :
  Zpos (digits2_pos m) = (Z.log2 (Zpos m) + 1)%Z.
Proof.
  destruct m; cbn [digits2_pos Z.log2]; rewrite ?digits2_pos_size;
    try reflexivity; rewrite Pos2Z.inj_succ; lia.
Qed.

Lemma scaled_mantissa (m m' : positive) (e e' : Z) :
  (e <= e')%Z ->
  (inject_Z (Zpos m) * 2 ^ e == inject_Z (Zpos m') * 2 ^ e')%Q ->
  Zpos m = (Zpos m' * 2 ^ (e' - e))%Z.
Proof.
  intros L H.
  assert (T : ~ (2 == 0)%Q) by discriminate.
  replace e' with (e + (e' - e))%Z in H at 1 by lia.
  rewrite (Qpower_plus 2 e (e' - e) T) in H.
  rewrite <- (Zpower_Qpower 2 (e' - e)) in H by lia.
  pose proof (Qpower2_pos e) as P.
  apply inject_Z_injective. rewrite inject_Z_mult.
  revert H P.
  generalize (2 ^ e)%Q (inject_Z (Z.pos m)) (inject_Z (Z.pos m'))
    (inject_Z (2 ^ (e' - e))).
  intros p a b c H P.
  apply (Qmult_inj_r _ _ p); [lra |]. rewrite H. ring.
Qed.

Lemma canonical_le (m m' : positive) (e e' : Z) :
  bounded prec emax m e = true ->
  bounded prec emax m' e' = true ->
  (e <= e')%Z ->
  (inject_Z (Zpos m) * 2 ^ e == inject_Z (Zpos m') * 2 ^ e')%Q ->
  m = m' /\ e = e'.
Proof.
  intros B B' L H.
  pose proof (scaled_mantissa m m' e e' L H) as S.
  unfold bounded, canonical_mantissa in B, B'.
  apply andb_true_iff in B, B'. destruct B as [B _], B' as [B' _].
  apply Z.eqb_eq in B, B'.
  rewrite digits2_pos_log2 in B, B'.
  rewrite S in B. rewrite Z.log2_mul_pow2 in B by lia.
  assert (E : e = e').
  { unfold fexp in B, B'. lia. }
  subst e'. split; [| reflexivity].
  rewrite Z.sub_diag in S. cbn in S. injection S as S. lia.
Qed.

Lemma canonical_unique (m m' : positive) (e e' : Z) :
  bounded prec emax m e = true ->
  bounded prec emax m' e' = true ->
  (inject_Z (Zpos m) * 2 ^ e == inject_Z (Zpos m') * 2 ^ e')%Q ->
  m = m' /\ e = e'.
Proof.
  intros B B' H. destruct (Z.le_ge_cases e e') as [L | L].
  - apply canonical_le; assumption.
  - symmetry in H. destruct (canonical_le m' m e' e B' B L H).
    split; congruence.
Qed.

(** Two doubles that stand for the same number are the same double, or are
    the two zeros. *)
Lemma same_value (x y : float) :
  finite x = true -> finite y = true -> (value x == value y)%Q ->
  x = y \/ ((x =? 0) = true /\ (y =? 0) = true).
Proof.
  intros Fx Fy V.
  destruct (x =? 0) eqn:Zx.
  - right. split; [reflexivity |]. apply finite_value_zero; [exact Fy |].
    rewrite <- V. apply is_zero_value. exact Zx.
  - destruct (y =? 0) eqn:Zy.
    + exfalso. rewrite (finite_value_zero x Fx) in Zx; [discriminate |].
      rewrite V. apply is_zero_value. exact Zy.
    + left. apply Prim2SF_inj.
      pose proof (Prim2SF_valid x) as Vx. pose proof (Prim2SF_valid y) as Vy.
      unfold finite, value in *. rewrite eqb_spec in Zx, Zy.
      change (Prim2SF 0) with (S754_zero false) in Zx, Zy.
      destruct (Prim2SF x) as [s | s | | s m e]; try discriminate.
      destruct (Prim2SF y) as [s' | s' | | s' m' e']; try discriminate.
      cbn [valid_binary] in Vx, Vy.
      pose proof (Qpower2_pos e) as P. pose proof (Qpower2_pos e') as P'.
      assert (M : (0 < inject_Z (Zpos m) * 2 ^ e)%Q)
        by (apply Qmult_lt_0_compat; [reflexivity | assumption]).
      assert (M' : (0 < inject_Z (Zpos m') * 2 ^ e')%Q)
        by (apply Qmult_lt_0_compat; [reflexivity | assumption]).
      assert (S : s = s' /\
                  (inject_Z (Zpos m) * 2 ^ e
                   == inject_Z (Zpos m') * 2 ^ e')%Q).
      { revert V M M'.
        generalize (2 ^ e)%Q (2 ^ e')%Q (inject_Z (Z.pos m))
          (inject_Z (Z.pos m')).
        intros p p' a a' V M M'.
        destruct s, s'; split; try reflexivity; lra. }
      destruct S as [-> S].
      destruct (canonical_unique m m' e e' Vx Vy S) as [-> ->].
      reflexivity.
Qed.

(** ** Symmetries of the operations

    Rounding to nearest, ties to even, does not look at the sign: the
    product commutes, and exchanging the operands of a difference gives
    the opposite double, or [+0.0] both ways when the operands are equal. *)

Lemma double_mul_comm (x y : float) : x * y = y * x.
Proof.
  apply Prim2SF_inj. rewrite !mul_spec. unfold SF64mul, SFmul.
  destruct (Prim2SF x) as [s | s | | s m e],
    (Prim2SF y) as [s' | s' | | s' m' e'];
    rewrite ?(xorb_comm s s'); try reflexivity.
  rewrite (Pos.mul_comm m m'), (Z.add_comm e e'). reflexivity.
Qed.

Lemma binary_round_aux_negb (s : bool) (m e : Z) (l : location) :
  binary_round_aux prec emax (negb s) m e l
  = SFopp (binary_round_aux prec emax s m e l).
Proof.
  unfold binary_round_aux.
  destruct (shr_fexp prec emax m e l) as [mrs e1].
  destruct (shr_fexp prec emax _ e1 loc_Exact) as [mrs' e2].
  destruct (shr_m mrs'); [reflexivity | | reflexivity].
  destruct (Z.leb e2 (emax - prec)); reflexivity.
Qed.

Lemma binary_normalize_opp (z e : Z) :
  z <> 0%Z ->
  binary_normalize prec emax (- z) e false
  = SFopp (binary_normalize prec emax z e false).
Proof.
  intros N. destruct z as [| p | p]; [contradiction | |];
    cbn [Z.opp binary_normalize]; unfold binary_round;
    destruct (shl_align p e _) as [mz ez].
  - exact (binary_round_aux_negb false (Zpos mz) ez loc_Exact).
  - exact (binary_round_aux_negb true (Zpos mz) ez loc_Exact).
Qed.

Lemma SFsub_swap (X Y : spec_float) :
  SF64sub Y X = SFopp (SF64sub X Y)
  \/ (exists s s', SF64sub X Y = S754_zero s /\ SF64sub Y X = S754_zero s').
Proof.
  unfold SF64sub, SFsub.
  destruct X as [s | s | | s m e], Y as [s' | s' | | s' m' e'];
    try (left; reflexivity);
    try (left; destruct s; try destruct s'; reflexivity);
    try (left; destruct s'; reflexivity);
    try (right; destruct s, s'; eexists _, _; split; reflexivity).
  cbv zeta. rewrite (Z.min_comm e' e).
  set (ez := Z.min e e').
  set (a := cond_Zopp s (Z.pos (fst (shl_align m e ez)))).
  set (b := cond_Zopp s' (Z.pos (fst (shl_align m' e' ez)))).
  destruct (Z.eq_dec (a - b) 0) as [E | N].
  - right. exists false, false. rewrite E.
    replace (b - a)%Z with 0%Z by lia. split; reflexivity.
  - left. replace (b - a)%Z with (- (a - b))%Z by lia.
    apply binary_normalize_opp. exact N.
Qed.

Lemma double_sub_swap (x y : float) : opposite (x - y) (y - x).
Proof.
  destruct (SFsub_swap (Prim2SF x) (Prim2SF y)) as [H | (s & s' & H & H')].
  - left. apply Prim2SF_inj. rewrite opp_spec, !sub_spec. exact H.
  - right. rewrite <- sub_spec in H, H'. unfold is_zero.
    split; apply double_eqb_zero; eapply Prim2SF_zero; eassumption.
Qed.

Lemma square_opp (x : float) : (- x) * (- x) = x * x.
Proof.
  apply Prim2SF_inj. rewrite !mul_spec, opp_spec.
  destruct (Prim2SF x) as [[] | [] | | [] m e]; reflexivity.
Qed.

Lemma square_zero (x : float) : is_zero x = true -> x * x = 0.
Proof. intros H. apply double_eqb_zero in H. destruct H as [-> | ->]; reflexivity. Qed.

Lemma opposite_square (x y : float) : opposite x y -> y * y = x * x.
Proof.
  intros [-> | [Zx Zy]]; [apply square_opp |].
  rewrite (square_zero x Zx), (square_zero y Zy). reflexivity.
Qed.

Lemma same_value_square (x y : float) :
  finite x = true -> finite y = true -> (value x == value y)%Q ->
  x * x = y * y.
Proof.
  intros Fx Fy V. destruct (same_value x y Fx Fy V) as [-> | [Zx Zy]];
    [reflexivity |].
  rewrite (square_zero x Zx), (square_zero y Zy). reflexivity.
Qed.

(** ** Operations that do not round *)

Import vtkTriangle.

Lemma exact_spec (op : float -> float -> float) (opQ : Q -> Q -> Q)
    (x y : float) :
  exact op opQ x y = true ->
  finite (op x y) = true /\ (value (op x y) == opQ (value x) (value y))%Q.
Proof.
  unfold exact. intros H. apply andb_true_iff in H. destruct H as [F E].
  split; [exact F | apply Qeq_bool_iff; exact E].
Qed.

Ltac exact_operations H :=
  repeat match type of H with
         | (_ && _)%bool = true =>
             let E := fresh "E" in
             apply andb_true_iff in H; destruct H as [H E];
             apply exact_spec in E; destruct E as [? E]
         end;
  apply exact_spec in H; let F := fresh "F" in destruct H as [F H].

Ltac by_exact_operations :=
  repeat match goal with
         | E : (value _ == _)%Q |- _ => rewrite E; clear E
         end.

(** When no operation rounds, the three stores are the components of the
    exact cross product of the exact edge vectors. *)
Lemma ComputeNormalDirection_exact_value (v1 v2 v3 : double3) :
  ComputeNormalDirection_exact v1 v2 v3 = true ->
  finite3 (ComputeNormalDirection v1 v2 v3) = true
  /\ Qeq3 (value3 (ComputeNormalDirection v1 v2 v3))
          (Qcross (Qsub3 (value3 v3) (value3 v2))
                  (Qsub3 (value3 v1) (value3 v2))).
Proof.
  unfold ComputeNormalDirection_exact, ComputeNormalDirection.
  destruct v1 as [x1 y1 z1], v2 as [x2 y2 z2], v3 as [x3 y3 z3].
  cbn [get3 at0 at1 at2]. intros H. exact_operations H.
  split.
  - unfold finite3. cbn [at0 at1 at2].
    repeat (apply andb_true_iff; split); assumption.
  - unfold Qeq3, value3, Qcross, Qsub3. cbn [at0 at1 at2].
    repeat split; by_exact_operations; reflexivity.
Qed.

Lemma sub_finite (x y : float) :
  finite (x - y) = true -> finite x = true /\ finite y = true.
Proof.
  unfold finite. rewrite sub_spec. unfold SF64sub, SFsub.
  destruct (Prim2SF x) as [[] | [] | | []], (Prim2SF y) as [[] | [] | | []];
    cbv beta iota; intros H; try discriminate H; split; reflexivity.
Qed.

(** Where no operation rounds, the coordinates of the vertices are
    numbers. *)
Lemma ComputeNormalDirection_exact_finite (v1 v2 v3 : double3) :
  ComputeNormalDirection_exact v1 v2 v3 = true ->
  finite3 v1 = true /\ finite3 v2 = true /\ finite3 v3 = true.
Proof.
  unfold ComputeNormalDirection_exact.
  destruct v1 as [x1 y1 z1], v2 as [x2 y2 z2], v3 as [x3 y3 z3].
  cbn [get3 at0 at1 at2]. intros H. exact_operations H.
  repeat match goal with
         | G : finite (_ - _) = true |- _ =>
             apply sub_finite in G; destruct G
         end.
  unfold finite3. cbn [at0 at1 at2].
  repeat split; repeat (apply andb_true_iff; split); assumption.
Qed.

(** The exact cross product of the edges of collinear points vanishes. *)
Lemma Qcollinear_cross (p1 p2 p3 : rational3) :
  Qcollinear p1 p2 p3 ->
  Qeq3 (Qcross (Qsub3 p3 p2) (Qsub3 p1 p2)) (0, 0, 0)%Q.
Proof.
  intros (a & d & s1 & s2 & s3 & H1 & H2 & H3).
  destruct p1 as [[x1 y1] z1], p2 as [[x2 y2] z2], p3 as [[x3 y3] z3],
    a as [[a0 a1] a2], d as [[d0 d1] d2].
  unfold Qeq3, Qadd3, Qscale, Qcross, Qsub3 in *.
  destruct H1 as (X1 & Y1 & Z1), H2 as (X2 & Y2 & Z2), H3 as (X3 & Y3 & Z3).
  rewrite X1, Y1, Z1, X2, Y2, Z2, X3, Y3, Z3. repeat split; ring.
Qed.

(** The exact cross product is the same for the next cyclic order. *)
Lemma Qcross_cyclic (p1 p2 p3 : rational3) :
  Qeq3 (Qcross (Qsub3 p1 p3) (Qsub3 p2 p3))
       (Qcross (Qsub3 p3 p2) (Qsub3 p1 p2)).
Proof.
  destruct p1 as [[x1 y1] z1], p2 as [[x2 y2] z2], p3 as [[x3 y3] z3].
  unfold Qeq3, Qcross, Qsub3. repeat split; ring.
Qed.

Lemma Qeq3_trans (u v w : rational3) : Qeq3 u v -> Qeq3 v w -> Qeq3 u w.
Proof.
  destruct u as [[a b] c], v as [[a' b'] c'], w as [[a2 b2] c2].
  unfold Qeq3. intros (A & B & C) (A' & B' & C').
  rewrite A, B, C. repeat split; assumption.
Qed.

Lemma Qeq3_sym (u v : rational3) : Qeq3 u v -> Qeq3 v u.
Proof.
  destruct u as [[a b] c], v as [[a' b'] c'].
  unfold Qeq3. intros (A & B & C). repeat split; symmetry; assumption.
Qed.

(** ** Rounding a representable number

    The operations round an exact intermediate result, a mantissa with an
    exponent, to the format.  When that result is a double already, the
    bits shifted out are zeros and the rounding returns it unchanged: a
    difference or a product that is a double is computed exactly. *)

Lemma shr_1_even (z : Z) :
  (0 < z)%Z ->
  shr_1 {| shr_m := 2 * z; shr_r := false; shr_s := false |}
  = {| shr_m := z; shr_r := false; shr_s := false |}.
Proof. destruct z; try lia. reflexivity. Qed.

Lemma pow2_xO (k : positive) :
  (2 ^ Zpos k~0 = 2 ^ Zpos k * 2 ^ Zpos k)%Z.
Proof. rewrite <- Z.pow_add_r by lia. f_equal. lia. Qed.

Lemma pow2_xI (k : positive) :
  (2 ^ Zpos k~1 = 2 * (2 ^ Zpos k * 2 ^ Zpos k))%Z.
Proof.
  rewrite <- Z.pow_add_r by lia. rewrite <- Z.pow_succ_r by lia.
  f_equal. lia.
Qed.

Lemma iter_pos_shr_1 (k : positive) :
  forall z : Z,
    (0 < z)%Z ->
    iter_pos shr_1 k
      {| shr_m := z * 2 ^ Zpos k; shr_r := false; shr_s := false |}
    = {| shr_m := z; shr_r := false; shr_s := false |}.
Proof.
  induction k as [k IH | k IH |]; intros z P; cbn [iter_pos].
  - assert (Q : (0 < z * 2 ^ Zpos k)%Z) by (apply Z.mul_pos_pos; lia).
    replace (z * 2 ^ Zpos k~1)%Z with (2 * ((z * 2 ^ Zpos k) * 2 ^ Zpos k))%Z
      by (rewrite pow2_xI; ring).
    rewrite shr_1_even by (apply Z.mul_pos_pos; lia).
    rewrite (IH _ Q). apply IH. exact P.
  - assert (Q : (0 < z * 2 ^ Zpos k)%Z) by (apply Z.mul_pos_pos; lia).
    replace (z * 2 ^ Zpos k~0)%Z with ((z * 2 ^ Zpos k) * 2 ^ Zpos k)%Z
      by (rewrite pow2_xO; ring).
    rewrite (IH _ Q). apply IH. exact P.
  - rewrite Z.pow_1_r, Z.mul_comm. apply shr_1_even. exact P.
Qed.

Lemma canonical_fexp (m : positive) (e : Z) :
  bounded prec emax m e = true ->
  fexp prec emax (Z.log2 (Zpos m) + 1 + e) = e /\ (e <= emax - prec)%Z.
Proof.
  unfold bounded, canonical_mantissa. intros B.
  apply andb_true_iff in B. destruct B as [C L].
  apply Z.eqb_eq in C. apply Z.leb_le in L.
  rewrite digits2_pos_log2 in C. split; assumption.
Qed.

Lemma shr_fexp_exact (M m' : positive) (e e' : Z) :
  bounded prec emax m' e' = true ->
  (e <= e')%Z ->
  Zpos M = (Zpos m' * 2 ^ (e' - e))%Z ->
  shr_fexp prec emax (Zpos M) e loc_Exact
  = ({| shr_m := Zpos m'; shr_r := false; shr_s := false |}, e').
Proof.
  intros B L S. destruct (canonical_fexp m' e' B) as [C _].
  unfold shr_fexp. cbn [Zdigits2 shr_record_of_loc].
  rewrite digits2_pos_log2, S, Z.log2_mul_pow2 by lia.
  replace (e' - e + Z.log2 (Z.pos m') + 1 + e)%Z
    with (Z.log2 (Z.pos m') + 1 + e')%Z by lia.
  rewrite C. unfold shr.
  destruct (e' - e)%Z as [| k | k] eqn:K; try lia.
  - rewrite Z.pow_0_r, Z.mul_1_r. f_equal. lia.
  - rewrite iter_pos_shr_1 by lia. f_equal. lia.
Qed.

Lemma binary_round_aux_exact (s : bool) (M m' : positive) (e e' : Z) :
  bounded prec emax m' e' = true ->
  (e <= e')%Z ->
  Zpos M = (Zpos m' * 2 ^ (e' - e))%Z ->
  binary_round_aux prec emax s (Zpos M) e loc_Exact = S754_finite s m' e'.
Proof.
  intros B L S. unfold binary_round_aux.
  rewrite (shr_fexp_exact M m' e e' B L S).
  cbn [shr_m loc_of_shr_record round_nearest_even].
  rewrite (shr_fexp_exact m' m' e' e' B (Z.le_refl _))
    by (rewrite Z.sub_diag, Z.pow_0_r; lia).
  cbn [shr_m]. destruct (canonical_fexp m' e' B) as [_ E].
  apply Z.leb_le in E. rewrite E. reflexivity.
Qed.

Lemma Pos_iter_xO (M d : positive) :
  Zpos (Pos.iter xO M d) = (Zpos M * 2 ^ Zpos d)%Z.
Proof.
  induction d as [| d IH] using Pos.peano_ind.
  - cbn [Pos.iter]. rewrite Z.pow_1_r. lia.
  - rewrite Pos.iter_succ, Pos2Z.inj_xO, IH, Pos2Z.inj_succ, Z.pow_succ_r
      by lia. ring.
Qed.

Lemma shl_align_value (m : positive) (e ez : Z) :
  (ez <= e)%Z ->
  Zpos (fst (shl_align m e ez)) = (Zpos m * 2 ^ (e - ez))%Z.
Proof.
  intros L. unfold shl_align.
  destruct (ez - e)%Z as [| d | d] eqn:D; try lia; cbn [fst].
  - replace (e - ez)%Z with 0%Z by lia. rewrite Z.pow_0_r. lia.
  - rewrite Pos_iter_xO. f_equal. f_equal. lia.
Qed.

Lemma same_value_digits (M m' : positive) (e e' : Z) :
  (inject_Z (Zpos M) * 2 ^ e == inject_Z (Zpos m') * 2 ^ e')%Q ->
  (Z.log2 (Zpos M) + 1 + e = Z.log2 (Zpos m') + 1 + e')%Z.
Proof.
  intros H. destruct (Z.le_ge_cases e e') as [L | L].
  - rewrite (scaled_mantissa M m' e e' L H).
    rewrite Z.log2_mul_pow2 by lia. lia.
  - symmetry in H. rewrite (scaled_mantissa m' M e' e L H).
    rewrite Z.log2_mul_pow2 by lia. lia.
Qed.

Lemma binary_round_exact (s : bool) (M m' : positive) (e e' : Z) :
  bounded prec emax m' e' = true ->
  (inject_Z (Zpos M) * 2 ^ e == inject_Z (Zpos m') * 2 ^ e')%Q ->
  binary_round prec emax s M e = S754_finite s m' e'.
Proof.
  intros B H. destruct (canonical_fexp m' e' B) as [C _].
  unfold binary_round.
  rewrite digits2_pos_log2, (same_value_digits M m' e e' H), C.
  destruct (Z.le_ge_cases e e') as [L | L].
  - pose proof (scaled_mantissa M m' e e' L H) as S.
    unfold shl_align. destruct (e' - e)%Z as [| d | d] eqn:D; try lia;
      apply binary_round_aux_exact; try assumption; rewrite D; exact S.
  - destruct (shl_align M e e') as [mz ez] eqn:A.
    pose proof (shl_align_value M e e' L) as V. rewrite A in V. cbn [fst] in V.
    assert (Ez : ez = e').
    { unfold shl_align in A. destruct (e' - e)%Z eqn:D;
        injection A as _ <-; lia. }
    subst ez. symmetry in H.
    rewrite <- (scaled_mantissa m' M e' e L H) in V.
    apply binary_round_aux_exact; [exact B | lia |].
    rewrite Z.sub_diag, Z.pow_0_r. lia.
Qed.

Lemma sign_value (s s' : bool) (p q : Q) :
  (0 < p)%Q -> (0 < q)%Q ->
  ((if s then -1 else 1) * p == (if s' then -1 else 1) * q)%Q ->
  s = s' /\ (p == q)%Q.
Proof. intros P Q0 H. destruct s, s'; split; try reflexivity; lra. Qed.

Lemma mantissa_pos (m : positive) (e : Z) :
  (0 < inject_Z (Zpos m) * 2 ^ e)%Q.
Proof. apply Qmult_lt_0_compat; [reflexivity | apply Qpower2_pos]. Qed.

Lemma binary_normalize_exact (z e : Z) (s : bool) (m' : positive) (e' : Z) :
  bounded prec emax m' e' = true ->
  (inject_Z z * 2 ^ e
   == (if s then -1 else 1) * inject_Z (Zpos m') * 2 ^ e')%Q ->
  binary_normalize prec emax z e false = S754_finite s m' e'.
Proof.
  intros B H. pose proof (mantissa_pos m' e') as P'.
  destruct z as [| p | p]; cbn [binary_normalize].
  - exfalso. change (inject_Z 0) with 0%Q in H. revert H P'.
    generalize (inject_Z (Z.pos m')) (2 ^ e')%Q (2 ^ e)%Q. intros a b c H P'.
    destruct s; lra.
  - pose proof (mantissa_pos p e) as P.
    destruct (sign_value false s _ _ P P') as [<- V].
    { revert H.
      generalize (inject_Z (Z.pos p)) (2 ^ e)%Q (inject_Z (Z.pos m'))
        (2 ^ e')%Q.
      intros a b c d H. destruct s; lra. }
    apply binary_round_exact; assumption.
  - pose proof (mantissa_pos p e) as P.
    destruct (sign_value true s _ _ P P') as [<- V].
    { change (inject_Z (Z.neg p)) with (- inject_Z (Z.pos p))%Q in H.
      revert H.
      generalize (inject_Z (Z.pos p)) (2 ^ e)%Q (inject_Z (Z.pos m'))
        (2 ^ e')%Q.
      intros a b c d H. destruct s; lra. }
    apply binary_round_exact; assumption.
Qed.

Lemma aligned_value (s : bool) (m : positive) (e ez : Z) :
  (ez <= e)%Z ->
  (inject_Z (cond_Zopp s (Zpos (fst (shl_align m e ez)))) * 2 ^ ez
   == (if s then -1 else 1) * inject_Z (Zpos m) * 2 ^ e)%Q.
Proof.
  intros L. rewrite shl_align_value by exact L.
  assert (T : ~ (2 == 0)%Q) by discriminate.
  replace e with ((e - ez) + ez)%Z at 2 by lia.
  rewrite (Qpower_plus 2 (e - ez) ez T).
  destruct s; cbn [cond_Zopp]; rewrite ?inject_Z_opp, inject_Z_mult,
    (Zpower_Qpower 2 (e - ez)) by lia;
    change (inject_Z 2) with 2%Q;
    generalize (2 ^ (e - ez))%Q (2 ^ ez)%Q (inject_Z (Z.pos m));
    intros p q r; ring.
Qed.

Lemma exact_intro (op : float -> float -> float) (opQ : Q -> Q -> Q)
    (x y : float) :
  finite (op x y) = true ->
  (value (op x y) == opQ (value x) (value y))%Q ->
  exact op opQ x y = true.
Proof.
  intros F V. unfold exact. rewrite F. apply Qeq_bool_iff. exact V.
Qed.

(** A difference that is a double is computed without rounding. *)
Lemma sub_exact (x y : float) :
  finite x = true -> finite y = true ->
  representable (value x - value y) ->
  exact sub Qminus x y = true.
Proof.
  intros Fx Fy R. apply exact_intro; revert Fx Fy R;
    unfold finite, value; rewrite sub_spec;
    pose proof (Prim2SF_valid x) as Vx; pose proof (Prim2SF_valid y) as Vy;
    destruct (Prim2SF x) as [sx | sx | | sx mx ex]; try discriminate;
    destruct (Prim2SF y) as [sy | sy | | sy my ey]; try discriminate;
    intros _ _ R; unfold SF64sub, SFsub.
  1-3: destruct sx; try destruct sy; reflexivity.
  2-4: try (destruct sx, sy; cbn [negb]; ring).
  all: cbv zeta; set (ez := Z.min ex ey);
    set (a := cond_Zopp sx (Z.pos (fst (shl_align mx ex ez))));
    set (b := cond_Zopp sy (Z.pos (fst (shl_align my ey ez))));
    assert (V : (inject_Z (a - b) * 2 ^ ez
                 == (if sx then -1 else 1) * inject_Z (Z.pos mx) * 2 ^ ex
                    - (if sy then -1 else 1) * inject_Z (Z.pos my) * 2 ^ ey)%Q)
      by (rewrite <- (aligned_value sx mx ex ez), <- (aligned_value sy my ey ez)
            by (subst ez; lia);
          fold a b; unfold Z.sub; rewrite inject_Z_plus, inject_Z_opp; ring);
    destruct R as [R | (s & m & e & B & R)].
  - assert (Z0 : (a - b = 0)%Z).
    { apply inject_Z_injective. rewrite R in V.
      pose proof (Qpower2_pos ez) as P. change (inject_Z 0) with 0%Q.
      apply (Qmult_inj_r _ _ (2 ^ ez)%Q); [lra |]. rewrite V. ring. }
    rewrite Z0. reflexivity.
  - rewrite (binary_normalize_exact (a - b) ez s m e B)
      by (rewrite V; exact R).
    reflexivity.
  - assert (Z0 : (a - b = 0)%Z).
    { apply inject_Z_injective. rewrite R in V.
      pose proof (Qpower2_pos ez) as P. change (inject_Z 0) with 0%Q.
      apply (Qmult_inj_r _ _ (2 ^ ez)%Q); [lra |]. rewrite V. ring. }
    rewrite Z0. cbn [binary_normalize]. symmetry. exact R.
  - rewrite (binary_normalize_exact (a - b) ez s m e B)
      by (rewrite V; exact R).
    symmetry. exact R.
Qed.

(** The product of two mantissas in canonical position is never left of
    its own canonical position: rounding a product only shifts right. *)
Lemma mul_exponent (mx my : positive) (ex ey : Z) :
  bounded prec emax mx ex = true ->
  bounded prec emax my ey = true ->
  (ex + ey
   <= fexp prec emax (Z.log2 (Zpos (mx * my)) + 1 + (ex + ey)))%Z.
Proof.
  intros Bx By.
  destruct (canonical_fexp mx ex Bx) as [Cx _].
  destruct (canonical_fexp my ey By) as [Cy _].
  pose proof (Z.log2_mul_below (Zpos mx) (Zpos my)) as L.
  pose proof (Z.log2_nonneg (Zpos mx)) as Nx.
  pose proof (Z.log2_nonneg (Zpos my)) as Ny.
  rewrite Pos2Z.inj_mul.
  unfold fexp, emin, prec, emax in *. lia.
Qed.

Lemma binary_round_aux_product
    (sx sy s : bool) (mx my m : positive) (ex ey e : Z) :
  bounded prec emax mx ex = true ->
  bounded prec emax my ey = true ->
  bounded prec emax m e = true ->
  ((if sx then -1 else 1) * inject_Z (Z.pos mx) * 2 ^ ex
   * ((if sy then -1 else 1) * inject_Z (Z.pos my) * 2 ^ ey)
   == (if s then -1 else 1) * inject_Z (Z.pos m) * 2 ^ e)%Q ->
  binary_round_aux prec emax (xorb sx sy) (Z.pos (mx * my)) (ex + ey)
    loc_Exact
  = S754_finite s m e.
Proof.
  intros Bx By B H.
  assert (T : ~ (2 == 0)%Q) by discriminate.
  pose proof (mantissa_pos (mx * my) (ex + ey)) as P.
  pose proof (mantissa_pos m e) as P'.
  assert (S : xorb sx sy = s
              /\ (inject_Z (Z.pos (mx * my)) * 2 ^ (ex + ey)
                  == inject_Z (Z.pos m) * 2 ^ e)%Q).
  { apply sign_value; try assumption. revert H P.
    rewrite Pos2Z.inj_mul, inject_Z_mult, (Qpower_plus 2 ex ey T).
    generalize (2 ^ ex)%Q (2 ^ ey)%Q (inject_Z (Z.pos mx))
      (inject_Z (Z.pos my)) (inject_Z (Z.pos m)) (2 ^ e)%Q.
    intros p q a b c d H P.
    destruct sx, sy, s; cbn [xorb]; lra. }
  destruct S as [<- W].
  assert (L : (ex + ey <= e)%Z).
  { pose proof (mul_exponent mx my ex ey Bx By) as M.
    rewrite (same_value_digits _ _ _ _ W) in M.
    rewrite (proj1 (canonical_fexp m e B)) in M. exact M. }
  apply binary_round_aux_exact; [exact B | exact L |].
  exact (scaled_mantissa _ _ _ _ L W).
Qed.

(** A product that is a double is computed without rounding. *)
Lemma mul_exact (x y : float) :
  finite x = true -> finite y = true ->
  representable (value x * value y) ->
  exact mul Qmult x y = true.
Proof.
  intros Fx Fy R. apply exact_intro; revert Fx Fy R;
    unfold finite, value; rewrite mul_spec;
    pose proof (Prim2SF_valid x) as Vx; pose proof (Prim2SF_valid y) as Vy;
    destruct (Prim2SF x) as [sx | sx | | sx mx ex]; try discriminate;
    destruct (Prim2SF y) as [sy | sy | | sy my ey]; try discriminate;
    intros _ _ R; unfold SF64mul, SFmul; try reflexivity; try ring;
    cbn [valid_binary] in Vx, Vy;
    (destruct R as [R | (s & m & e & B & R)];
     [ exfalso;
       pose proof (mantissa_pos mx ex) as Px;
       pose proof (mantissa_pos my ey) as Py;
       revert R Px Py;
       generalize (2 ^ ex)%Q (2 ^ ey)%Q (inject_Z (Z.pos mx))
         (inject_Z (Z.pos my));
       intros p q a b R Px Py;
       assert (N : (0 < (a * p) * (b * q))%Q)
         by (apply Qmult_lt_0_compat; assumption);
       destruct sx, sy; lra
     | rewrite (binary_round_aux_product sx sy s mx my m ex ey e Vx Vy B R) ]).
  - reflexivity.
  - symmetry. exact R.
Qed.

(** ** Whole numbers

    Every whole number below [2^53] in magnitude is a double, so sums and
    products of whole numbers that stay below this bound do not round. *)

Lemma representable_eq (q q' : Q) :
  (q == q')%Q -> representable q -> representable q'.
Proof.
  intros E [R | (s & m & e & B & R)].
  - left. rewrite <- E. exact R.
  - right. exists s, m, e. split; [exact B |]. rewrite <- E. exact R.
Qed.

(** Every whole number below [2^53] in magnitude is a double. *)
Lemma integer_representable (n : Z) :
  (Z.abs n < 2 ^ 53)%Z -> representable (inject_Z n).
Proof.
  intros A.
  assert (Pos : forall p : positive,
            (Zpos p < 2 ^ 53)%Z ->
            exists (m : positive) (e : Z),
              bounded prec emax m e = true
              /\ (inject_Z (Zpos p) == inject_Z (Zpos m) * 2 ^ e)%Q).
  { intros p L.
    pose proof (Z.log2_nonneg (Zpos p)) as D0.
    assert (D1 : (Z.log2 (Zpos p) < 53)%Z)
      by (apply Z.log2_lt_pow2; lia).
    set (d := Z.log2 (Zpos p)) in *.
    assert (M0 : (0 < Zpos p * 2 ^ (52 - d))%Z)
      by (apply Z.mul_pos_pos; [lia | apply Z.pow_pos_nonneg; lia]).
    exists (Z.to_pos (Zpos p * 2 ^ (52 - d))), (d - 52)%Z.
    split.
    - unfold bounded, canonical_mantissa.
      rewrite digits2_pos_log2, Z2Pos.id by exact M0.
      rewrite Z.log2_mul_pow2 by lia. fold d.
      apply andb_true_iff. split.
      + apply Z.eqb_eq. unfold fexp, emin, prec, emax. lia.
      + apply Z.leb_le. unfold prec, emax. lia.
    - rewrite Z2Pos.id by exact M0.
      rewrite inject_Z_mult, (Zpower_Qpower 2 (52 - d)) by lia.
      change (inject_Z 2) with 2%Q.
      rewrite <- Qmult_assoc, <- Qpower_plus by discriminate.
      replace (52 - d + (d - 52))%Z with 0%Z by lia.
      change (2 ^ 0)%Q with 1%Q. ring. }
  destruct n as [| p | p].
  - left. reflexivity.
  - destruct (Pos p A) as (m & e & B & V).
    right. exists false, m, e. split; [exact B |]. rewrite V. ring.
  - destruct (Pos p A) as (m & e & B & V).
    right. exists true, m, e. split; [exact B |].
    change (inject_Z (Z.neg p)) with (- inject_Z (Z.pos p))%Q.
    rewrite V. ring.
Qed.

Lemma sub_integer (k : Z) (x y : float) :
  (0 <= k < 52)%Z ->
  integer_within k x -> integer_within k y ->
  exact sub Qminus x y = true /\ integer_within (k + 1) (x - y).
Proof.
  intros K (Fx & n & Vx & Bx) (Fy & n' & Vy & By).
  assert (P : (2 ^ (k + 1) = 2 * 2 ^ k)%Z)
    by (rewrite Z.pow_add_r, Z.pow_1_r by lia; ring).
  assert (L : (2 ^ (k + 1) < 2 ^ 53)%Z)
    by (apply Z.pow_lt_mono_r; lia).
  assert (V : (value x - value y == inject_Z (n - n'))%Q).
  { rewrite Vx, Vy. unfold Z.sub. rewrite inject_Z_plus, inject_Z_opp. ring. }
  assert (E : exact sub Qminus x y = true).
  { apply sub_exact; try assumption.
    apply (representable_eq (inject_Z (n - n'))); [symmetry; exact V |].
    apply integer_representable. lia. }
  split; [exact E |].
  apply exact_spec in E. destruct E as [F W].
  split; [exact F |]. exists (n - n')%Z.
  split; [rewrite W; exact V | lia].
Qed.

Lemma mul_integer (j k : Z) (x y : float) :
  (0 <= j)%Z -> (0 <= k)%Z -> (j + k < 53)%Z ->
  integer_within j x -> integer_within k y ->
  exact mul Qmult x y = true /\ integer_within (j + k) (x * y).
Proof.
  intros J K JK (Fx & n & Vx & Bx) (Fy & n' & Vy & By).
  assert (B : (Z.abs (n * n') <= 2 ^ (j + k))%Z).
  { rewrite Z.abs_mul, Z.pow_add_r by lia.
    apply Z.mul_le_mono_nonneg; lia. }
  assert (L : (2 ^ (j + k) < 2 ^ 53)%Z)
    by (apply Z.pow_lt_mono_r; lia).
  assert (V : (value x * value y == inject_Z (n * n'))%Q).
  { rewrite Vx, Vy, inject_Z_mult. reflexivity. }
  assert (E : exact mul Qmult x y = true).
  { apply mul_exact; try assumption.
    apply (representable_eq (inject_Z (n * n'))); [symmetry; exact V |].
    apply integer_representable. lia. }
  split; [exact E |].
  apply exact_spec in E. destruct E as [F W].
  split; [exact F |]. exists (n * n')%Z.
  split; [rewrite W; exact V | exact B].
Qed.

Ltac whole_number n :=
  exists n; split; [vm_compute; reflexivity | vm_compute; discriminate].

(** On whole numbers of magnitude at most [2^24] no operation of
    [ComputeNormalDirection] rounds: the differences stay within [2^25],
    the products within [2^50] and their differences within [2^51]. *)
Lemma ComputeNormalDirection_integers (v1 v2 v3 : double3) :
  integers_within 24 v1 -> integers_within 24 v2 -> integers_within 24 v3 ->
  ComputeNormalDirection_exact v1 v2 v3 = true.
Proof.
  destruct v1 as [x1 y1 z1], v2 as [x2 y2 z2], v3 as [x3 y3 z3].
  unfold integers_within, ComputeNormalDirection_exact.
  cbn [get3 at0 at1 at2].
  intros (X1 & Y1 & Z1) (X2 & Y2 & Z2) (X3 & Y3 & Z3).
  assert (K : (0 <= 24 < 52)%Z) by lia.
  destruct (sub_integer 24 x3 x2 K X3 X2) as [Eax Iax].
  destruct (sub_integer 24 y3 y2 K Y3 Y2) as [Eay Iay].
  destruct (sub_integer 24 z3 z2 K Z3 Z2) as [Eaz Iaz].
  destruct (sub_integer 24 x1 x2 K X1 X2) as [Ebx Ibx].
  destruct (sub_integer 24 y1 y2 K Y1 Y2) as [Eby Iby].
  destruct (sub_integer 24 z1 z2 K Z1 Z2) as [Ebz Ibz].
  change (24 + 1)%Z with 25%Z in *.
  assert (M : forall a b, integer_within 25 a -> integer_within 25 b ->
                exact mul Qmult a b = true /\ integer_within 50 (a * b))
    by (intros a b; apply (mul_integer 25 25); lia).
  destruct (M _ _ Iay Ibz) as [E1 I1]. destruct (M _ _ Iaz Iby) as [E2 I2].
  destruct (M _ _ Iaz Ibx) as [E3 I3]. destruct (M _ _ Iax Ibz) as [E4 I4].
  destruct (M _ _ Iax Iby) as [E5 I5]. destruct (M _ _ Iay Ibx) as [E6 I6].
  assert (K' : (0 <= 50 < 52)%Z) by lia.
  destruct (sub_integer 50 _ _ K' I1 I2) as [F1 _].
  destruct (sub_integer 50 _ _ K' I3 I4) as [F2 _].
  destruct (sub_integer 50 _ _ K' I5 I6) as [F3 _].
  rewrite Eax, Eay, Eaz, Ebx, Eby, Ebz, E1, E2, E3, E4, E5, E6, F1, F2, F3.
  reflexivity.
Qed.

(** ** The normal direction *)

Lemma ComputeNormalDirection_cross (v1 v2 v3 : double3) :
  ComputeNormalDirection v1 v2 v3 = cross (vsub v3 v2) (vsub v1 v2).
Proof. reflexivity. Qed.

Lemma ComputeNormalDirection_reversed (v1 v2 v3 : double3) :
  opposite3 (ComputeNormalDirection v1 v2 v3)
            (ComputeNormalDirection v3 v2 v1).
Proof.
  unfold ComputeNormalDirection, opposite3. cbn [at0 at1 at2].
  repeat split.
  - rewrite (double_mul_comm (get3 v1 1 - get3 v2 1) (get3 v3 2 - get3 v2 2)).
    rewrite (double_mul_comm (get3 v1 2 - get3 v2 2) (get3 v3 1 - get3 v2 1)).
    apply double_sub_swap.
  - rewrite (double_mul_comm (get3 v1 2 - get3 v2 2) (get3 v3 0 - get3 v2 0)).
    rewrite (double_mul_comm (get3 v1 0 - get3 v2 0) (get3 v3 2 - get3 v2 2)).
    apply double_sub_swap.
  - rewrite (double_mul_comm (get3 v1 0 - get3 v2 0) (get3 v3 1 - get3 v2 1)).
    rewrite (double_mul_comm (get3 v1 1 - get3 v2 1) (get3 v3 0 - get3 v2 0)).
    apply double_sub_swap.
Qed.

Lemma Norm_squares (u v : double3) :
  at0 u * at0 u = at0 v * at0 v ->
  at1 u * at1 u = at1 v * at1 v ->
  at2 u * at2 u = at2 v * at2 v ->
  vtkMath.Norm u = vtkMath.Norm v.
Proof.
  unfold vtkMath.Norm. cbn [get3]. intros -> -> ->. reflexivity.
Qed.

Lemma Norm_zero (v : double3) : is_zero3 v = true -> vtkMath.Norm v = 0.
Proof.
  unfold is_zero3, vtkMath.Norm. cbn [get3]. intros H.
  apply andb_true_iff in H. destruct H as [H Z2].
  apply andb_true_iff in H. destruct H as [Z0 Z1].
  rewrite (square_zero _ Z0), (square_zero _ Z1), (square_zero _ Z2).
  reflexivity.
Qed.

Lemma exact_collinear_zero (v1 v2 v3 : double3) :
  ComputeNormalDirection_exact v1 v2 v3 = true ->
  Qcollinear (value3 v1) (value3 v2) (value3 v3) ->
  is_zero3 (ComputeNormalDirection v1 v2 v3) = true.
Proof.
  intros E C.
  destruct (ComputeNormalDirection_exact_value v1 v2 v3 E) as [F V].
  pose proof (Qeq3_trans _ _ _ V (Qcollinear_cross _ _ _ C)) as Z.
  destruct (ComputeNormalDirection v1 v2 v3) as [n0 n1 n2].
  unfold finite3, is_zero3, value3, Qeq3, is_zero in *. cbn [at0 at1 at2] in *.
  apply andb_true_iff in F. destruct F as [F F2].
  apply andb_true_iff in F. destruct F as [F0 F1].
  destruct Z as (Z0 & Z1 & Z2).
  rewrite (finite_value_zero n0 F0 Z0), (finite_value_zero n1 F1 Z1),
    (finite_value_zero n2 F2 Z2). reflexivity.
Qed.

(** Two cyclic orders whose normal directions are computed without
    rounding have the same area: the two directions stand for the same
    exact vector, hence have the same squares. *)
Lemma TriangleArea_exact_cyclic (q1 q2 q3 : double3) :
  ComputeNormalDirection_exact q1 q2 q3 = true ->
  ComputeNormalDirection_exact q2 q3 q1 = true ->
  TriangleArea q2 q3 q1 = TriangleArea q1 q2 q3.
Proof.
  intros E E'. unfold TriangleArea. f_equal.
  destruct (ComputeNormalDirection_exact_value q1 q2 q3 E) as [F V].
  destruct (ComputeNormalDirection_exact_value q2 q3 q1 E') as [F' V'].
  pose proof (Qeq3_trans _ _ _ V'
                (Qcross_cyclic (value3 q1) (value3 q2) (value3 q3))) as S.
  pose proof (Qeq3_trans _ _ _ S (Qeq3_sym _ _ V)) as T.
  destruct (ComputeNormalDirection q1 q2 q3) as [n0 n1 n2],
    (ComputeNormalDirection q2 q3 q1) as [m0 m1 m2].
  unfold finite3, value3, Qeq3 in *. cbn [at0 at1 at2] in *.
  apply andb_true_iff in F, F'. destruct F as [F F2], F' as [F' F2'].
  apply andb_true_iff in F, F'. destruct F as [F0 F1], F' as [F0' F1'].
  destruct T as (T0 & T1 & T2).
  apply Norm_squares; cbn [at0 at1 at2]; apply same_value_square;
    assumption.
Qed.

Lemma TriangleArea_exact_collinear (p1 p2 p3 : double3) :
  ComputeNormalDirection_exact p1 p2 p3 = true ->
  Qcollinear (value3 p1) (value3 p2) (value3 p3) ->
  TriangleArea p1 p2 p3 = 0.
Proof.
  intros E C. unfold TriangleArea.
  rewrite (Norm_zero _ (exact_collinear_zero p1 p2 p3 E C)). reflexivity.
Qed.

(** ** ComputeNormal *)

(** The value of [ComputeNormal] on each side of the guard: no division
    records a zero divisor. *)
Lemma ComputeNormal_cases (v1 v2 v3 : double3) :
  let d := ComputeNormalDirection v1 v2 v3 in
  let length := sqrt (at0 d * at0 d + at1 d * at1 d + at2 d * at2 d) in
  ComputeNormal v1 v2 v3
  = if length =? 0 then Some d
    else Some (D3 (at0 d / length) (at1 d / length) (at2 d / length)).
Proof.
  intros d length. unfold ComputeNormal. fold d. cbn [get3]. fold length.
  destruct (length =? 0) eqn:L; cbn [negb]; [reflexivity |].
  unfold fdiv. rewrite L. cbn [bind set3 get3 at0 at1 at2]. reflexivity.
Qed.

Lemma ComputeNormal_zero_direction (v1 v2 v3 : double3) :
  is_zero3 (ComputeNormalDirection v1 v2 v3) = true ->
  ComputeNormal v1 v2 v3 = Some (ComputeNormalDirection v1 v2 v3).
Proof.
  intros Z. rewrite ComputeNormal_cases. cbv zeta.
  change (sqrt _) with (vtkMath.Norm (ComputeNormalDirection v1 v2 v3)).
  rewrite (Norm_zero _ Z). reflexivity.
Qed.

(** C7, amended.  For every triangle, [ComputeNormalDirection] returns the
    cross product (p3 - p2) x (p1 - p2) of the two edge vectors, in that
    operand order, evaluated in double arithmetic: each component is the
    rounded difference of two rounded products of rounded differences of
    coordinates.  It is exactly the cross product of the exact edge vectors
    whenever none of these fifteen operations rounds, as is the case for
    vertices whose coordinates are whole numbers of magnitude at most 2^24.
    Exchanging [v1] and [v3], which reverses the winding, gives the
    opposite of every component, rounding or not: the orientation of the
    un-normalized normal follows the winding. *)
Theorem ComputeNormalDirection_cross_product :
  forall v1 v2 v3 : double3,
    ComputeNormalDirection v1 v2 v3 = cross (vsub v3 v2) (vsub v1 v2)
    /\ (ComputeNormalDirection_exact v1 v2 v3 = true ->
        (finite3 v1 = true /\ finite3 v2 = true /\ finite3 v3 = true)
        /\ finite3 (ComputeNormalDirection v1 v2 v3) = true
        /\ Qeq3 (value3 (ComputeNormalDirection v1 v2 v3))
                (Qcross (Qsub3 (value3 v3) (value3 v2))
                        (Qsub3 (value3 v1) (value3 v2))))
    /\ (integers_within 24 v1 -> integers_within 24 v2 ->
        integers_within 24 v3 ->
        ComputeNormalDirection_exact v1 v2 v3 = true)
    /\ opposite3 (ComputeNormalDirection v1 v2 v3)
                 (ComputeNormalDirection v3 v2 v1).
Proof.
  intros v1 v2 v3. split; [reflexivity |]. split; [| split].
  - intros E. split; [apply ComputeNormalDirection_exact_finite; exact E |].
    apply ComputeNormalDirection_exact_value. exact E.
  - apply ComputeNormalDirection_integers.
  - apply ComputeNormalDirection_reversed.
Qed.

(** C7 on the triangle (0,0,0), (1,0,0), (0,1,0), where nothing rounds: the
    normal direction is (0,0,1), and (0,0,-1) for the reversed winding. *)
Lemma ComputeNormalDirection_cross_product_witness :
  let v1 := D3 0 0 0 in
  let v2 := D3 1 0 0 in
  let v3 := D3 0 1 0 in
  ComputeNormalDirection_exact v1 v2 v3 = true
  /\ Qeq3 (value3 (ComputeNormalDirection v1 v2 v3)) (0, 0, 1)%Q
  /\ ComputeNormalDirection v1 v2 v3 = D3 0 0 1
  /\ ComputeNormalDirection v3 v2 v1 = D3 0 0 (-1).
Proof.
  intros v1 v2 v3.
  assert (E : ComputeNormalDirection_exact v1 v2 v3 = true) by reflexivity.
  split; [exact E |]. split; [| split; reflexivity].
  eapply Qeq3_trans.
  - exact (proj2 (proj2 (proj1 (proj2
             (ComputeNormalDirection_cross_product v1 v2 v3)) E))).
  - vm_compute. repeat split.
Defined.

(** The claim C7 as stated fails on (1,1,0), (1e17,0,0), (0,1,0): the
    difference [1 - 1e17] rounds to [-1e17], and the function returns
    (0,0,0) where the cross product of the edge vectors is (0,0,-1).  The
    same triangle taken from its second vertex, a cyclic renumbering that
    keeps the winding, gives (0,0,-1). *)
Lemma ComputeNormalDirection_rounded :
  let v1 := D3 1 1 0 in
  let v2 := D3 1e17 0 0 in
  let v3 := D3 0 1 0 in
  finite3 v1 = true /\ finite3 v2 = true /\ finite3 v3 = true
  /\ Qeq3 (Qcross (Qsub3 (value3 v3) (value3 v2))
                  (Qsub3 (value3 v1) (value3 v2))) (0, 0, -1)%Q
  /\ ComputeNormalDirection v1 v2 v3 = D3 0 0 0
  /\ ~ Qeq3 (value3 (ComputeNormalDirection v1 v2 v3))
            (Qcross (Qsub3 (value3 v3) (value3 v2))
                    (Qsub3 (value3 v1) (value3 v2)))
  /\ ComputeNormalDirection v2 v3 v1 = D3 0 0 (-1).
Proof.
  intros v1 v2 v3.
  repeat (split; [reflexivity |]).
  split; [vm_compute; repeat split |].
  split; [reflexivity |].
  split; [| reflexivity].
  vm_compute. intros (_ & _ & H). discriminate H.
Qed.

(** C8, amended.  For every triangle, [TriangleArea] is 0.5 times
    [vtkMath::Norm] of the [ComputeNormalDirection] vector, in double
    arithmetic.  For two cyclic orders of the vertices whose normal
    directions are computed without rounding it is the same double, and it
    is 0 for collinear vertices whose normal direction is computed without
    rounding; both hold for vertices whose coordinates are whole numbers of
    magnitude at most 2^24. *)
Theorem TriangleArea_half_norm_cyclic :
  forall p1 p2 p3 : double3,
    TriangleArea p1 p2 p3
    = 0.5 * vtkMath.Norm (ComputeNormalDirection p1 p2 p3)
    /\ (ComputeNormalDirection_exact p1 p2 p3 = true ->
        ComputeNormalDirection_exact p2 p3 p1 = true ->
        TriangleArea p2 p3 p1 = TriangleArea p1 p2 p3)
    /\ (ComputeNormalDirection_exact p1 p2 p3 = true ->
        ComputeNormalDirection_exact p3 p1 p2 = true ->
        TriangleArea p3 p1 p2 = TriangleArea p1 p2 p3)
    /\ (ComputeNormalDirection_exact p1 p2 p3 = true ->
        Qcollinear (value3 p1) (value3 p2) (value3 p3) ->
        TriangleArea p1 p2 p3 = 0)
    /\ (integers_within 24 p1 -> integers_within 24 p2 ->
        integers_within 24 p3 ->
        TriangleArea p2 p3 p1 = TriangleArea p1 p2 p3
        /\ TriangleArea p3 p1 p2 = TriangleArea p1 p2 p3
        /\ (Qcollinear (value3 p1) (value3 p2) (value3 p3) ->
            TriangleArea p1 p2 p3 = 0)).
Proof.
  intros p1 p2 p3.
  split; [reflexivity |]. split; [apply TriangleArea_exact_cyclic |].
  split; [| split].
  - intros E E'. symmetry. apply TriangleArea_exact_cyclic; assumption.
  - apply TriangleArea_exact_collinear.
  - intros I1 I2 I3.
    pose proof (ComputeNormalDirection_integers p1 p2 p3 I1 I2 I3) as E1.
    pose proof (ComputeNormalDirection_integers p2 p3 p1 I2 I3 I1) as E2.
    pose proof (ComputeNormalDirection_integers p3 p1 p2 I3 I1 I2) as E3.
    split; [apply TriangleArea_exact_cyclic; assumption |].
    split; [symmetry; apply TriangleArea_exact_cyclic; assumption |].
    apply TriangleArea_exact_collinear. exact E1.
Qed.

(** C8 on the right triangle (0,0,0), (3,0,0), (0,4,0), whose coordinates
    are whole numbers: the area is 6 from the second vertex as from the
    first. *)
Lemma TriangleArea_half_norm_cyclic_witness :
  let p1 := D3 0 0 0 in
  let p2 := D3 3 0 0 in
  let p3 := D3 0 4 0 in
  TriangleArea p2 p3 p1 = TriangleArea p1 p2 p3
  /\ TriangleArea p1 p2 p3 = 6.
Proof.
  intros p1 p2 p3. split; [| reflexivity].
  refine (proj1 (proj2 (proj2 (proj2 (proj2
            (TriangleArea_half_norm_cyclic p1 p2 p3)))) _ _ _));
    unfold integers_within; cbn [at0 at1 at2]; repeat split;
    first [reflexivity | whole_number 0%Z | whole_number 3%Z
          | whole_number 4%Z].
Defined.

(** The claim C8 as stated fails twice.  The three cyclic orders of
    (1,1,0), (1e17,0,0), (0,1,0) have the areas 0, 0.5 and 0.5; and the
    points (6,2,0), (-3,-1,0), (3 * 2^52, 2^52, 0) of the line through the
    origin along (3,1,0) have the area 4. *)
Lemma TriangleArea_cyclic_orders_differ :
  let p1 := D3 1 1 0 in
  let p2 := D3 1e17 0 0 in
  let p3 := D3 0 1 0 in
  let q1 := D3 6 2 0 in
  let q2 := D3 (-3) (-1) 0 in
  let q3 := D3 0x1.8p+53 0x1p+52 0 in
  TriangleArea p1 p2 p3 = 0
  /\ TriangleArea p2 p3 p1 = 0.5
  /\ TriangleArea p3 p1 p2 = 0.5
  /\ Qcollinear (value3 q1) (value3 q2) (value3 q3)
  /\ TriangleArea q1 q2 q3 = 4.
Proof.
  intros p1 p2 p3 q1 q2 q3.
  repeat (split; [reflexivity |]).
  split; [| reflexivity].
  exists (0, 0, 0)%Q, (3, 1, 0)%Q, 2%Q, (-1)%Q, (4503599627370496 # 1)%Q.
  vm_compute. repeat split.
Qed.

(** C6, amended.  [ComputeNormal] never divides by zero: it always returns,
    the division being guarded by [length != 0.0], where [length] is the
    double norm of the computed [ComputeNormalDirection] vector.  When the
    computed [length] is 0 the output is that vector as it is; it is the
    zero vector whenever that vector is zero, which it is for every
    collinear triangle whose normal direction is computed without rounding,
    such as one whose coordinates are whole numbers of magnitude at most
    2^24.  Otherwise the output is that vector divided, component by
    component, by the computed [length]. *)
Theorem ComputeNormal_degenerate_guard :
  forall v1 v2 v3 : double3,
    let d := ComputeNormalDirection v1 v2 v3 in
    let length := sqrt (at0 d * at0 d + at1 d * at1 d + at2 d * at2 d) in
    (exists n, ComputeNormal v1 v2 v3 = Some n)
    /\ ((length =? 0) = true -> ComputeNormal v1 v2 v3 = Some d)
    /\ ((length =? 0) = false ->
        ComputeNormal v1 v2 v3
        = Some (D3 (at0 d / length) (at1 d / length) (at2 d / length)))
    /\ (is_zero3 d = true -> ComputeNormal v1 v2 v3 = Some d)
    /\ (ComputeNormalDirection_exact v1 v2 v3 = true ->
        Qcollinear (value3 v1) (value3 v2) (value3 v3) ->
        is_zero3 d = true /\ ComputeNormal v1 v2 v3 = Some d)
    /\ (integers_within 24 v1 -> integers_within 24 v2 ->
        integers_within 24 v3 ->
        Qcollinear (value3 v1) (value3 v2) (value3 v3) ->
        is_zero3 d = true /\ ComputeNormal v1 v2 v3 = Some d).
Proof.
  intros v1 v2 v3 d length.
  pose proof (ComputeNormal_cases v1 v2 v3) as C. cbv zeta in C.
  fold d in C. fold length in C.
  assert (Col : ComputeNormalDirection_exact v1 v2 v3 = true ->
                Qcollinear (value3 v1) (value3 v2) (value3 v3) ->
                is_zero3 d = true /\ ComputeNormal v1 v2 v3 = Some d).
  { intros E Q. pose proof (exact_collinear_zero v1 v2 v3 E Q) as Z.
    split; [exact Z | apply ComputeNormal_zero_direction; exact Z]. }
  split; [destruct (length =? 0); rewrite C; eexists; reflexivity |].
  split; [intros L; rewrite C, L; reflexivity |].
  split; [intros L; rewrite C, L; reflexivity |].
  split; [apply ComputeNormal_zero_direction |].
  split; [exact Col |].
  intros I1 I2 I3. apply Col.
  apply ComputeNormalDirection_integers; assumption.
Qed.

(** C6 on three points of the diagonal of the unit cube, where nothing
    rounds and the output is the zero vector, and on the triangle (0,0,0),
    (1,0,0), (0,1,0), whose normal is (0,0,1). *)
Lemma ComputeNormal_degenerate_guard_witness :
  let v1 := D3 0 0 0 in
  let v2 := D3 1 1 1 in
  let v3 := D3 2 2 2 in
  ComputeNormalDirection_exact v1 v2 v3 = true
  /\ Qcollinear (value3 v1) (value3 v2) (value3 v3)
  /\ ComputeNormal v1 v2 v3 = Some (D3 0 0 0)
  /\ ComputeNormal (D3 0 0 0) (D3 1 0 0) (D3 0 1 0) = Some (D3 0 0 1).
Proof.
  intros v1 v2 v3.
  assert (E : ComputeNormalDirection_exact v1 v2 v3 = true) by reflexivity.
  assert (C : Qcollinear (value3 v1) (value3 v2) (value3 v3)).
  { exists (0, 0, 0)%Q, (1, 1, 1)%Q, 0%Q, 1%Q, 2%Q. vm_compute. repeat split. }
  split; [exact E |]. split; [exact C |]. split; [| reflexivity].
  exact (proj2 (proj1 (proj2 (proj2 (proj2 (proj2
           (ComputeNormal_degenerate_guard v1 v2 v3))))) E C)).
Defined.

(** The claim C6 as stated fails both ways.  The collinear points (6,2,0),
    (-3,-1,0), (3 * 2^52, 2^52, 0) get the unit vector (0,0,1), two
    products having rounded apart.  The triangle (2^-400,0,0), (0,0,0),
    (0,2^-400,0), which is not degenerate, gets (0,0,-2^-800): the square
    of that component underflows to 0, so [length] is 0 and nothing is
    scaled to unit length. *)
Lemma ComputeNormal_collinear_unit :
  let q1 := D3 6 2 0 in
  let q2 := D3 (-3) (-1) 0 in
  let q3 := D3 0x1.8p+53 0x1p+52 0 in
  let r1 := D3 0x1p-400 0 0 in
  let r2 := D3 0 0 0 in
  let r3 := D3 0 0x1p-400 0 in
  Qcollinear (value3 q1) (value3 q2) (value3 q3)
  /\ ComputeNormal q1 q2 q3 = Some (D3 0 0 1)
  /\ ~ Qcollinear (value3 r1) (value3 r2) (value3 r3)
  /\ ComputeNormal r1 r2 r3 = Some (D3 0 0 (-0x1p-800)).
Proof.
  intros q1 q2 q3 r1 r2 r3.
  split.
  { exists (0, 0, 0)%Q, (3, 1, 0)%Q, 2%Q, (-1)%Q, (4503599627370496 # 1)%Q.
    vm_compute. repeat split. }
  split; [reflexivity |]. split; [| reflexivity].
  intros C. apply Qcollinear_cross in C. vm_compute in C.
  destruct C as (_ & _ & C). discriminate C.
Qed.

(** ** Further properties of the inline triangle functions *)

Lemma double_add_comm (x y : float) : x + y = y + x.
Proof.
  apply Prim2SF_inj. rewrite !add_spec. unfold SF64add, SFadd.
  destruct (Prim2SF x) as [[] | [] | | s m e],
    (Prim2SF y) as [[] | [] | | s' m' e']; try reflexivity.
  cbv zeta. rewrite (Z.min_comm e' e).
  set (ez := Z.min e e'). rewrite Z.add_comm. reflexivity.
Qed.

Lemma double_div_opp (x l : float) : (- x) / l = - (x / l).
Proof.
  apply Prim2SF_inj. rewrite opp_spec, !div_spec, opp_spec.
  unfold SF64div, SFdiv.
  destruct (Prim2SF x) as [s | s | | s m e],
    (Prim2SF l) as [s' | s' | | s' m' e']; cbn [SFopp];
    try (destruct s; try destruct s'; reflexivity); try reflexivity.
  destruct (SFdiv_core_binary prec emax (Z.pos m) e (Z.pos m') e')
    as [[mz ez] lz].
  rewrite <- binary_round_aux_negb. destruct s, s'; reflexivity.
Qed.

Lemma div_zero (x l : float) :
  is_zero x = true -> is_zero (x / l) = true \/ x / l = nan.
Proof.
  intros Z. apply double_eqb_zero in Z. unfold is_zero.
  assert (H : exists s, Prim2SF x = S754_zero s)
    by (destruct Z as [-> | ->]; eexists; reflexivity).
  destruct H as [s H].
  assert (D : (exists s', Prim2SF (x / l) = S754_zero s')
              \/ Prim2SF (x / l) = S754_nan).
  { rewrite div_spec, H. unfold SF64div, SFdiv.
    destruct (Prim2SF l) as [s' | s' | | s' m' e'];
      [right | left | right | left]; try reflexivity; eexists; reflexivity. }
  destruct D as [[s' D] | D].
  - left. apply double_eqb_zero. exact (Prim2SF_zero _ _ D).
  - right. apply Prim2SF_inj. exact D.
Qed.

Lemma div_zero_nan (x y l : float) :
  is_zero x = true -> is_zero y = true -> x / l = nan -> y / l = nan.
Proof.
  intros Zx Zy N. apply double_eqb_zero in Zx, Zy.
  assert (Hx : exists s, Prim2SF x = S754_zero s)
    by (destruct Zx as [-> | ->]; eexists; reflexivity).
  assert (Hy : exists s, Prim2SF y = S754_zero s)
    by (destruct Zy as [-> | ->]; eexists; reflexivity).
  destruct Hx as [s Hx], Hy as [s' Hy].
  apply (f_equal Prim2SF) in N. rewrite div_spec, Hx in N.
  apply Prim2SF_inj. rewrite div_spec, Hy.
  change (Prim2SF nan) with S754_nan in *.
  unfold SF64div, SFdiv in *.
  destruct (Prim2SF l) as [t | t | | t m e]; try reflexivity;
    discriminate N.
Qed.

Lemma opposite_div (x y l : float) :
  opposite x y -> opposite (x / l) (y / l).
Proof.
  intros [-> | [Zx Zy]]; [left; apply double_div_opp |].
  destruct (div_zero x l Zx) as [Z | N].
  - destruct (div_zero y l Zy) as [Z' | N'].
    + right. split; assumption.
    + rewrite (div_zero_nan y x l Zy Zx N') in Z. discriminate Z.
  - left. rewrite N, (div_zero_nan x y l Zx Zy N). reflexivity.
Qed.

Lemma opposite_is_zero (x y : float) :
  opposite x y -> is_zero y = is_zero x.
Proof.
  intros [-> | [Zx Zy]]; [| congruence].
  unfold is_zero. rewrite !eqb_spec, opp_spec.
  destruct (Prim2SF x) as [[] | [] | | [] m e]; reflexivity.
Qed.

(** A square root and its half are never below zero. *)

Lemma sqrt_not_negative (x : float) : (sqrt x <? 0) = false.
Proof.
  rewrite ltb_spec, sqrt_spec. unfold SF64sqrt, SFsqrt.
  change (Prim2SF 0) with (S754_zero false).
  destruct (Prim2SF x) as [s | [] | | [] m e]; try reflexivity.
  destruct (SFsqrt_core_binary prec emax (Z.pos m) e) as [[mz ez] lz].
  unfold binary_round_aux.
  destruct (shr_fexp prec emax mz ez lz) as [mrs e1].
  destruct (shr_fexp prec emax _ e1 loc_Exact) as [mrs' e2].
  destruct (shr_m mrs'); try reflexivity.
  destruct (Z.leb e2 (emax - prec)); reflexivity.
Qed.

Lemma half_not_negative (x : float) :
  (x <? 0) = false -> (0.5 * x <? 0) = false.
Proof.
  rewrite !ltb_spec, mul_spec.
  change (Prim2SF 0) with (S754_zero false).
  change (Prim2SF 0.5) with (S754_finite false 4503599627370496 (-53)).
  unfold SF64mul, SFmul.
  destruct (Prim2SF x) as [s | [] | | [] m e]; try reflexivity;
    try discriminate.
  intros _. cbn [xorb]. unfold binary_round_aux.
  destruct (shr_fexp prec emax _ _ loc_Exact) as [mrs e1].
  destruct (shr_fexp prec emax _ e1 loc_Exact) as [mrs' e2].
  destruct (shr_m mrs'); try reflexivity.
  destruct (Z.leb e2 (emax - prec)); reflexivity.
Qed.

(** X4.  For every triangle, rounding or not, [TriangleArea] is the same
    double for the reversed winding (p3,p2,p1), and it is never below
    zero. *)
Theorem TriangleArea_winding :
  forall p1 p2 p3 : double3,
    TriangleArea p3 p2 p1 = TriangleArea p1 p2 p3
    /\ (TriangleArea p1 p2 p3 <? 0) = false.
Proof.
  intros p1 p2 p3. split.
  - unfold TriangleArea. f_equal.
    destruct (ComputeNormalDirection_reversed p1 p2 p3) as (O0 & O1 & O2).
    apply Norm_squares; apply opposite_square; assumption.
  - unfold TriangleArea. apply half_not_negative. apply sqrt_not_negative.
Qed.

(** X1.  For every triangle, rounding or not, [ComputeNormal] returns for
    the reversed winding (v3,v2,v1) the opposite of what it returns for
    (v1,v2,v3), component by component. *)
Theorem ComputeNormal_winding :
  forall v1 v2 v3 : double3,
    exists n n' : double3,
      ComputeNormal v1 v2 v3 = Some n
      /\ ComputeNormal v3 v2 v1 = Some n'
      /\ opposite3 n n'.
Proof.
  intros v1 v2 v3.
  pose proof (ComputeNormal_cases v1 v2 v3) as C.
  pose proof (ComputeNormal_cases v3 v2 v1) as C'.
  cbv zeta in C, C'.
  destruct (ComputeNormalDirection_reversed v1 v2 v3) as (O0 & O1 & O2).
  rewrite (opposite_square _ _ O0), (opposite_square _ _ O1),
    (opposite_square _ _ O2) in C'.
  destruct (ComputeNormalDirection v1 v2 v3) as [n0 n1 n2],
    (ComputeNormalDirection v3 v2 v1) as [m0 m1 m2].
  cbn [at0 at1 at2] in *.
  destruct (sqrt (n0 * n0 + n1 * n1 + n2 * n2) =? 0);
    eexists _, _; (split; [exact C |]); (split; [exact C' |]);
    unfold opposite3; cbn [at0 at1 at2];
    repeat split; try assumption; apply opposite_div; assumption.
Qed.

(** X3.  For vertices whose coordinates are whole numbers of magnitude at
    most 2^24, [ComputeNormalDirection] returns exactly the cross product
    (p3 - p2) x (p1 - p2), and the two other cyclic orders of the vertices
    return the same exact vector. *)
Theorem ComputeNormalDirection_whole_numbers :
  forall v1 v2 v3 : double3,
    integers_within 24 v1 -> integers_within 24 v2 ->
    integers_within 24 v3 ->
    Qeq3 (value3 (ComputeNormalDirection v1 v2 v3))
         (Qcross (Qsub3 (value3 v3) (value3 v2))
                 (Qsub3 (value3 v1) (value3 v2)))
    /\ Qeq3 (value3 (ComputeNormalDirection v2 v3 v1))
            (value3 (ComputeNormalDirection v1 v2 v3))
    /\ Qeq3 (value3 (ComputeNormalDirection v3 v1 v2))
            (value3 (ComputeNormalDirection v1 v2 v3)).
Proof.
  intros v1 v2 v3 I1 I2 I3.
  destruct (ComputeNormalDirection_exact_value v1 v2 v3
              (ComputeNormalDirection_integers v1 v2 v3 I1 I2 I3)) as [_ V1].
  destruct (ComputeNormalDirection_exact_value v2 v3 v1
              (ComputeNormalDirection_integers v2 v3 v1 I2 I3 I1)) as [_ V2].
  destruct (ComputeNormalDirection_exact_value v3 v1 v2
              (ComputeNormalDirection_integers v3 v1 v2 I3 I1 I2)) as [_ V3].
  split; [exact V1 |].
  pose proof (Qeq3_trans _ _ _ V2
                (Qcross_cyclic (value3 v1) (value3 v2) (value3 v3))) as S2.
  split; [exact (Qeq3_trans _ _ _ S2 (Qeq3_sym _ _ V1)) |].
  pose proof (Qeq3_trans _ _ _ V3
                (Qeq3_trans _ _ _
                   (Qcross_cyclic (value3 v2) (value3 v3) (value3 v1))
                   (Qcross_cyclic (value3 v1) (value3 v2) (value3 v3))))
    as S3.
  exact (Qeq3_trans _ _ _ S3 (Qeq3_sym _ _ V1)).
Qed.

(** X3 on the right triangle (0,0,0), (3,0,0), (0,4,0): the normal direction
    is (0,0,12) from every vertex. *)
Lemma ComputeNormalDirection_whole_numbers_witness :
  let v1 := D3 0 0 0 in
  let v2 := D3 3 0 0 in
  let v3 := D3 0 4 0 in
  Qeq3 (value3 (ComputeNormalDirection v2 v3 v1))
       (value3 (ComputeNormalDirection v1 v2 v3))
  /\ ComputeNormalDirection v1 v2 v3 = D3 0 0 12.
Proof.
  intros v1 v2 v3. split; [| reflexivity].
  refine (proj1 (proj2 (ComputeNormalDirection_whole_numbers v1 v2 v3 _ _ _)));
    unfold integers_within; cbn [at0 at1 at2]; repeat split;
    first [reflexivity | whole_number 0%Z | whole_number 3%Z
          | whole_number 4%Z].
Defined.

(** X2.  For every triangle, rounding or not, [TriangleCenter] is the same
    for (p2,p1,p3) as for (p1,p2,p3): the sum is taken from the left, and
    the addition of two doubles commutes. *)
Theorem TriangleCenter_first_two :
  forall p1 p2 p3 : double3,
    TriangleCenter p2 p1 p3 = TriangleCenter p1 p2 p3.
Proof.
  intros p1 p2 p3. unfold TriangleCenter.
  rewrite (double_add_comm (get3 p2 0)), (double_add_comm (get3 p2 1)),
    (double_add_comm (get3 p2 2)). reflexivity.
Qed.

(** The place of the third vertex matters: for the x coordinates 3 * 2^53,
    1.5 and 1.5 the centre is at 2^53, and at 2^53 + 2 when the large
    coordinate is added last. *)
Example TriangleCenter_order :
  TriangleCenter (D3 0x1.8p+54 0 0) (D3 1.5 0 0) (D3 1.5 0 0)
  = D3 0x1p+53 0 0
  /\ TriangleCenter (D3 1.5 0 0) (D3 1.5 0 0) (D3 0x1.8p+54 0 0)
     = D3 0x1.0000000000001p+53 0 0.
Proof. split; reflexivity. Qed.

(** ** The specification's scenario of the degenerate triangle *)

Lemma double_sub_diag (x : float) : finite x = true -> x - x = 0.
Proof.
  unfold finite. intros F. apply Prim2SF_inj. rewrite sub_spec.
  change (Prim2SF 0) with (S754_zero false). unfold SF64sub, SFsub.
  destruct (Prim2SF x) as [[] | s | | s m e]; try discriminate F;
    try reflexivity.
  cbv zeta. rewrite Z.sub_diag. reflexivity.
Qed.

(** "degenerate triangle with p1==p2==p3 -- ComputeArea returns 0", and the
    normal is the zero vector, for a point whose coordinates are numbers. *)
Example scenario_degenerate_triangle (p : double3) :
  finite3 p = true ->
  TriangleArea p p p = 0
  /\ ComputeNormal p p p = Some (D3 0 0 0).
Proof.
  unfold finite3. intros F.
  apply andb_true_iff in F. destruct F as [F F2].
  apply andb_true_iff in F. destruct F as [F0 F1].
  assert (Z : ComputeNormalDirection p p p = D3 0 0 0).
  { unfold ComputeNormalDirection. cbn [get3].
    rewrite (double_sub_diag _ F0), (double_sub_diag _ F1),
      (double_sub_diag _ F2). reflexivity. }
  split.
  - unfold TriangleArea. rewrite Z. reflexivity.
  - rewrite ComputeNormal_zero_direction; rewrite Z; reflexivity.
Qed.

End Binary64_facts.

(** * The Cocoa render window *)

Import vtkCocoaRenderWindow.
Import Stdlib.Strings.String Stdlib.Lists.List Stdlib.Bool.Bool.
Import ListNotations.

Local Open Scope Z_scope.

(** ** Pointers and dictionaries *)

Lemma nonnull_true (p : ptr) : nonnull p = true <-> p <> nullptr.
Proof. unfold nonnull. rewrite negb_true_iff, N.eqb_neq. reflexivity. Qed.

Lemma nonnull_false (p : ptr) : nonnull p = false <-> p = nullptr.
Proof. unfold nonnull. rewrite negb_false_iff, N.eqb_eq. reflexivity. Qed.

Lemma retain_world (p : ptr) (W : World) :
  currentContext (retain p W) = currentContext W
  /\ dictionaries (retain p W) = dictionaries W
  /\ observers (retain p W) = observers W
  /\ events (retain p W) = events W
  /\ frame (retain p W) = frame W.
Proof.
  destruct W. unfold retain. destruct (nonnull p); repeat split; reflexivity.
Qed.

Lemma release_world (p : ptr) (W : World) :
  currentContext (release p W) = currentContext W
  /\ dictionaries (release p W) = dictionaries W
  /\ observers (release p W) = observers W
  /\ events (release p W) = events W
  /\ frame (release p W) = frame W.
Proof.
  destruct W. unfold release. destruct (nonnull p); repeat split; reflexivity.
Qed.

Lemma retainCount_retain (p : ptr) (W : World) (a : ptr) :
  retainCount (retain p W) a = retainCount W a + held p a.
Proof.
  destruct W. unfold retain, held.
  destruct (nonnull p); cbn [andb with_retainCount retainCount];
    [destruct (N.eqb a p) |]; lia.
Qed.

Lemma retainCount_release (p : ptr) (W : World) (a : ptr) :
  retainCount (release p W) a = retainCount W a - held p a.
Proof.
  destruct W. unfold release, held.
  destruct (nonnull p); cbn [andb with_retainCount retainCount];
    [destruct (N.eqb a p) |]; lia.
Qed.

Lemma release_nullptr (W : World) : release nullptr W = W.
Proof. reflexivity. Qed.

Lemma objectForKey_setObjectForKey
    (W : World) (m v : ptr) (k : string) (m' : ptr) (k' : string) :
  objectForKey (setObjectForKey W m v k) m' k'
  = if (nonnull m && N.eqb m m' && String.eqb k' k)%bool
    then v
    else objectForKey W m' k'.
Proof.
  unfold objectForKey, setObjectForKey.
  destruct (nonnull m) eqn:M; cbn [andb]; [| reflexivity].
  rewrite (proj1 (proj2 (release_world _ _))).
  generalize (proj1 (proj2 (retain_world v W))).
  destruct (retain v W) as [c d r o e f b sc ms]. destruct W.
  cbn [with_dictionaries dictionaries]. intros ->.
  destruct (nonnull m') eqn:M'.
  - rewrite (N.eqb_sym m' m). destruct (N.eqb m m'); cbn [andb];
      [| reflexivity].
    unfold setObject. destruct (String.eqb k' k); reflexivity.
  - destruct (N.eqb m m') eqn:E; cbn [andb]; [| reflexivity].
    apply N.eqb_eq in E. subst m'. congruence.
Qed.

Lemma objectForKey_removeObjectForKey
    (W : World) (m : ptr) (k : string) (m' : ptr) (k' : string) :
  objectForKey (removeObjectForKey W m k) m' k'
  = if (nonnull m && N.eqb m m' && String.eqb k' k)%bool
    then nullptr
    else objectForKey W m' k'.
Proof.
  unfold objectForKey, removeObjectForKey.
  destruct (nonnull m) eqn:M; cbn [andb]; [| reflexivity].
  rewrite (proj1 (proj2 (release_world _ _))).
  destruct W. cbn [with_dictionaries dictionaries].
  destruct (nonnull m') eqn:M'.
  - rewrite (N.eqb_sym m' m). destruct (N.eqb m m'); cbn [andb];
      [| reflexivity].
    unfold removeObject. destruct (String.eqb k' k); reflexivity.
  - destruct (N.eqb m m'); cbn [andb]; [| reflexivity].
    destruct (String.eqb k' k); reflexivity.
Qed.

(** The key under which each accessor pair keeps its entry. *)
Lemma GetSlot_objectForKey (s : Slot) (W : World) (w : Window) :
  GetSlot s W w
  = objectForKey W (CocoaManager w)
      (match s with
       | RootWindow => "RootWindow"
       | WindowId => "WindowId"
       | ParentId => "ParentId"
       | ContextId => "ContextId"
       | PixelFormat => "PixelFormat"
       | CocoaServer => "CocoaServer"
       end).
Proof. destruct s; reflexivity. Qed.

Lemma with_dictionaries_world (d : ptr -> Dictionary) (W : World) :
  currentContext (with_dictionaries d W) = currentContext W
  /\ retainCount (with_dictionaries d W) = retainCount W
  /\ observers (with_dictionaries d W) = observers W
  /\ events (with_dictionaries d W) = events W
  /\ frame (with_dictionaries d W) = frame W.
Proof. destruct W. repeat split; reflexivity. Qed.

Lemma held_nullptr (a : ptr) : held nullptr a = 0.
Proof. reflexivity. Qed.

Lemma setObjectForKey_world (W : World) (m v : ptr) (k : string) :
  currentContext (setObjectForKey W m v k) = currentContext W
  /\ (forall a,
        retainCount (setObjectForKey W m v k) a
        = retainCount W a
          + (if nonnull m then held v a - held (objectForKey W m k) a
             else 0))
  /\ observers (setObjectForKey W m v k) = observers W
  /\ events (setObjectForKey W m v k) = events W
  /\ frame (setObjectForKey W m v k) = frame W.
Proof.
  unfold setObjectForKey, objectForKey.
  destruct (nonnull m); [| repeat split; intros; lia].
  destruct (release_world (dictionaries W m k)
              (with_dictionaries
                 (fun a => if N.eqb a m
                           then setObject (dictionaries (retain v W) a) v k
                           else dictionaries (retain v W) a) (retain v W)))
    as (R1 & _ & R3 & R4 & R5).
  destruct (with_dictionaries_world
              (fun a => if N.eqb a m
                        then setObject (dictionaries (retain v W) a) v k
                        else dictionaries (retain v W) a) (retain v W))
    as (D1 & D2 & D3 & D4 & D5).
  destruct (retain_world v W) as (T1 & _ & T3 & T4 & T5).
  repeat split; try congruence.
  intros a. rewrite retainCount_release, D2, retainCount_retain. lia.
Qed.

Lemma removeObjectForKey_world (W : World) (m : ptr) (k : string) :
  currentContext (removeObjectForKey W m k) = currentContext W
  /\ (forall a,
        retainCount (removeObjectForKey W m k) a
        = retainCount W a
          + (if nonnull m then - held (objectForKey W m k) a else 0))
  /\ observers (removeObjectForKey W m k) = observers W
  /\ events (removeObjectForKey W m k) = events W
  /\ frame (removeObjectForKey W m k) = frame W.
Proof.
  unfold removeObjectForKey, objectForKey.
  destruct (nonnull m); [| repeat split; intros; lia].
  destruct (release_world (dictionaries W m k)
              (with_dictionaries
                 (fun a => if N.eqb a m
                           then removeObject (dictionaries W a) k
                           else dictionaries W a) W))
    as (R1 & _ & R3 & R4 & R5).
  destruct (with_dictionaries_world
              (fun a => if N.eqb a m
                        then removeObject (dictionaries W a) k
                        else dictionaries W a) W)
    as (D1 & D2 & D3 & D4 & D5).
  repeat split; try congruence.
  intros a. rewrite retainCount_release, D2. lia.
Qed.

(** A setter moves the manager's reference from the object the entry held
    to the object it holds now, and leaves the rest of the world alone. *)
Lemma SetSlot_world (s : Slot) (arg : ptr) (W : World) (w : Window) :
  currentContext (SetSlot s arg W w) = currentContext W
  /\ (forall a,
        retainCount (SetSlot s arg W w) a
        = retainCount W a
          + (if nonnull (CocoaManager w)
             then held arg a - held (GetSlot s W w) a
             else 0))
  /\ observers (SetSlot s arg W w) = observers W
  /\ events (SetSlot s arg W w) = events W.
Proof.
  rewrite GetSlot_objectForKey.
  destruct (nonnull arg) eqn:A.
  - destruct s; unfold SetSlot, SetRootWindow, SetWindowId, SetParentId,
      SetContextId, SetPixelFormat, SetCocoaServer, GetCocoaManager;
      rewrite A;
      match goal with
      | |- context [setObjectForKey ?W ?m ?v ?k] =>
          destruct (setObjectForKey_world W m v k) as (H1 & H2 & H3 & H4 & _)
      end; repeat split; assumption.
  - apply nonnull_false in A. subst arg.
    destruct s; unfold SetSlot, SetRootWindow, SetWindowId, SetParentId,
      SetContextId, SetPixelFormat, SetCocoaServer, GetCocoaManager;
      cbn [nonnull N.eqb nullptr negb];
      match goal with
      | |- context [removeObjectForKey ?W ?m ?k] =>
          destruct (removeObjectForKey_world W m k) as (H1 & H2 & H3 & H4 & _)
      end; repeat split; try assumption;
      intros a; rewrite H2; change (held 0%N a) with 0;
      destruct (negb (N.eqb (CocoaManager w) 0)); lia.
Qed.

Lemma SetSlot_frame (s : Slot) (arg : ptr) (W : World) (w : Window) :
  frame (SetSlot s arg W w) = frame W.
Proof.
  destruct s; unfold SetSlot, SetRootWindow, SetWindowId, SetParentId,
    SetContextId, SetPixelFormat, SetCocoaServer;
    destruct (nonnull arg);
    first [apply setObjectForKey_world | apply removeObjectForKey_world].
Qed.

Lemma GetSlot_SetSlot
    (s s' : Slot) (arg : ptr) (W : World) (w1 w2 : Window) :
  GetSlot s' (SetSlot s arg W w1) w2
  = (if (nonnull (CocoaManager w1)
         && N.eqb (CocoaManager w1) (CocoaManager w2)
         && Slot_eqb s s')%bool
     then arg
     else GetSlot s' W w2).
Proof.
  rewrite !GetSlot_objectForKey.
  destruct (nonnull arg) eqn:A.
  - destruct s; unfold SetSlot, SetRootWindow, SetWindowId, SetParentId,
      SetContextId, SetPixelFormat, SetCocoaServer, GetCocoaManager;
      rewrite A, objectForKey_setObjectForKey;
      destruct s'; cbn [String.eqb Ascii.eqb Bool.eqb Slot_eqb];
      rewrite ?andb_true_r, ?andb_false_r; reflexivity.
  - apply nonnull_false in A. subst arg.
    destruct s; unfold SetSlot, SetRootWindow, SetWindowId, SetParentId,
      SetContextId, SetPixelFormat, SetCocoaServer, GetCocoaManager;
      cbn [nonnull N.eqb nullptr negb];
      rewrite objectForKey_removeObjectForKey;
      destruct s'; cbn [String.eqb Ascii.eqb Bool.eqb Slot_eqb];
      rewrite ?andb_true_r, ?andb_false_r; reflexivity.
Qed.

Lemma GetSlot_no_manager (s : Slot) (W : World) (w : Window) :
  CocoaManager w = nullptr -> GetSlot s W w = nullptr.
Proof.
  intros E. rewrite GetSlot_objectForKey. unfold objectForKey.
  rewrite E. reflexivity.
Qed.

(** X5.  What one window stores with any of the six setters is what the
    matching getter returns, for this window and for every window that
    shares its Cocoa manager; storing [nullptr] removes the entry, so the
    getter returns [nullptr].  The other five entries, the entries of
    windows with another manager, the current context, the observations and
    the log are left alone.  The manager's reference moves with the entry:
    the object stored has one reference more, the object the entry held
    before has one fewer, and every other count is as it was.  A window
    without a manager stores nothing, takes no reference and reads
    [nullptr]. *)
Theorem manager_accessors_round_trip :
  forall (s s' : Slot) (arg : ptr) (W : World) (w1 w2 : Window),
    GetSlot s' (SetSlot s arg W w1) w2
    = (if (nonnull (CocoaManager w1)
           && N.eqb (CocoaManager w1) (CocoaManager w2)
           && Slot_eqb s s')%bool
       then arg
       else GetSlot s' W w2)
    /\ (CocoaManager w2 = nullptr -> GetSlot s' W w2 = nullptr)
    /\ currentContext (SetSlot s arg W w1) = currentContext W
    /\ (forall a,
          retainCount (SetSlot s arg W w1) a
          = retainCount W a
            + (if nonnull (CocoaManager w1)
               then held arg a - held (GetSlot s W w1) a
               else 0))
    /\ observers (SetSlot s arg W w1) = observers W
    /\ events (SetSlot s arg W w1) = events W.
Proof.
  intros s s' arg W w1 w2.
  split; [apply GetSlot_SetSlot |].
  split; [apply GetSlot_no_manager | apply SetSlot_world].
Qed.

(** X5 on the window the constructor builds around a dictionary at address
    7: a view stored as [WindowId] is read back, and the blank window, which
    has no manager, reads [nullptr]. *)
Lemma manager_accessors_round_trip_witness :
  (let '(W, w) := Constructor 7%N blankWorld blankWindow in
   GetSlot WindowId (SetSlot WindowId 42%N W w) w = 42%N)
  /\ GetSlot WindowId blankWorld blankWindow = nullptr.
Proof.
  split.
  - assert (M : CocoaManager (snd (Constructor 7%N blankWorld blankWindow))
                = 7%N) by reflexivity.
    destruct (Constructor 7%N blankWorld blankWindow) as [W w].
    cbn [snd] in M.
    rewrite (proj1 (manager_accessors_round_trip WindowId WindowId 42%N W w w)).
    now rewrite M.
  - exact (proj1 (proj2 (manager_accessors_round_trip WindowId WindowId 42%N
                           blankWorld blankWindow blankWindow)) eq_refl).
Defined.

(** ** The retain held on the Cocoa manager *)

Lemma SetCocoaManager_step
    (m : ptr) (W : World) (w : Window) (a : ptr) :
  retainCount (fst (SetCocoaManager m W w)) a
  = retainCount W a
    + (if (nonnull m && N.eqb a m)%bool then 1 else 0)
    - (if (nonnull (CocoaManager w) && N.eqb a (CocoaManager w))%bool
       then 1 else 0)
  /\ CocoaManager (snd (SetCocoaManager m W w)) = m
  /\ dictionaries (fst (SetCocoaManager m W w)) = dictionaries W
  /\ currentContext (fst (SetCocoaManager m W w)) = currentContext W
  /\ events (fst (SetCocoaManager m W w)) = events W.
Proof.
  destruct W as [c d r o e f b sc ms], w. unfold SetCocoaManager.
  cbn [CocoaManager].
  destruct (N.eqb CocoaManager0 m) eqn:E; cbn [negb fst snd].
  - apply N.eqb_eq in E. subst m. cbn [CocoaManager retainCount dictionaries
      currentContext events].
    repeat split. lia.
  - destruct (nonnull CocoaManager0) eqn:C, (nonnull m) eqn:M;
      cbn [fst snd CFRetain CFRelease with_retainCount with_CocoaManager
           retainCount CocoaManager dictionaries currentContext events andb];
      (split; [| repeat split; try reflexivity]).
    all: try (apply nonnull_false in M; subst m; reflexivity).
    all: destruct (N.eqb a m) eqn:Am; destruct (N.eqb a CocoaManager0) eqn:Ac;
      try lia.
    all: apply N.eqb_eq in Am; apply N.eqb_eq in Ac; subst;
      rewrite N.eqb_refl in E; discriminate.
Qed.

Lemma last_cons (A : Type) (rest : list A) (m d : A) :
  last (m :: rest) d = last rest m.
Proof.
  revert m d. induction rest as [| p rest IH]; intros m d; [reflexivity |].
  change (last (m :: p :: rest) d) with (last (p :: rest) d).
  rewrite (IH p d), (IH p m). reflexivity.
Qed.

(** X6.  Through any series of [SetCocoaManager] calls the window holds
    exactly one retain on the manager it ends with and none on those it
    dropped: the retain count of every address is its initial count, plus
    one for the final manager, minus one for the initial one (a null
    manager counting for nothing).  The final manager is the last one set,
    and neither the dictionaries, the current context nor the log change. *)
Theorem SetCocoaManager_retain_balance :
  forall (managers : list ptr) (W : World) (w : Window) (a : ptr),
    let W' := fst (SetCocoaManagers managers W w) in
    let w' := snd (SetCocoaManagers managers W w) in
    retainCount W' a
    = retainCount W a
      + (if (nonnull (CocoaManager w') && N.eqb a (CocoaManager w'))%bool
         then 1 else 0)
      - (if (nonnull (CocoaManager w) && N.eqb a (CocoaManager w))%bool
         then 1 else 0)
    /\ CocoaManager w' = last managers (CocoaManager w)
    /\ dictionaries W' = dictionaries W
    /\ currentContext W' = currentContext W
    /\ events W' = events W.
Proof.
  induction managers as [| m rest IH]; intros W w a.
  - cbn. repeat split. lia.
  - cbn [SetCocoaManagers].
    pose proof (SetCocoaManager_step m W w a) as (R & M & D & C & E).
    destruct (SetCocoaManager m W w) as [W1 w1]. cbn [fst snd] in *.
    specialize (IH W1 w1 a). cbv zeta in IH.
    destruct IH as (R' & M' & D' & C' & E').
    cbv zeta. rewrite R', M', D', C', E', R, M.
    repeat split; try assumption.
    + lia.
    + symmetry. apply last_cons.
Qed.

(** ** The stack of OpenGL contexts *)

Lemma GetContextId_with_ContextStack
    (W : World) (s : list ptr) (w : Window) :
  GetContextId W (with_ContextStack s w) = GetContextId W w.
Proof. destruct w. reflexivity. Qed.

Lemma with_ContextStack_same (w : Window) :
  with_ContextStack (ContextStack w) w = w.
Proof. destruct w. reflexivity. Qed.

Lemma with_ContextStack_twice (s t : list ptr) (w : Window) :
  with_ContextStack s (with_ContextStack t w) = with_ContextStack s w.
Proof. destruct w. reflexivity. Qed.

Lemma ContextStack_with_ContextStack (s : list ptr) (w : Window) :
  ContextStack (with_ContextStack s w) = s.
Proof. destruct w. reflexivity. Qed.

Lemma with_currentContext_same (W : World) :
  with_currentContext (currentContext W) W = W.
Proof. destruct W. reflexivity. Qed.

Lemma with_currentContext_twice (c c' : ptr) (W : World) :
  with_currentContext c (with_currentContext c' W) = with_currentContext c W.
Proof. destruct W. reflexivity. Qed.

Lemma currentContext_with_currentContext (c : ptr) (W : World) :
  currentContext (with_currentContext c W) = c.
Proof. destruct W. reflexivity. Qed.

Lemma GetContextId_with_currentContext (c : ptr) (W : World) (w : Window) :
  GetContextId (with_currentContext c W) w = GetContextId W w.
Proof. destruct W. reflexivity. Qed.

Lemma PushContext_value (W : World) (w : Window) :
  PushContext W w
  = (if (negb (N.eqb (currentContext W) (GetContextId W w))
         && nonnull (GetContextId W w))%bool
     then with_currentContext (GetContextId W w) W
     else W,
     with_ContextStack (currentContext W :: ContextStack w) w).
Proof.
  unfold PushContext, MakeCurrent, makeCurrentContext.
  rewrite GetContextId_with_ContextStack.
  destruct (N.eqb (currentContext W) (GetContextId W w)); cbn [negb andb];
    [reflexivity |].
  destruct (nonnull (GetContextId W w)); reflexivity.
Qed.

(** After a [PushContext] a context is current or the window has none. *)
Lemma PushContext_settled (W : World) (w : Window) :
  let W1 := fst (PushContext W w) in
  let w1 := snd (PushContext W w) in
  (nonnull (currentContext W1) || negb (nonnull (GetContextId W1 w1)))%bool
  = true.
Proof.
  rewrite PushContext_value. cbn [fst snd].
  rewrite GetContextId_with_ContextStack.
  destruct (N.eqb (currentContext W) (GetContextId W w)) eqn:E;
    cbn [negb andb].
  - apply N.eqb_eq in E. rewrite E.
    destruct (nonnull (GetContextId W w)); reflexivity.
  - destruct (nonnull (GetContextId W w)) eqn:M.
    + rewrite currentContext_with_currentContext, M. reflexivity.
    + rewrite M. apply orb_true_r.
Qed.

Lemma PushContext_PopContext (W : World) (w : Window) :
  PopContext (fst (PushContext W w)) (snd (PushContext W w))
  = Some (after_push_pop W w, w).
Proof.
  rewrite PushContext_value. cbn [fst snd]. unfold PopContext, after_push_pop.
  rewrite ContextStack_with_ContextStack, with_ContextStack_twice,
    with_ContextStack_same.
  unfold makeCurrentContext.
  destruct (N.eqb (currentContext W) (GetContextId W w)) eqn:E;
    cbn [negb andb].
  - rewrite N.eqb_refl. cbn [negb]. apply N.eqb_eq in E. rewrite <- E.
    destruct (nonnull (currentContext W)); reflexivity.
  - destruct (nonnull (GetContextId W w)) eqn:M; cbn [negb].
    + rewrite currentContext_with_currentContext, E. cbn [negb].
      destruct (nonnull (currentContext W)) eqn:C; cbn [orb].
      * rewrite with_currentContext_twice, with_currentContext_same.
        reflexivity.
      * reflexivity.
    + rewrite N.eqb_refl. cbn [negb]. rewrite orb_true_r. reflexivity.
Qed.

(** X7.  [PushContext] followed by [PopContext] leaves the window as it
    was, stack included, and makes current again the context that was
    current before -- unless none was current and the window has a context
    of its own, which then stays current, since the [makeCurrentContext]
    sent to the saved [nil] does nothing.  [PopContext] with nothing pushed
    is undefined. *)
Theorem PushContext_PopContext_round_trip :
  forall (W : World) (w : Window),
    PopContext (fst (PushContext W w)) (snd (PushContext W w))
    = Some (after_push_pop W w, w)
    /\ (currentContext W <> nullptr -> after_push_pop W w = W)
    /\ (GetContextId W w = nullptr -> after_push_pop W w = W)
    /\ (currentContext W = nullptr -> GetContextId W w <> nullptr ->
        currentContext (after_push_pop W w) = GetContextId W w)
    /\ (ContextStack w = [] -> PopContext W w = None).
Proof.
  intros W w. split; [apply PushContext_PopContext |].
  unfold after_push_pop. repeat split.
  - intros C. apply nonnull_true in C. rewrite C. reflexivity.
  - intros M. apply nonnull_false in M. rewrite M, orb_true_r. reflexivity.
  - intros C M. apply nonnull_false in C. apply nonnull_true in M.
    rewrite C, M. cbn [orb negb]. apply currentContext_with_currentContext.
  - intros E. unfold PopContext. rewrite E. reflexivity.
Qed.

(** X7 on the window the constructor builds around the dictionary at
    address 7, given the context at address 9, in a world where no context
    is current: after the round trip the window's context is current. *)
Lemma PushContext_PopContext_round_trip_witness :
  let W := fst (Constructor 7%N blankWorld blankWindow) in
  let w := snd (Constructor 7%N blankWorld blankWindow) in
  currentContext (after_push_pop (SetContextId 9%N W w) w) = 9%N.
Proof.
  intros W w.
  refine (proj1 (proj2 (proj2 (proj2
    (PushContext_PopContext_round_trip (SetContextId 9%N W w) w)))) _ _).
  - reflexivity.
  - intros H. vm_compute in H. discriminate H.
Defined.

(** [PopContexts] pops its last context last. *)
Lemma PopContexts_last (n : nat) (W : World) (w : Window) :
  PopContexts (S n) W w
  = match PopContexts n W w with
    | Some (W', w') => PopContext W' w'
    | None => None
    end.
Proof.
  revert W w. induction n as [| n IH]; intros W w.
  - cbn. destruct (PopContext W w) as [[W' w'] |]; reflexivity.
  - change (PopContexts (S (S n)) W w)
      with (match PopContext W w with
            | Some (W', w') => PopContexts (S n) W' w'
            | None => None
            end).
    change (PopContexts (S n) W w)
      with (match PopContext W w with
            | Some (W', w') => PopContexts n W' w'
            | None => None
            end).
    destruct (PopContext W w) as [[W' w'] |]; [apply IH | reflexivity].
Qed.

Lemma PushContexts_S (n : nat) (W : World) (w : Window) :
  PushContexts (S n) W w
  = PushContexts n (fst (PushContext W w)) (snd (PushContext W w)).
Proof. cbn [PushContexts]. destruct (PushContext W w). reflexivity. Qed.

Lemma after_push_pop_settled (W : World) (w : Window) :
  (nonnull (currentContext W) || negb (nonnull (GetContextId W w)))%bool
  = true ->
  after_push_pop W w = W.
Proof. intros H. unfold after_push_pop. rewrite H. reflexivity. Qed.

(** Nested pushes and pops undo each other once a context is current or
    the window has none. *)
Lemma PushContexts_PopContexts_settled (n : nat) (W : World) (w : Window) :
  (nonnull (currentContext W) || negb (nonnull (GetContextId W w)))%bool
  = true ->
  PopContexts n (fst (PushContexts n W w)) (snd (PushContexts n W w))
  = Some (W, w).
Proof.
  revert W w. induction n as [| n IH]; intros W w H; [reflexivity |].
  rewrite PopContexts_last, PushContexts_S.
  rewrite (IH _ _ (PushContext_settled W w)).
  rewrite PushContext_PopContext, (after_push_pop_settled W w H).
  reflexivity.
Qed.

(** X8.  Any number [n >= 1] of nested [PushContext] calls followed by as
    many [PopContext] calls leaves the window as it was and the world as
    one [PushContext]/[PopContext] pair leaves it: no pop meets an empty
    stack, and the context that was current at the start is current again
    whenever there was one. *)
Theorem PushContexts_PopContexts_nested :
  forall (n : nat) (W : World) (w : Window),
    let W' := fst (PushContexts (S n) W w) in
    let w' := snd (PushContexts (S n) W w) in
    PopContexts (S n) W' w' = Some (after_push_pop W w, w)
    /\ length (ContextStack w') = (S n + length (ContextStack w))%nat.
Proof.
  intros n W w. split.
  - rewrite PopContexts_last, PushContexts_S.
    rewrite (PushContexts_PopContexts_settled n _ _ (PushContext_settled W w)).
    apply PushContext_PopContext.
  - clear. revert W w. induction n as [| n IH]; intros W w.
    + cbn [PushContexts]. rewrite PushContext_value. cbn [snd].
      rewrite ContextStack_with_ContextStack. reflexivity.
    + rewrite PushContexts_S, IH, PushContext_value. cbn [snd].
      rewrite ContextStack_with_ContextStack. cbn [length]. lia.
Qed.

(** ** Which context is current *)

Lemma MakeCurrent_value (W : World) (w : Window) :
  MakeCurrent W w
  = if nonnull (GetContextId W w)
    then with_currentContext (GetContextId W w) W
    else W.
Proof.
  unfold MakeCurrent, makeCurrentContext.
  destruct (nonnull (GetContextId W w)); reflexivity.
Qed.

Lemma IsCurrent_MakeCurrent (W : World) (w : Window) :
  IsCurrent (MakeCurrent W w) w = nonnull (GetContextId W w).
Proof.
  rewrite MakeCurrent_value. unfold IsCurrent.
  destruct (nonnull (GetContextId W w)) eqn:M.
  - rewrite GetContextId_with_currentContext, M,
      currentContext_with_currentContext.
    apply N.eqb_refl.
  - rewrite M. reflexivity.
Qed.

(** X9.  After [MakeCurrent], after [PushContext] and after [IsDirect] --
    which is not a pure query: it starts with [MakeCurrent] -- [IsCurrent]
    answers true exactly when the window has a context; a window without
    one never reports itself current and [MakeCurrent] changes nothing for
    it.  [IsDirect] returns 1 exactly when the window has both a context
    and a pixel format, and 0 otherwise. *)
Theorem IsCurrent_after_MakeCurrent :
  forall (W : World) (w : Window),
    IsCurrent (MakeCurrent W w) w = nonnull (GetContextId W w)
    /\ IsCurrent (fst (PushContext W w)) (snd (PushContext W w))
       = nonnull (GetContextId W w)
    /\ IsCurrent (fst (IsDirect W w)) w = nonnull (GetContextId W w)
    /\ snd (IsDirect W w)
       = (if (nonnull (GetContextId W w) && nonnull (GetPixelFormat W w))%bool
          then 1 else 0)
    /\ (GetContextId W w = nullptr ->
        IsCurrent W w = false /\ MakeCurrent W w = W).
Proof.
  intros W w.
  assert (PF : GetPixelFormat (MakeCurrent W w) w = GetPixelFormat W w).
  { rewrite MakeCurrent_value.
    destruct (nonnull (GetContextId W w)); [destruct W |]; reflexivity. }
  assert (CI : GetContextId (MakeCurrent W w) w = GetContextId W w).
  { rewrite MakeCurrent_value.
    destruct (nonnull (GetContextId W w)); [destruct W |]; reflexivity. }
  split; [apply IsCurrent_MakeCurrent |]. split; [| split; [| split]].
  - rewrite PushContext_value. cbn [fst snd]. unfold IsCurrent.
    rewrite GetContextId_with_ContextStack.
    destruct (N.eqb (currentContext W) (GetContextId W w)) eqn:E;
      cbn [negb andb].
    + rewrite ?GetContextId_with_ContextStack, N.eqb_sym, E.
      destruct (nonnull (GetContextId W w)); reflexivity.
    + destruct (nonnull (GetContextId W w)) eqn:M.
      * rewrite ?GetContextId_with_ContextStack,
          GetContextId_with_currentContext, M,
          currentContext_with_currentContext.
        apply N.eqb_refl.
      * rewrite ?GetContextId_with_ContextStack, M. reflexivity.
  - unfold IsDirect. cbv zeta.
    destruct (negb (nonnull (GetContextId (MakeCurrent W w) w))
              || negb (nonnull (GetPixelFormat (MakeCurrent W w) w)))%bool;
      apply IsCurrent_MakeCurrent.
  - unfold IsDirect. cbv zeta. rewrite PF, CI.
    destruct (nonnull (GetContextId W w)), (nonnull (GetPixelFormat W w));
      reflexivity.
  - intros E. unfold IsCurrent. rewrite MakeCurrent_value.
    apply nonnull_false in E. rewrite E. split; reflexivity.
Qed.

(** X9 on the constructed window before any context is created. *)
Lemma IsCurrent_after_MakeCurrent_witness :
  let W := fst (Constructor 7%N blankWorld blankWindow) in
  let w := snd (Constructor 7%N blankWorld blankWindow) in
  IsCurrent W w = false /\ MakeCurrent W w = W.
Proof.
  intros W w.
  exact (proj2 (proj2 (proj2 (proj2 (IsCurrent_after_MakeCurrent W w))))
           eq_refl).
Defined.

(** ** The cursor *)

Lemma CursorCall_step (W : World) (w : Window) :
  (CursorHidden w = 0 \/ CursorHidden w = 1) ->
  ((CursorHidden (snd (HideCursor W w)) = 1
    /\ hideBalance (events (fst (HideCursor W w)))
       = hideBalance (events W) + 1 - CursorHidden w)
   /\ (CursorHidden (snd (ShowCursor W w)) = 0
       /\ hideBalance (events (fst (ShowCursor W w)))
          = hideBalance (events W) - CursorHidden w)).
Proof.
  intros H. destruct W, w. cbn [CursorHidden] in H.
  unfold HideCursor, ShowCursor. cbn [CursorHidden].
  destruct H as [-> | ->]; cbn; repeat split; lia.
Qed.

Lemma CursorCalls_balance :
  forall (calls : list CursorCall) (W : World) (w : Window),
    CursorHidden w = 0 \/ CursorHidden w = 1 ->
    let W' := fst (CursorCalls calls W w) in
    let w' := snd (CursorCalls calls W w) in
    (CursorHidden w' = 0 \/ CursorHidden w' = 1)
    /\ hideBalance (events W') - hideBalance (events W)
       = CursorHidden w' - CursorHidden w.
Proof.
  induction calls as [| c rest IH]; intros W w H.
  - cbn. split; [exact H | lia].
  - destruct (CursorCall_step W w H) as [[Hh Bh] [Hs Bs]].
    destruct c; cbn [CursorCalls].
    + destruct (HideCursor W w) as [W1 w1]. cbn [fst snd] in *.
      destruct (IH W1 w1 (or_intror Hh)) as [F B]. cbv zeta.
      split; [exact F | lia].
    + destruct (ShowCursor W w) as [W1 w1]. cbn [fst snd] in *.
      destruct (IH W1 w1 (or_introl Hs)) as [F B]. cbv zeta.
      split; [exact F | lia].
Qed.

(** X10.  Starting with the cursor flag at 0 or 1, after any series of
    [HideCursor] and [ShowCursor] calls the flag is again 0 or 1 and the
    calls made to [[NSCursor hide]] exceed those made to
    [[NSCursor unhide]] by exactly the change of the flag: hiding a hidden
    cursor and showing a shown one call nothing, so the two Cocoa calls
    alternate. *)
Theorem cursor_calls_balanced :
  forall (calls : list CursorCall) (W : World) (w : Window),
    CursorHidden w = 0 \/ CursorHidden w = 1 ->
    let W' := fst (CursorCalls calls W w) in
    let w' := snd (CursorCalls calls W w) in
    (CursorHidden w' = 0 \/ CursorHidden w' = 1)
    /\ hideBalance (events W') - hideBalance (events W)
       = CursorHidden w' - CursorHidden w.
Proof. exact CursorCalls_balance. Qed.

(** X10 on the constructed window: hide, hide, show, show, hide makes two
    [hide] calls and one [unhide] call. *)
Lemma cursor_calls_balanced_witness :
  let W := fst (Constructor 7%N blankWorld blankWindow) in
  let w := snd (Constructor 7%N blankWorld blankWindow) in
  let calls := [CallHideCursor; CallHideCursor; CallShowCursor;
                CallShowCursor; CallHideCursor] in
  hideBalance (events (fst (CursorCalls calls W w))) - hideBalance (events W)
  = CursorHidden (snd (CursorCalls calls W w)) - CursorHidden w.
Proof.
  intros W w calls.
  exact (proj2 (cursor_calls_balanced calls W w (or_introl eq_refl))).
Defined.

(** ** The observations of the server *)

Lemma GetSlot_clear (s s' : Slot) (W : World) (w : Window) :
  GetSlot s' (SetSlot s nullptr W w) w
  = if Slot_eqb s s' then nullptr else GetSlot s' W w.
Proof.
  rewrite GetSlot_SetSlot, N.eqb_refl, andb_true_r.
  destruct (nonnull (CocoaManager w)) eqn:M; cbn [andb]; [reflexivity |].
  apply nonnull_false in M. rewrite (GetSlot_no_manager s' W w M).
  destruct (Slot_eqb s s'); reflexivity.
Qed.

Lemma GetSlot_ext (s : Slot) (W W' : World) (w w' : Window) :
  dictionaries W = dictionaries W' ->
  CocoaManager w = CocoaManager w' ->
  GetSlot s W w = GetSlot s W' w'.
Proof.
  intros D M. rewrite !GetSlot_objectForKey. unfold objectForKey.
  rewrite D, M. reflexivity.
Qed.

Lemma Notification_eqb_eq (a b : Notification) :
  Notification_eqb a b = true <-> a = b.
Proof. destruct a, b; cbn; split; intros H; congruence. Qed.

Lemma Observation_eqb_eq (a b : Observation) :
  Observation_eqb a b = true <-> a = b.
Proof.
  destruct a as [oa na ja], b as [ob nb jb]. unfold Observation_eqb.
  cbn [ob_observer ob_name ob_object].
  rewrite !andb_true_iff, !N.eqb_eq, Notification_eqb_eq.
  split; [intros [[-> ->] ->]; reflexivity |].
  intros H. injection H as -> -> ->. repeat split.
Qed.

Lemma existsb_Observation_eqb (x : Observation) (l : list Observation) :
  existsb (Observation_eqb x) l = true <-> In x l.
Proof.
  rewrite existsb_exists. split.
  - intros (o & I & E). apply Observation_eqb_eq in E. subst o. exact I.
  - intros I. exists x. split; [exact I |].
    apply Observation_eqb_eq. reflexivity.
Qed.

Lemma In_removeObserver (o x : Observation) (W : World) :
  In x (observers (removeObserver o W)) <-> In x (observers W) /\ x <> o.
Proof.
  destruct W. unfold removeObserver. cbn [with_observers observers].
  rewrite filter_In, negb_true_iff.
  split; intros [H N]; split; try assumption.
  - intros E. apply Observation_eqb_eq in E. congruence.
  - destruct (Observation_eqb x o) eqn:E; [| reflexivity].
    apply Observation_eqb_eq in E. contradiction.
Qed.

Lemma GetSlot_addObserver (s : Slot) (o : Observation) (W : World)
    (w : Window) :
  GetSlot s (addObserver o W) w = GetSlot s W w.
Proof. apply GetSlot_ext; [destruct W |]; reflexivity. Qed.

Lemma GetSlot_removeObserver (s : Slot) (o : Observation) (W : World)
    (w : Window) :
  GetSlot s (removeObserver o W) w = GetSlot s W w.
Proof. apply GetSlot_ext; [destruct W |]; reflexivity. Qed.

Lemma startObservations_value (server : ptr) (W : World) (w : Window) :
  startObservations server W w
  = with_observers (registrations server W w ++ observers W) W.
Proof.
  unfold startObservations, registrations, GetWindowCreated, GetViewCreated.
  change (GetRootWindow ?X ?y) with (GetSlot RootWindow X y).
  change (GetWindowId ?X ?y) with (GetSlot WindowId X y).
  destruct (negb (WindowCreated w =? 0) && nonnull (GetSlot RootWindow W w))%bool;
    rewrite ?GetSlot_addObserver;
    destruct (negb (ViewCreated w =? 0) && nonnull (GetSlot WindowId W w))%bool;
    destruct W; reflexivity.
Qed.

Lemma In_stopObservations (server : ptr) (W : World) (w : Window)
    (x : Observation) :
  In x (observers (stopObservations server W w))
  <-> In x (observers W) /\ ~ In x (registrations server W w).
Proof.
  unfold stopObservations, registrations, GetWindowCreated, GetViewCreated.
  change (GetRootWindow ?X ?y) with (GetSlot RootWindow X y).
  change (GetWindowId ?X ?y) with (GetSlot WindowId X y).
  destruct (negb (WindowCreated w =? 0) && nonnull (GetSlot RootWindow W w))%bool;
    rewrite ?GetSlot_removeObserver;
    destruct (negb (ViewCreated w =? 0) && nonnull (GetSlot WindowId W w))%bool;
    rewrite ?In_removeObserver; cbn [app In]; intuition congruence.
Qed.

Lemma stopObservations_world (server : ptr) (W : World) (w : Window) :
  dictionaries (stopObservations server W w) = dictionaries W
  /\ currentContext (stopObservations server W w) = currentContext W
  /\ retainCount (stopObservations server W w) = retainCount W
  /\ events (stopObservations server W w) = events W.
Proof.
  unfold stopObservations, removeObserver.
  destruct (negb (GetWindowCreated w =? 0) && nonnull (GetRootWindow W w))%bool;
    match goal with
    | |- context [if ?b then _ else _] => destruct b
    end; destruct W; repeat split; reflexivity.
Qed.

Lemma filter_all_true (A : Type) (f : A -> bool) (l : list A) :
  (forall x, In x l -> f x = true) -> filter f l = l.
Proof.
  induction l as [| x rest IH]; intros H; [reflexivity |].
  cbn [filter]. rewrite (H x (or_introl eq_refl)). f_equal.
  apply IH. intros y I. apply H. right. exact I.
Qed.

Lemma filter_all_false (A : Type) (f : A -> bool) (l : list A) :
  (forall x, In x l -> f x = false) -> filter f l = [].
Proof.
  induction l as [| x rest IH]; intros H; [reflexivity |].
  cbn [filter]. rewrite (H x (or_introl eq_refl)).
  apply IH. intros y I. apply H. right. exact I.
Qed.

Lemma filter_filter_negb (A : Type) (f g : A -> bool) (l : list A) :
  filter (fun x => negb (f x)) (filter (fun x => negb (g x)) l)
  = filter (fun x => negb (f x || (g x || false))) l.
Proof.
  induction l as [| x rest IH]; [reflexivity |].
  cbn [filter]. destruct (g x) eqn:G; cbn [negb orb filter].
  - rewrite orb_true_r. cbn [negb]. exact IH.
  - rewrite orb_false_r. destruct (f x); cbn [negb]; rewrite IH; reflexivity.
Qed.

Lemma observers_with_observers (l : list Observation) (W : World) :
  observers (with_observers l W) = l.
Proof. destruct W. reflexivity. Qed.

(** [stopObservations] filters the registrations of the server out of the
    notification centre. *)
Lemma stopObservations_value (server : ptr) (W : World) (w : Window) :
  stopObservations server W w
  = with_observers
      (filter
         (fun x => negb (existsb (Observation_eqb x)
                           (registrations server W w)))
         (observers W)) W.
Proof.
  unfold stopObservations, registrations, GetWindowCreated, GetViewCreated.
  change (GetRootWindow ?X ?y) with (GetSlot RootWindow X y).
  change (GetWindowId ?X ?y) with (GetSlot WindowId X y).
  destruct (negb (WindowCreated w =? 0) && nonnull (GetSlot RootWindow W w))%bool;
    rewrite ?GetSlot_removeObserver;
    destruct (negb (ViewCreated w =? 0) && nonnull (GetSlot WindowId W w))%bool;
    destruct W as [c d r obs e f b sc ms]; unfold removeObserver;
    cbn [with_observers observers app existsb]; f_equal.
  - apply filter_filter_negb.
  - apply filter_ext. intros x. rewrite orb_false_r. reflexivity.
  - apply filter_ext. intros x. rewrite orb_false_r. reflexivity.
  - symmetry. apply filter_all_true. reflexivity.
Qed.

Lemma registrations_ext (server : ptr) (V W : World) (w : Window) :
  dictionaries V = dictionaries W ->
  registrations server V w = registrations server W w.
Proof.
  intros D. unfold registrations.
  change (GetRootWindow ?X ?y) with (GetSlot RootWindow X y).
  change (GetWindowId ?X ?y) with (GetSlot WindowId X y).
  rewrite !(GetSlot_ext _ V W w w D eq_refl). reflexivity.
Qed.

(** Stopping undoes any number of starts when the server was not
    registered before. *)
Lemma stopObservations_after_starts
    (server : ptr) (W : World) (w : Window) (extra : list Observation) :
  (forall o, In o (registrations server W w) -> ~ In o (observers W)) ->
  (forall o, In o extra -> In o (registrations server W w)) ->
  stopObservations server (with_observers (extra ++ observers W) W) w = W.
Proof.
  intros Fresh Extra. rewrite stopObservations_value.
  rewrite (registrations_ext server _ W w) by (destruct W; reflexivity).
  replace (observers (with_observers (extra ++ observers W) W))
    with (extra ++ observers W) by (destruct W; reflexivity).
  rewrite filter_app, filter_all_false, filter_all_true.
  - destruct W. reflexivity.
  - intros x I. apply negb_true_iff.
    destruct (existsb (Observation_eqb x) (registrations server W w)) eqn:E;
      [| reflexivity].
    apply existsb_exists in E. destruct E as (o & Io & Eo).
    apply Observation_eqb_eq in Eo. subst o.
    exfalso. exact (Fresh x Io I).
  - intros x I. apply negb_false_iff, existsb_exists.
    exists x. split; [apply Extra; exact I |].
    apply Observation_eqb_eq. reflexivity.
Qed.

(** X11.  [startObservations] registers the server, and only the server,
    for the closing of this window's [NSWindow] and the frame changes of
    its [NSView], each only if VTK created it and it is not [nil].
    [stopObservations] removes exactly the registrations that
    [startObservations] would make in the same state, every copy of them,
    and no other observer's.  So when none of them was registered before,
    starting and then stopping restores the notification centre -- also
    after starting twice, which registers twice. *)
Theorem observations_start_stop :
  forall (server : ptr) (W : World) (w : Window),
    (forall o, In o (registrations server W w) -> ~ In o (observers W)) ->
    let started := startObservations server W w in
    observers started = registrations server W w ++ observers W
    /\ (forall o, In o (registrations server W w) ->
          ob_observer o = server
          /\ (o = MkObservation server NSWindowWillCloseNotification
                    (GetRootWindow W w)
              /\ WindowCreated w <> 0 /\ GetRootWindow W w <> nullptr
              \/ o = MkObservation server NSViewFrameDidChangeNotification
                       (GetWindowId W w)
                 /\ ViewCreated w <> 0 /\ GetWindowId W w <> nullptr))
    /\ (forall x (V : World),
          In x (observers (stopObservations server V w))
          <-> In x (observers V) /\ ~ In x (registrations server V w))
    /\ stopObservations server started w = W
    /\ stopObservations server (startObservations server started w) w = W.
Proof.
  intros server W w Fresh started.
  assert (S1 : started
               = with_observers (registrations server W w ++ observers W) W)
    by apply startObservations_value.
  split; [| split; [| split; [| split]]].
  - rewrite S1. destruct W. reflexivity.
  - intros o. unfold registrations.
    destruct (negb (ViewCreated w =? 0) && nonnull (GetWindowId W w))%bool
      eqn:V;
      destruct (negb (WindowCreated w =? 0)
                && nonnull (GetRootWindow W w))%bool eqn:R;
      cbn [app In]; intros I;
      repeat match goal with
             | H : _ \/ _ |- _ => destruct H
             | H : False |- _ => destruct H
             end; subst o; (split; [reflexivity |]).
    all: try (left; split; [reflexivity |];
              apply andb_true_iff in R; destruct R as [R1 R2];
              apply negb_true_iff, Z.eqb_neq in R1;
              apply nonnull_true in R2; split; assumption).
    all: right; split; [reflexivity |];
      apply andb_true_iff in V; destruct V as [V1 V2];
      apply negb_true_iff, Z.eqb_neq in V1;
      apply nonnull_true in V2; split; assumption.
  - intros x V. apply In_stopObservations.
  - rewrite S1. apply (stopObservations_after_starts server W w _ Fresh).
    intros o I. exact I.
  - rewrite S1, startObservations_value.
    rewrite (registrations_ext server _ W w) by (destruct W; reflexivity).
    replace (with_observers _ (with_observers _ W))
      with (with_observers
              ((registrations server W w ++ registrations server W w)
               ++ observers W) W)
      by (destruct W; cbn [with_observers observers];
          rewrite app_assoc; reflexivity).
    apply (stopObservations_after_starts server W w _ Fresh).
    intros o I. apply in_app_or in I. destruct I; assumption.
Qed.

(** X11 on a window that VTK created and viewed: both notifications are
    registered and stopping restores the empty notification centre. *)
Lemma observations_start_stop_witness :
  let w0 := snd (Constructor 7%N blankWorld blankWindow) in
  let W0 := fst (Constructor 7%N blankWorld blankWindow) in
  let w := with_ViewCreated 1 (with_WindowCreated 1 w0) in
  let W := SetWindowId 6%N (SetRootWindow 5%N W0 w) w in
  stopObservations 9%N (startObservations 9%N W w) w = W.
Proof.
  intros w0 W0 w W.
  refine (proj1 (proj2 (proj2 (proj2
    (observations_start_stop 9%N W w _))))).
  intros o I. exact (fun F : False => F).
Defined.

(** ** Tearing the window down *)

Lemma GetSlot_log (s : Slot) (ev : Event) (W : World) (w : Window) :
  GetSlot s (log ev W) w = GetSlot s W w.
Proof. apply GetSlot_ext; [destruct W |]; reflexivity. Qed.

Lemma GetSlot_stopObservations
    (s : Slot) (server : ptr) (W : World) (w' w : Window) :
  GetSlot s (stopObservations server W w') w = GetSlot s W w.
Proof.
  apply GetSlot_ext; [apply stopObservations_world | reflexivity].
Qed.

Lemma GetSlot_flags (s : Slot) (W : World) (a b c : Z) (w : Window) :
  GetSlot s W (with_Mapped a (with_ViewCreated b (with_WindowCreated c w)))
  = GetSlot s W w.
Proof. apply GetSlot_ext; [| destruct w]; reflexivity. Qed.

Lemma SetSlot_nullptr_absent (s : Slot) (W : World) (w : Window) :
  GetSlot s W w = nullptr -> SetSlot s nullptr W w = W.
Proof.
  rewrite GetSlot_objectForKey. intros H.
  assert (R : forall key,
            objectForKey W (CocoaManager w) key = nullptr ->
            removeObjectForKey W (GetCocoaManager w) key = W).
  { clear. intros key H. unfold removeObjectForKey, GetCocoaManager.
    unfold objectForKey in H.
    destruct (nonnull (CocoaManager w)); [| reflexivity].
    rewrite H, release_nullptr.
    destruct W as [c d r o e f b sc ms].
    cbn [with_dictionaries dictionaries] in *. f_equal.
    apply FunctionalExtensionality.functional_extensionality. intros a.
    destruct (N.eqb a (CocoaManager w)) eqn:A; [| reflexivity].
    apply N.eqb_eq in A. subst a.
    apply FunctionalExtensionality.functional_extensionality. intros k.
    unfold removeObject. destruct (String.eqb k key) eqn:K; [| reflexivity].
    apply String.eqb_eq in K. subst k. symmetry. exact H. }
  destruct s; apply R; exact H.
Qed.

Lemma retainCount_clear (s : Slot) (W : World) (w : Window) (a : ptr) :
  retainCount (SetSlot s nullptr W w) a
  = retainCount W a - held (GetSlot s W w) a.
Proof.
  rewrite (proj1 (proj2 (SetSlot_world s nullptr W w))).
  rewrite held_nullptr.
  destruct (nonnull (CocoaManager w)) eqn:M; [lia |].
  apply nonnull_false in M. rewrite (GetSlot_no_manager s W w M).
  rewrite held_nullptr. lia.
Qed.

Lemma registrations_slots (server : ptr) (V W : World) (w : Window) :
  GetSlot RootWindow V w = GetSlot RootWindow W w ->
  GetSlot WindowId V w = GetSlot WindowId W w ->
  registrations server V w = registrations server W w.
Proof.
  intros R I. unfold registrations.
  change (GetRootWindow ?X ?y) with (GetSlot RootWindow X y).
  change (GetWindowId ?X ?y) with (GetSlot WindowId X y).
  rewrite R, I. reflexivity.
Qed.

Ltac as_slots :=
  change (SetContextId ?a ?X ?y) with (SetSlot ContextId a X y) in *;
  change (SetPixelFormat ?a ?X ?y) with (SetSlot PixelFormat a X y) in *;
  change (SetCocoaServer ?a ?X ?y) with (SetSlot CocoaServer a X y) in *;
  change (SetWindowId ?a ?X ?y) with (SetSlot WindowId a X y) in *;
  change (SetParentId ?a ?X ?y) with (SetSlot ParentId a X y) in *;
  change (SetRootWindow ?a ?X ?y) with (SetSlot RootWindow a X y) in *;
  change (GetContextId ?X ?y) with (GetSlot ContextId X y) in *;
  change (GetPixelFormat ?X ?y) with (GetSlot PixelFormat X y) in *;
  change (GetCocoaServer ?X ?y) with (GetSlot CocoaServer X y) in *;
  change (GetWindowId ?X ?y) with (GetSlot WindowId X y) in *;
  change (GetParentId ?X ?y) with (GetSlot ParentId X y) in *;
  change (GetRootWindow ?X ?y) with (GetSlot RootWindow X y) in *.

Ltac through_slots :=
  repeat first
    [ rewrite GetSlot_flags
    | rewrite GetSlot_clear
    | rewrite GetSlot_log
    | rewrite GetSlot_stopObservations ];
  cbn [Slot_eqb].

(** A window with no entry left and nothing created has nothing to
    destroy. *)
Lemma DestroyWindow_cleared (P : Platform) (W : World) (w : Window) :
  (forall s, GetSlot s W w = nullptr) ->
  WindowCreated w = 0 -> ViewCreated w = 0 -> Mapped w = 0 ->
  DestroyWindow P W w = (W, w).
Proof.
  intros G C V M. unfold DestroyWindow, finishRendering. as_slots.
  rewrite (G ContextId). cbn [nonnull nullptr N.eqb negb].
  rewrite andb_false_r.
  rewrite (SetSlot_nullptr_absent ContextId W w (G _)).
  rewrite (SetSlot_nullptr_absent PixelFormat W w (G _)).
  rewrite (G CocoaServer). cbn [nonnull nullptr N.eqb negb].
  rewrite (SetSlot_nullptr_absent CocoaServer W w (G _)).
  rewrite C. cbn [Z.eqb negb].
  rewrite (SetSlot_nullptr_absent WindowId W w (G _)).
  rewrite (SetSlot_nullptr_absent ParentId W w (G _)).
  rewrite (SetSlot_nullptr_absent RootWindow W w (G _)).
  destruct w. cbn in C, V, M. subst. reflexivity.
Qed.

Lemma DestroyWindow_after (P : Platform) (W : World) (w : Window) :
  let before := finishRendering P W w in
  let after := DestroyWindow P W w in
  let server := GetCocoaServer (fst before) (snd before) in
  let window := GetRootWindow (fst before) (snd before) in
  (forall s, GetSlot s (fst after) (snd after) = nullptr)
  /\ (WindowCreated (snd after) = 0 /\ ViewCreated (snd after) = 0
      /\ Mapped (snd after) = 0)
  /\ events (fst after)
     = (if (negb (WindowCreated (snd before) =? 0) && nonnull window)%bool
        then [NSWindow_close window] else [])
       ++ events (fst before)
  /\ observers (fst after)
     = filter
         (fun x => negb (nonnull server
                         && existsb (Observation_eqb x)
                              (registrations server (fst before)
                                 (snd before))))
         (observers (fst before))
  /\ currentContext (fst after) = currentContext (fst before)
  /\ (forall a,
        retainCount (fst after) a
        = retainCount (fst before) a - managed (fst before) (snd before) a).
Proof.
  intros before after server window. subst before after server window.
  unfold DestroyWindow, managed.
  destruct (finishRendering P W w) as [W1 w1]. cbn [fst snd]. as_slots.
  assert (SV : GetSlot CocoaServer
                 (SetSlot PixelFormat nullptr
                    (SetSlot ContextId nullptr W1 w1) w1) w1
               = GetSlot CocoaServer W1 w1) by (through_slots; reflexivity).
  rewrite SV. clear SV.
  set (server := GetSlot CocoaServer W1 w1).
  set (W3 := SetSlot PixelFormat nullptr (SetSlot ContextId nullptr W1 w1) w1).
  set (W4 := if nonnull server then stopObservations server W3 w1 else W3).
  set (W5 := SetSlot CocoaServer nullptr W4 w1).
  assert (D4 : dictionaries W4 = dictionaries W3).
  { subst W4. destruct (nonnull server); [| reflexivity].
    apply stopObservations_world. }
  assert (RW : GetSlot RootWindow W5 w1 = GetSlot RootWindow W1 w1).
  { subst W5. through_slots. rewrite (GetSlot_ext _ W4 W3 w1 w1 D4 eq_refl).
    subst W3. through_slots. reflexivity. }
  rewrite RW. clear RW.
  set (window := GetSlot RootWindow W1 w1).
  set (W6 := if negb (WindowCreated w1 =? 0)
             then if nonnull window then log (NSWindow_close window) W5
                  else W5
             else W5).
  assert (D6 : dictionaries W6 = dictionaries W5).
  { subst W6. destruct (negb (WindowCreated w1 =? 0)), (nonnull window);
      try reflexivity. destruct W5; reflexivity. }
  assert (F3 : currentContext W3 = currentContext W1
               /\ (forall a,
                     retainCount W3 a
                     = retainCount W1 a - held (GetSlot ContextId W1 w1) a
                       - held (GetSlot PixelFormat W1 w1) a)
               /\ observers W3 = observers W1
               /\ events W3 = events W1).
  { subst W3.
    destruct (SetSlot_world PixelFormat nullptr
                (SetSlot ContextId nullptr W1 w1) w1) as (a & _ & c & d).
    destruct (SetSlot_world ContextId nullptr W1 w1) as (a' & _ & c' & d').
    rewrite a, c, d, a', c', d'. repeat split.
    intros x. rewrite !retainCount_clear. through_slots. reflexivity. }
  destruct F3 as (C3 & R3 & O3 & E3).
  assert (F4 : currentContext W4 = currentContext W3
               /\ retainCount W4 = retainCount W3
               /\ events W4 = events W3).
  { subst W4. destruct (nonnull server); [| repeat split].
    destruct (stopObservations_world server W3 w1) as (_ & a & b & c).
    rewrite a, b, c. repeat split. }
  destruct F4 as (C4 & R4 & E4).
  destruct (SetSlot_world CocoaServer nullptr W4 w1) as (C5 & _ & O5 & E5).
  fold W5 in C5, O5, E5.
  assert (R5 : forall a,
             retainCount W5 a = retainCount W4 a - held server a).
  { intros x. subst W5. rewrite retainCount_clear.
    rewrite (GetSlot_ext _ W4 W3 w1 w1 D4 eq_refl).
    subst W3. through_slots. reflexivity. }
  assert (F6 : currentContext W6 = currentContext W5
               /\ retainCount W6 = retainCount W5
               /\ observers W6 = observers W5).
  { subst W6. destruct (negb (WindowCreated w1 =? 0)), (nonnull window);
      try (repeat split; fail). destruct W5; repeat split. }
  destruct F6 as (C6 & R6 & O6).
  set (W9 := SetSlot RootWindow nullptr
               (SetSlot ParentId nullptr
                  (SetSlot WindowId nullptr W6 w1) w1) w1).
  assert (G6 : forall s, Slot_eqb CocoaServer s = false ->
                         Slot_eqb PixelFormat s = false ->
                         Slot_eqb ContextId s = false ->
                         GetSlot s W6 w1 = GetSlot s W1 w1).
  { intros s S1 S2 S3.
    rewrite (GetSlot_ext _ W6 W5 w1 w1 D6 eq_refl).
    subst W5. rewrite GetSlot_clear, S1.
    rewrite (GetSlot_ext _ W4 W3 w1 w1 D4 eq_refl).
    subst W3. rewrite !GetSlot_clear, S2, S3. reflexivity. }
  assert (F9 : currentContext W9 = currentContext W6
               /\ (forall a,
                     retainCount W9 a
                     = retainCount W6 a - held (GetSlot WindowId W1 w1) a
                       - held (GetSlot ParentId W1 w1) a
                       - held (GetSlot RootWindow W1 w1) a)
               /\ observers W9 = observers W6
               /\ events W9 = events W6).
  { subst W9.
    destruct (SetSlot_world RootWindow nullptr
                (SetSlot ParentId nullptr
                   (SetSlot WindowId nullptr W6 w1) w1) w1)
      as (a & _ & c & d).
    destruct (SetSlot_world ParentId nullptr
                (SetSlot WindowId nullptr W6 w1) w1) as (a' & _ & c' & d').
    destruct (SetSlot_world WindowId nullptr W6 w1) as (a2 & _ & c2 & d2).
    rewrite a, c, d, a', c', d', a2, c2, d2. repeat split.
    intros x. rewrite !retainCount_clear, !GetSlot_clear. cbn [Slot_eqb].
    rewrite !G6 by reflexivity. reflexivity. }
  destruct F9 as (C9 & R9 & O9 & E9).
  split; [| split; [| split; [| split; [| split]]]].
  - intros s. subst W9. through_slots.
    rewrite (GetSlot_ext _ W6 W5 w1 w1 D6 eq_refl).
    subst W5. through_slots.
    rewrite (GetSlot_ext _ W4 W3 w1 w1 D4 eq_refl).
    subst W3. through_slots. destruct s; reflexivity.
  - destruct w1. repeat split.
  - rewrite E9. subst W6.
    destruct (negb (WindowCreated w1 =? 0)); cbn [andb];
      [destruct (nonnull window) |];
      rewrite ?E5, ?E4, ?E3; try reflexivity.
    destruct W5. cbn [log events] in *. rewrite E5, E4, E3. reflexivity.
  - rewrite O9, O6, O5. subst W4.
    destruct (nonnull server) eqn:SV.
    + rewrite stopObservations_value.
      rewrite observers_with_observers.
      rewrite O3.
      rewrite (registrations_slots server W3 W1 w1)
        by (subst W3; through_slots; reflexivity).
      reflexivity.
    + rewrite O3. symmetry. apply filter_all_true. reflexivity.
  - rewrite C9, C6, C5, C4, C3. reflexivity.
  - intros x. rewrite R9, R6, R5, R4, R3. as_slots. fold server window. lia.
Qed.

(** X12.  [Finalize] of an initialised window, whatever the superclass's
    [ReleaseGraphicsResources] does: the six entries of the manager are
    gone, so every getter returns [nullptr]; [WindowCreated],
    [ViewCreated] and [Mapped] are 0; the [NSWindow] is closed exactly when
    VTK created it and it is still there, once; of the notification centre
    only the server's own registrations are removed; the current context
    is as the release left it; the manager has given up its references, so
    the count of every object is lower by the number of entries that held
    it; and destroying the window again changes nothing at all.  The
    release of the graphics resources is not called for a window that does
    not own its context or has none. *)
Theorem Finalize_tears_down :
  forall (P : Platform) (W : World) (w : Window),
    OnScreenInitialized w <> 0 ->
    let before := finishRendering P W (with_OnScreenInitialized 0 w) in
    let after := Finalize P W w in
    let server := GetCocoaServer (fst before) (snd before) in
    let window := GetRootWindow (fst before) (snd before) in
    (forall s, GetSlot s (fst after) (snd after) = nullptr)
    /\ (WindowCreated (snd after) = 0 /\ ViewCreated (snd after) = 0
        /\ Mapped (snd after) = 0)
    /\ events (fst after)
       = (if (negb (WindowCreated (snd before) =? 0) && nonnull window)%bool
          then [NSWindow_close window] else [])
         ++ events (fst before)
    /\ (forall x,
          In x (observers (fst after))
          <-> In x (observers (fst before))
              /\ (server = nullptr
                  \/ ~ In x (registrations server (fst before)
                               (snd before))))
    /\ currentContext (fst after) = currentContext (fst before)
    /\ (forall a,
          retainCount (fst after) a
          = retainCount (fst before) a - managed (fst before) (snd before) a)
    /\ DestroyWindow P (fst after) (snd after) = after
    /\ (OwnContext w = 0 \/ GetContextId W w = nullptr ->
        before = (W, with_OnScreenInitialized 0 w)).
Proof.
  intros P W w Init before after server window.
  assert (A : after = DestroyWindow P W (with_OnScreenInitialized 0 w)).
  { subst after. unfold Finalize.
    apply Z.eqb_neq in Init. rewrite Init. reflexivity. }
  pose proof (DestroyWindow_after P W (with_OnScreenInitialized 0 w)) as H.
  cbv zeta in H. fold before in H. rewrite <- A in H.
  destruct H as (G & (C & V & M) & E & O & CC & RC).
  split; [exact G |]. split; [repeat split; assumption |].
  split; [exact E |].
  split.
  { intros x. rewrite O, filter_In, negb_true_iff, andb_false_iff.
    rewrite nonnull_false, <- not_true_iff_false, existsb_Observation_eqb.
    reflexivity. }
  split; [exact CC |]. split; [exact RC |].
  split.
  - destruct after as [W' w']. apply DestroyWindow_cleared; assumption.
  - intros H. subst before. unfold finishRendering.
    replace (OwnContext (with_OnScreenInitialized 0 w)) with (OwnContext w)
      by (destruct w; reflexivity).
    replace (GetContextId W (with_OnScreenInitialized 0 w))
      with (GetContextId W w) by (destruct w; reflexivity).
    destruct H as [H | H]; rewrite H; [reflexivity |].
    cbn [nonnull nullptr N.eqb negb]. rewrite andb_false_r. reflexivity.
Qed.

(** X12 on a window that VTK created at address 5 and initialised: the
    window is closed, once. *)
Lemma Finalize_tears_down_witness :
  let w0 := snd (Constructor 7%N blankWorld blankWindow) in
  let W0 := fst (Constructor 7%N blankWorld blankWindow) in
  let w := with_OnScreenInitialized 1 (with_WindowCreated 1 w0) in
  let W := SetRootWindow 5%N W0 w in
  events (fst (Finalize examplePlatform W w)) = [NSWindow_close 5%N].
Proof.
  intros w0 W0 w W.
  refine (proj1 (proj2 (proj2 (Finalize_tears_down examplePlatform W w _)))).
  intros H. discriminate H.
Defined.

(** ** Creating the OpenGL context *)

Lemma attributes_length (P : Platform) (p h : Z) (w : Window) :
  (6 <= length (attributes P p h w) <= 9)%nat.
Proof.
  unfold attributes.
  destruct (negb (DoubleBuffer w =? 0)), (negb (StencilCapable w =? 0));
    cbn; lia.
Qed.

Lemma attributes_terminated (P : Platform) (p h : Z) (w : Window) :
  exists body, attributes P p h w = body ++ [h; 0].
Proof.
  unfold attributes. rewrite !app_assoc. eexists. reflexivity.
Qed.

Lemma searchPixelFormat_S
    (P : Platform) (fuel : nat) (p h : Z) (w : Window)
    (tried : list (list Z)) :
  searchPixelFormat P (S fuel) p h w tried
  = if nonnull (initWithAttributes P (attributes P p h w))
    then Found (initWithAttributes P (attributes P p h w))
           (attributes P p h w :: tried) false
    else if negb (p =? NSOpenGLProfileVersion3_2Core P)
    then searchPixelFormat P fuel (NSOpenGLProfileVersion3_2Core P) h w
           (attributes P p h w :: tried)
    else if h =? NSOpenGLPFAAccelerated P
    then searchPixelFormat P fuel p 0 w (attributes P p h w :: tried)
    else Found nullptr (attributes P p h w :: tried) true.
Proof.
  cbn [searchPixelFormat].
  replace (length (attributes P p h w) <? 20)%nat with true; [reflexivity |].
  symmetry. apply Nat.ltb_lt.
  pose proof (attributes_length P p h w). lia.
Qed.

(** The search along the combinations that remain, for each of the three
    states the loop can be in. *)
Lemma searchPixelFormat_software
    (P : Platform) (fuel : nat) (w : Window) (tried : list (list Z)) :
  NSOpenGLPFAAccelerated P <> 0 ->
  let cs := [(NSOpenGLProfileVersion3_2Core P, 0)] in
  searchPixelFormat P (S fuel) (NSOpenGLProfileVersion3_2Core P) 0 w tried
  = Found (firstGranted P cs w) (rev (attempts P cs w) ++ tried)
      (negb (nonnull (firstGranted P cs w))).
Proof.
  intros A cs. subst cs. rewrite searchPixelFormat_S.
  rewrite Z.eqb_refl. cbn [negb].
  replace (0 =? NSOpenGLPFAAccelerated P) with false
    by (symmetry; apply Z.eqb_neq; congruence).
  cbn [firstGranted attempts].
  destruct (nonnull (initWithAttributes P
              (attributes P (NSOpenGLProfileVersion3_2Core P) 0 w))) eqn:G.
  - rewrite G. reflexivity.
  - reflexivity.
Qed.

Lemma searchPixelFormat_accelerated
    (P : Platform) (fuel : nat) (w : Window) (tried : list (list Z)) :
  NSOpenGLPFAAccelerated P <> 0 ->
  let cs := [(NSOpenGLProfileVersion3_2Core P, NSOpenGLPFAAccelerated P);
             (NSOpenGLProfileVersion3_2Core P, 0)] in
  searchPixelFormat P (S (S fuel)) (NSOpenGLProfileVersion3_2Core P)
    (NSOpenGLPFAAccelerated P) w tried
  = Found (firstGranted P cs w) (rev (attempts P cs w) ++ tried)
      (negb (nonnull (firstGranted P cs w))).
Proof.
  intros A cs. subst cs. rewrite searchPixelFormat_S.
  rewrite !Z.eqb_refl. cbn [negb].
  rewrite (searchPixelFormat_software P fuel w _ A). cbv zeta.
  cbn [firstGranted attempts].
  destruct (nonnull (initWithAttributes P
              (attributes P (NSOpenGLProfileVersion3_2Core P)
                 (NSOpenGLPFAAccelerated P) w))) eqn:G.
  - rewrite G. reflexivity.
  - cbn [rev]. rewrite <- !app_assoc. reflexivity.
Qed.

Lemma searchPixelFormat_preferred
    (P : Platform) (fuel : nat) (p : Z) (w : Window)
    (tried : list (list Z)) :
  NSOpenGLPFAAccelerated P <> 0 ->
  p <> NSOpenGLProfileVersion3_2Core P ->
  let cs := [(p, NSOpenGLPFAAccelerated P);
             (NSOpenGLProfileVersion3_2Core P, NSOpenGLPFAAccelerated P);
             (NSOpenGLProfileVersion3_2Core P, 0)] in
  searchPixelFormat P (S (S (S fuel))) p (NSOpenGLPFAAccelerated P) w tried
  = Found (firstGranted P cs w) (rev (attempts P cs w) ++ tried)
      (negb (nonnull (firstGranted P cs w))).
Proof.
  intros A N cs. subst cs. rewrite searchPixelFormat_S.
  replace (p =? NSOpenGLProfileVersion3_2Core P) with false
    by (symmetry; apply Z.eqb_neq; exact N).
  cbn [negb].
  rewrite (searchPixelFormat_accelerated P fuel w _ A). cbv zeta.
  cbn [firstGranted attempts].
  destruct (nonnull (initWithAttributes P
              (attributes P p (NSOpenGLPFAAccelerated P) w))) eqn:G.
  - rewrite G. reflexivity.
  - cbn [rev]. rewrite <- !app_assoc. reflexivity.
Qed.

Lemma searchPixelFormat_candidates
    (P : Platform) (fuel : nat) (w : Window) :
  NSOpenGLPFAAccelerated P <> 0 ->
  searchPixelFormat P (S (S (S fuel)))
    (if deploymentTargetAtLeast1010 P then NSOpenGLProfileVersion4_1Core P
     else NSOpenGLProfileVersion3_2Core P)
    (NSOpenGLPFAAccelerated P) w []
  = Found (firstGranted P (candidates P) w)
      (rev (attempts P (candidates P) w))
      (negb (nonnull (firstGranted P (candidates P) w))).
Proof.
  intros A. unfold candidates.
  set (first := if deploymentTargetAtLeast1010 P
                then NSOpenGLProfileVersion4_1Core P
                else NSOpenGLProfileVersion3_2Core P).
  destruct (first =? NSOpenGLProfileVersion3_2Core P) eqn:E.
  - apply Z.eqb_eq in E. rewrite E.
    rewrite (searchPixelFormat_accelerated P (S fuel) w [] A). cbv zeta.
    rewrite app_nil_r. reflexivity.
  - apply Z.eqb_neq in E.
    rewrite (searchPixelFormat_preferred P fuel first w [] A E). cbv zeta.
    rewrite app_nil_r. reflexivity.
Qed.

Lemma attempts_length (P : Platform) (cs : list (Z * Z)) (w : Window) :
  (length (attempts P cs w) <= length cs)%nat
  /\ (cs <> [] -> attempts P cs w <> []).
Proof.
  split.
  - induction cs as [| [p h] rest IH]; [reflexivity |].
    cbn [attempts length].
    destruct (nonnull (initWithAttributes P (attributes P p h w)));
      cbn [length]; lia.
  - destruct cs as [| [p h] rest]; [congruence |]. intros _.
    cbn [attempts]. discriminate.
Qed.

Lemma attempts_shape (P : Platform) (cs : list (Z * Z)) (w : Window)
    (a : list Z) :
  In a (attempts P cs w) ->
  exists p h, In (p, h) cs /\ a = attributes P p h w.
Proof.
  induction cs as [| [p h] rest IH]; [intros [] |].
  cbn [attempts In]. intros [E | I].
  - exists p, h. split; [left; reflexivity | symmetry; exact E].
  - destruct (nonnull (initWithAttributes P (attributes P p h w)));
      [destruct I |].
    destruct (IH I) as (p' & h' & I' & E'). exists p', h'.
    split; [right; exact I' | exact E'].
Qed.

(** Every attempt before the last was refused, and the last one gave the
    pixel format. *)
Lemma attempts_refused (P : Platform) (cs : list (Z * Z)) (w : Window) :
  forall before a after,
    attempts P cs w = before ++ a :: after ->
    (after <> [] -> initWithAttributes P a = nullptr)
    /\ (after = [] ->
        firstGranted P cs w
        = if nonnull (initWithAttributes P a) then initWithAttributes P a
          else nullptr).
Proof.
  induction cs as [| [p h] rest IH]; intros before a after E.
  - destruct before; discriminate E.
  - cbn [attempts firstGranted] in *.
    destruct (nonnull (initWithAttributes P (attributes P p h w))) eqn:G.
    + destruct before as [| b before].
      * injection E as <- <-. rewrite G. split; [congruence | reflexivity].
      * injection E as _ E. destruct before; discriminate E.
    + destruct before as [| b before].
      * injection E as <- E. split.
        -- intros _. apply nonnull_false. exact G.
        -- intros ->. rewrite G.
           destruct rest as [| [p' h'] rest]; [reflexivity |].
           cbn [attempts] in E. discriminate E.
      * injection E as _ E. exact (IH before a after E).
Qed.

Lemma nonnull_or_nullptr (c : ptr) :
  (if nonnull c then c else nullptr) = c.
Proof.
  destruct (nonnull c) eqn:E; [reflexivity |].
  symmetry. apply nonnull_false. exact E.
Qed.

Lemma candidates_length (P : Platform) :
  (2 <= length (candidates P) <= 3)%nat.
Proof.
  unfold candidates.
  destruct ((if deploymentTargetAtLeast1010 P
             then NSOpenGLProfileVersion4_1Core P
             else NSOpenGLProfileVersion3_2Core P)
            =? NSOpenGLProfileVersion3_2Core P); cbn; lia.
Qed.

Lemma CreateGLContext_value
    (P : Platform) (fuel : nat) (shared : option Window)
    (W : World) (w : Window) :
  NSOpenGLPFAAccelerated P <> 0 ->
  (3 <= fuel)%nat ->
  let pixelFormat := firstGranted P (candidates P) w in
  let sharedContext :=
    match shared with
    | Some renWin => GetContextId W renWin
    | None => nullptr
    end in
  let context :=
    if nonnull pixelFormat
    then initWithFormat P pixelFormat sharedContext
    else nullptr in
  CreateGLContext P fuel shared W w
  = Some (SetContextId context
            (SetPixelFormat pixelFormat
               (if negb (nonnull pixelFormat) then log Warning W else W) w)
            w,
          rev (attempts P (candidates P) w)).
Proof.
  intros A F pixelFormat sharedContext context.
  destruct fuel as [| [| [| fuel]]]; try lia.
  unfold CreateGLContext.
  rewrite (searchPixelFormat_candidates P fuel w A).
  fold pixelFormat.
  set (Wl := if negb (nonnull pixelFormat) then log Warning W else W).
  assert (DL : dictionaries Wl = dictionaries W).
  { subst Wl. destruct (negb (nonnull pixelFormat)); [destruct W |];
      reflexivity. }
  assert (SC : match shared with
               | Some renWin =>
                   if nonnull (GetContextId Wl renWin)
                   then GetContextId Wl renWin else nullptr
               | None => nullptr
               end = sharedContext).
  { subst sharedContext. destruct shared as [r |]; [| reflexivity].
    rewrite nonnull_or_nullptr.
    exact (GetSlot_ext ContextId Wl W r r DL eq_refl). }
  rewrite SC. reflexivity.
Qed.

(** X13.  With [NSOpenGLPFAAccelerated] not 0 the loop of [CreateGLContext]
    ends within three passes and its assertion holds: it asks Cocoa for the
    combinations of profile and renderer in the order preferred profile
    with acceleration, 3.2 Core with acceleration, 3.2 Core in software
    (the first being skipped when the preferred profile is 3.2 Core), and
    stops at the first that Cocoa grants.  Each attribute list has at most
    nine of the twenty entries and ends with the renderer and the
    terminating 0.  The window then stores that pixel format and a context
    made from it, sharing the shared window's context; when Cocoa grants
    nothing, one warning is issued and both entries are removed.  The other
    four entries are untouched. *)
Theorem CreateGLContext_search :
  forall (P : Platform) (fuel : nat) (shared : option Window)
         (W : World) (w : Window),
    NSOpenGLPFAAccelerated P <> 0 ->
    (3 <= fuel)%nat ->
    let tried := attempts P (candidates P) w in
    let pixelFormat := firstGranted P (candidates P) w in
    let sharedContext :=
      match shared with
      | Some renWin => GetContextId W renWin
      | None => nullptr
      end in
    let context :=
      if nonnull pixelFormat
      then initWithFormat P pixelFormat sharedContext
      else nullptr in
    exists W',
      CreateGLContext P fuel shared W w = Some (W', rev tried)
      /\ (1 <= length tried <= 3)%nat
      /\ (forall a, In a tried ->
            (length a <= 9)%nat
            /\ exists body h, a = body ++ [h; 0])
      /\ (forall before a after, tried = before ++ a :: after ->
            (after <> [] -> initWithAttributes P a = nullptr)
            /\ (after = [] -> pixelFormat = initWithAttributes P a))
      /\ GetPixelFormat W' w
         = (if nonnull (CocoaManager w) then pixelFormat else nullptr)
      /\ GetContextId W' w
         = (if nonnull (CocoaManager w) then context else nullptr)
      /\ (forall s, s <> PixelFormat -> s <> ContextId ->
            GetSlot s W' w = GetSlot s W w)
      /\ events W'
         = (if nonnull pixelFormat then [] else [Warning]) ++ events W
      /\ observers W' = observers W
      /\ currentContext W' = currentContext W.
Proof.
  intros P fuel shared W w A F tried pixelFormat sharedContext context.
  pose proof (CreateGLContext_value P fuel shared W w A F) as V.
  cbv zeta in V. fold pixelFormat sharedContext context tried in V.
  set (Wl := if negb (nonnull pixelFormat) then log Warning W else W) in V.
  assert (DL : dictionaries Wl = dictionaries W).
  { subst Wl. destruct (negb (nonnull pixelFormat)); [destruct W |];
      reflexivity. }
  as_slots.
  eexists. split; [exact V |].
  destruct (SetSlot_world ContextId context
              (SetSlot PixelFormat pixelFormat Wl w) w) as (c1 & _ & o1 & e1).
  destruct (SetSlot_world PixelFormat pixelFormat Wl w) as (c2 & _ & o2 & e2).
  split; [| split; [| split; [| split; [| split; [| split;
    [| split; [| split]]]]]]].
  - pose proof (attempts_length P (candidates P) w) as [L N].
    pose proof (candidates_length P) as C. fold tried in L, N.
    destruct tried as [| t0 tried'] eqn:T.
    + exfalso. apply N; [| reflexivity].
      intros E. rewrite E in C. cbn in C. lia.
    + cbn [length] in *. lia.
  - intros a I. apply attempts_shape in I. destruct I as (p & h & _ & ->).
    split; [apply attributes_length |].
    destruct (attributes_terminated P p h w) as [body E].
    exists body, h. exact E.
  - intros before a after E.
    destruct (attempts_refused P (candidates P) w before a after E)
      as [R L].
    split; [exact R |]. intros N. subst pixelFormat. rewrite (L N).
    apply nonnull_or_nullptr.
  - rewrite !GetSlot_SetSlot, N.eqb_refl. cbn [Slot_eqb].
    rewrite !andb_true_r, !andb_false_r.
    destruct (nonnull (CocoaManager w)) eqn:M; [reflexivity |].
    apply GetSlot_no_manager, nonnull_false. exact M.
  - rewrite !GetSlot_SetSlot, N.eqb_refl. cbn [Slot_eqb].
    rewrite !andb_true_r.
    destruct (nonnull (CocoaManager w)) eqn:M; [reflexivity |].
    apply GetSlot_no_manager, nonnull_false. exact M.
  - intros s NP NC. rewrite !GetSlot_SetSlot.
    destruct s; try congruence; cbn [Slot_eqb];
      rewrite !andb_false_r; exact (GetSlot_ext _ Wl W w w DL eq_refl).
  - rewrite e1, e2. subst Wl.
    destruct (nonnull pixelFormat); cbn [negb]; [reflexivity |].
    destruct W; reflexivity.
  - rewrite o1, o2. subst Wl.
    destruct (negb (nonnull pixelFormat)); [destruct W |]; reflexivity.
  - rewrite c1, c2. subst Wl.
    destruct (negb (nonnull pixelFormat)); [destruct W |]; reflexivity.
Qed.

(** X13 on the example platform, whose Cocoa refuses accelerated pixel
    formats: the third attempt, in software, gives the pixel format at
    address 21. *)
Lemma CreateGLContext_search_witness :
  let w := snd (Constructor 7%N blankWorld blankWindow) in
  let W := fst (Constructor 7%N blankWorld blankWindow) in
  exists W',
    CreateGLContext examplePlatform 3 None W w
    = Some (W', [[99; 12800; 12; 32; 0; 0];
                 [99; 12800; 12; 32; 73; 0];
                 [99; 16640; 12; 32; 73; 0]])
    /\ GetPixelFormat W' w = 21%N.
Proof.
  intros w W.
  assert (A : NSOpenGLPFAAccelerated examplePlatform <> 0)
    by (intros H; discriminate H).
  destruct (CreateGLContext_search examplePlatform 3 None W w A (le_n 3))
    as (W' & E & _ & _ & _ & G & _).
  exists W'. split; [exact E | exact G].
Defined.

(** ** Full screen *)

Lemma GetPosition_value (W : World) (w : Window) :
  GetPosition W w
  = (fst (GetPosition W w), with_Position (fst (GetPosition W w)) w).
Proof.
  unfold GetPosition.
  destruct (Mapped w =? 0); [destruct w; reflexivity |].
  destruct (nonnull (GetParentId W w) && nonnull (GetWindowId W w))%bool;
    [destruct w; reflexivity |].
  destruct (nonnull (GetRootWindow W w)); destruct w; reflexivity.
Qed.

Lemma GetPosition_with_FullScreen (a : Z) (W : World) (w : Window) :
  fst (GetPosition W (with_FullScreen a w)) = fst (GetPosition W w).
Proof.
  unfold GetPosition.
  replace (Mapped (with_FullScreen a w)) with (Mapped w)
    by (destruct w; reflexivity).
  replace (GetParentId W (with_FullScreen a w)) with (GetParentId W w)
    by (destruct w; reflexivity).
  replace (GetWindowId W (with_FullScreen a w)) with (GetWindowId W w)
    by (destruct w; reflexivity).
  replace (GetRootWindow W (with_FullScreen a w)) with (GetRootWindow W w)
    by (destruct w; reflexivity).
  destruct (Mapped w =? 0); [destruct w; reflexivity |].
  destruct (nonnull (GetParentId W w) && nonnull (GetWindowId W w))%bool;
    [destruct w; reflexivity |].
  destruct (nonnull (GetRootWindow W w)); destruct w; reflexivity.
Qed.

Lemma GetScreenSize_value (W : World) (w w' : Window) :
  CocoaManager w' = CocoaManager w ->
  GetScreenSize W w'
  = (fst (GetScreenSize W w), with_Size (fst (GetScreenSize W w)) w').
Proof.
  intros M. unfold GetScreenSize.
  replace (GetRootWindow W w') with (GetRootWindow W w)
    by (unfold GetRootWindow, GetCocoaManager; rewrite M; reflexivity).
  destruct w, w'. reflexivity.
Qed.

(** X14.  Entering full screen on a mapped window that has an [NSWindow]
    saves the position that [GetPosition] reports and the borders, but not
    the size: [OldScreen[2]] and [OldScreen[3]] keep what they held, and
    [Size] becomes the size of the screen.  Leaving full screen then
    restores the borders and the saved position, and sets [Size] to
    whatever [OldScreen[2]] and [OldScreen[3]] held before entering.  The
    round trip issues three warnings and marks the object modified
    twice. *)
Theorem SetFullScreen_round_trip :
  forall (a b : Z) (W : World) (w : Window),
    Mapped w <> 0 ->
    FullScreen w <= 0 -> 0 < a -> b <= 0 ->
    GetRootWindow W w <> nullptr ->
    let entered := SetFullScreen a W w in
    let back := SetFullScreen b (fst entered) (snd entered) in
    FullScreen (snd entered) = a
    /\ OldScreen (snd entered)
       = MkScreen5 (fst (fst (GetPosition W w))) (snd (fst (GetPosition W w)))
           (old2 (OldScreen w)) (old3 (OldScreen w)) (Borders w)
    /\ Size (snd entered) = fst (GetScreenSize W w)
    /\ FullScreen (snd back) = b
    /\ Borders (snd back) = Borders w
    /\ Position (snd back) = fst (GetPosition W w)
    /\ Size (snd back) = (old2 (OldScreen w), old3 (OldScreen w))
    /\ OldScreen (snd back) = OldScreen (snd entered)
    /\ events (fst back)
       = [Modified; Warning; Modified; Warning; Warning] ++ events W.
Proof.
  intros a b W w M F A B R entered back.
  assert (E : entered
              = (log Modified (log Warning (log Warning W)),
                 with_Size (fst (GetScreenSize W w))
                   (with_OldScreen
                      (MkScreen5 (fst (fst (GetPosition W w)))
                         (snd (fst (GetPosition W w)))
                         (old2 (OldScreen w)) (old3 (OldScreen w))
                         (Borders w))
                      (with_Position (fst (GetPosition W w))
                         (with_FullScreen a w))))).
  { subst entered. unfold SetFullScreen.
    replace (FullScreen w =? a) with false
      by (symmetry; apply Z.eqb_neq; lia).
    replace (Mapped w =? 0) with false
      by (symmetry; apply Z.eqb_neq; exact M).
    replace (FullScreen (with_FullScreen a w) <=? 0) with false
      by (symmetry; destruct w; cbn [with_FullScreen FullScreen];
          apply Z.leb_gt; exact A).
    replace (GetRootWindow W (with_FullScreen a w)) with (GetRootWindow W w)
      by (destruct w; reflexivity).
    apply nonnull_true in R. rewrite R.
    rewrite (GetPosition_value W (with_FullScreen a w)).
    rewrite GetPosition_with_FullScreen.
    unfold PrefFullScreen, WindowRemap.
    rewrite (GetScreenSize_value W w) by (destruct w; reflexivity).
    destruct w. reflexivity. }
  assert (L : back
              = (log Modified (log Warning (fst entered)),
                 with_Borders (old4 (OldScreen (snd entered)))
                   (with_Size (old2 (OldScreen (snd entered)),
                               old3 (OldScreen (snd entered)))
                      (with_Position (old0 (OldScreen (snd entered)),
                                      old1 (OldScreen (snd entered)))
                         (with_FullScreen b (snd entered)))))).
  { subst back. unfold SetFullScreen.
    replace (FullScreen (snd entered) =? b) with false
      by (symmetry; rewrite E; destruct w;
          cbn [snd with_Size with_OldScreen with_Position with_FullScreen
               FullScreen]; apply Z.eqb_neq; lia).
    replace (Mapped (snd entered) =? 0) with false
      by (symmetry; rewrite E; destruct w;
          cbn [snd with_Size with_OldScreen with_Position with_FullScreen
               Mapped]; apply Z.eqb_neq; exact M).
    replace (FullScreen (with_FullScreen b (snd entered)) <=? 0) with true
      by (symmetry; destruct (snd entered);
          cbn [with_FullScreen FullScreen]; apply Z.leb_le; exact B).
    unfold WindowRemap. destruct (snd entered). reflexivity. }
  rewrite L, E. cbn [fst snd].
  destruct (fst (GetPosition W w)) as [px py]. cbn [fst snd].
  destruct w, W. cbn. repeat split.
Qed.

(** X14 on a mapped window with an [NSWindow] at address 5 and size 640 by
    480 that never saved a size: after the round trip its size is 0 by
    0. *)
Lemma SetFullScreen_round_trip_witness :
  let w0 := snd (Constructor 7%N blankWorld blankWindow) in
  let W0 := fst (Constructor 7%N blankWorld blankWindow) in
  let w := with_Size (640, 480) (with_Mapped 1 w0) in
  let W := SetRootWindow 5%N W0 w in
  let entered := SetFullScreen 1 W w in
  Size (snd (SetFullScreen 0 (fst entered) (snd entered))) = (0, 0).
Proof.
  intros w0 W0 w W entered.
  refine (proj1 (proj2 (proj2 (proj2 (proj2 (proj2 (proj2
    (SetFullScreen_round_trip 1 0 W w _ _ _ _ _)))))))).
  - intros H. discriminate H.
  - intros H. discriminate H.
  - reflexivity.
  - intros H. discriminate H.
  - intros H. discriminate H.
Defined.

(** ** Position *)

Lemma Int_part_IZR (z : Z) : Int_part (IZR z) = z.
Proof. symmetry. apply Int_part_spec. lra. Qed.

Lemma static_cast_int_IZR (z : Z) : static_cast_int (IZR z) = z.
Proof.
  unfold static_cast_int. destruct (Rle_dec 0 (IZR z)).
  - apply Int_part_IZR.
  - rewrite <- opp_IZR, Int_part_IZR. lia.
Qed.

Lemma GetSlot_setFrame (s : Slot) (o : ptr) (r : NSRect) (W : World)
    (w : Window) :
  GetSlot s (setFrame o r W) w = GetSlot s W w.
Proof.
  apply GetSlot_ext; [| reflexivity]. unfold setFrame.
  destruct (nonnull o); [destruct W |]; reflexivity.
Qed.

Lemma GetSlot_with_Position (s : Slot) (W : World) (p : Z * Z) (w : Window) :
  GetSlot s W (with_Position p w) = GetSlot s W w.
Proof. apply GetSlot_ext; [| destruct w]; reflexivity. Qed.

Lemma frame_setFrame (o : ptr) (r : NSRect) (W : World) (a : ptr) :
  o <> nullptr ->
  frame (setFrame o r W) a = if N.eqb a o then r else frame W a.
Proof.
  intros N. unfold setFrame. apply nonnull_true in N. rewrite N.
  destruct W. reflexivity.
Qed.

Lemma convertRectToBacking_setFrame (o : ptr) (r : NSRect) (W : World) :
  convertRectToBacking (setFrame o r W) = convertRectToBacking W.
Proof. unfold setFrame. destruct (nonnull o); [destruct W |]; reflexivity. Qed.



(** ** Creating the window *)



Lemma MakeCurrent_world (W : World) (w : Window) :
  dictionaries (MakeCurrent W w) = dictionaries W
  /\ observers (MakeCurrent W w) = observers W
  /\ events (MakeCurrent W w) = events W.
Proof.
  rewrite MakeCurrent_value.
  destruct (nonnull (GetContextId W w)); [destruct W |]; repeat split.
Qed.

Lemma registrations_with_Mapped (server : ptr) (W : World) (a : Z)
    (w : Window) :
  registrations server W (with_Mapped a w) = registrations server W w.
Proof. destruct w. reflexivity. Qed.

Lemma GetSlot_with_Mapped (s : Slot) (W : World) (a : Z) (w : Window) :
  GetSlot s W (with_Mapped a w) = GetSlot s W w.
Proof. apply GetSlot_ext; [| destruct w]; reflexivity. Qed.

Lemma SetSlot_with_Mapped (s : Slot) (p : ptr) (W : World) (a : Z)
    (w : Window) :
  SetSlot s p W (with_Mapped a w) = SetSlot s p W w.
Proof. destruct w, s; reflexivity. Qed.

Lemma GetSlot_set (s s' : Slot) (arg : ptr) (W : World) (w : Window) :
  CocoaManager w <> nullptr ->
  GetSlot s' (SetSlot s arg W w) w
  = if Slot_eqb s s' then arg else GetSlot s' W w.
Proof.
  intros M. rewrite GetSlot_SetSlot, N.eqb_refl.
  apply nonnull_true in M. rewrite M. reflexivity.
Qed.

(** The third part of [CreateAWindow] on a window with a manager. *)
Lemma CreateAWindow_context_value
    (P : Platform) (fuel : nat) (shared : option Window)
    (W : World) (w : Window) :
  NSOpenGLPFAAccelerated P <> 0 ->
  (3 <= fuel)%nat ->
  keeps_to_OpenGL (OpenGLInit P) ->
  CocoaManager w <> nullptr ->
  exists W',
    CreateAWindow_context P fuel shared W w = Some (W', with_Mapped 1 w)
    /\ (forall s, s <> CocoaServer -> s <> PixelFormat -> s <> ContextId ->
          GetSlot s W' w = GetSlot s W w)
    /\ GetSlot CocoaServer W' w = allocServer P
    /\ observers W'
       = (if nonnull (allocServer P)
          then registrations (allocServer P) W w else [])
         ++ observers W
    /\ events W'
       = (if nonnull (firstGranted P (candidates P) w) then []
          else [Warning]) ++ events W.
Proof.
  intros A F K M. unfold CreateAWindow_context.
  rewrite (CreateGLContext_value P fuel shared W w A F). cbv zeta.
  set (pf := firstGranted P (candidates P) w).
  set (ctx := if nonnull pf then _ else nullptr).
  set (Wl := if negb (nonnull pf) then log Warning W else W).
  set (Wc := SetContextId ctx (SetPixelFormat pf Wl w) w).
  destruct (K (MakeCurrent Wc w) w) as (Kw & Kd & Ko & Ke).
  destruct (OpenGLInit P (MakeCurrent Wc w) w) as [We we].
  cbn [fst snd] in *. subst we.
  set (server := allocServer P).
  set (wf := with_Mapped 1 w).
  set (Wg := SetCocoaServer server We wf).
  destruct (MakeCurrent_world Wc w) as (Md & Mo & Me).
  assert (DL : dictionaries Wl = dictionaries W
               /\ observers Wl = observers W
               /\ events Wl
                  = (if nonnull pf then [] else [Warning]) ++ events W).
  { subst Wl. destruct (nonnull pf); cbn [negb];
      [| destruct W]; repeat split. }
  destruct DL as (Dl & Ol & El).
  assert (Sc : forall s, s <> PixelFormat -> s <> ContextId ->
                 GetSlot s Wc w = GetSlot s W w).
  { intros s NP NC. subst Wc. as_slots. rewrite !GetSlot_SetSlot.
    destruct s; try congruence; cbn [Slot_eqb]; rewrite !andb_false_r;
      exact (GetSlot_ext _ Wl W w w Dl eq_refl). }
  assert (Se : forall s, GetSlot s We w = GetSlot s Wc w).
  { intros s. rewrite (GetSlot_ext s We (MakeCurrent Wc w) w w Kd eq_refl).
    exact (GetSlot_ext s _ Wc w w Md eq_refl). }
  assert (Sg : forall s, GetSlot s Wg w
                         = if Slot_eqb CocoaServer s then server
                           else GetSlot s Wc w).
  { intros s. subst Wg wf. as_slots.
    rewrite SetSlot_with_Mapped, (GetSlot_set _ _ _ _ _ M), Se.
    reflexivity. }
  assert (Wo : observers Wc = observers W /\ events Wc = events Wl).
  { subst Wc. as_slots.
    destruct (SetSlot_world ContextId ctx (SetSlot PixelFormat pf Wl w) w)
      as (_ & _ & o1 & e1).
    destruct (SetSlot_world PixelFormat pf Wl w) as (_ & _ & o2 & e2).
    rewrite o1, o2, e1, e2, Ol. split; reflexivity. }
  destruct Wo as (Oc & Ec).
  assert (Wgo : observers Wg = observers W /\ events Wg = events Wl).
  { subst Wg. as_slots.
    destruct (SetSlot_world CocoaServer server We wf) as (_ & _ & o1 & e1).
    rewrite o1, e1, Ko, Ke, Mo, Me, Oc, Ec. split; reflexivity. }
  destruct Wgo as (Og & Eg).
  assert (Rg : registrations server Wg wf = registrations server W w).
  { subst wf. rewrite registrations_with_Mapped.
    apply registrations_slots; rewrite Sg; cbn [Slot_eqb]; apply Sc;
      discriminate. }
  eexists. split; [reflexivity |].
  destruct (nonnull server) eqn:SV.
  - rewrite startObservations_value, Rg, Og.
    split; [| split; [| split]].
    + intros s N1 N2 N3.
      rewrite (GetSlot_ext s _ Wg w w) by (destruct Wg; reflexivity).
      rewrite Sg. destruct s; try congruence; cbn [Slot_eqb]; apply Sc;
        discriminate.
    + rewrite (GetSlot_ext _ _ Wg w w) by (destruct Wg; reflexivity).
      rewrite Sg. reflexivity.
    + apply observers_with_observers.
    + replace (events (with_observers _ Wg)) with (events Wg)
        by (destruct Wg; reflexivity).
      rewrite Eg. exact El.
  - split; [| split; [| split]].
    + intros s N1 N2 N3. rewrite Sg.
      destruct s; try congruence; cbn [Slot_eqb]; apply Sc; discriminate.
    + rewrite Sg. reflexivity.
    + exact Og.
    + rewrite Eg. exact El.
Qed.

Lemma GetSlot_same_manager (s : Slot) (W : World) (w' w : Window) :
  CocoaManager w' = CocoaManager w -> GetSlot s W w' = GetSlot s W w.
Proof. intros M. apply GetSlot_ext; [reflexivity | exact M]. Qed.

Lemma SetSlot_same_manager (s : Slot) (p : ptr) (W : World) (w' w : Window) :
  CocoaManager w' = CocoaManager w -> SetSlot s p W w' = SetSlot s p W w.
Proof.
  intros M.
  destruct s; unfold SetSlot, SetRootWindow, SetWindowId, SetParentId,
    SetContextId, SetPixelFormat, SetCocoaServer, GetCocoaManager;
    rewrite M; reflexivity.
Qed.

Lemma CreateAWindow_window_given (P : Platform) (W : World) (w : Window) :
  (nonnull (GetRootWindow W w) || nonnull (GetWindowId W w)
   || nonnull (GetParentId W w))%bool = true ->
  CreateAWindow_window P W w = (W, w, true).
Proof.
  intros G. unfold CreateAWindow_window.
  destruct (nonnull (GetRootWindow W w)), (nonnull (GetWindowId W w)),
    (nonnull (GetParentId W w)); try reflexivity.
  discriminate G.
Qed.

Lemma CreateAWindow_window_new (P : Platform) (W : World) (w : Window) :
  (nonnull (GetRootWindow W w) || nonnull (GetWindowId W w)
   || nonnull (GetParentId W w))%bool = false ->
  exists theWindow,
    CreateAWindow_window P W w
    = if nonnull theWindow
      then (SetRootWindow theWindow W w,
            with_WindowCreated 1
              (with_Position (CreateAWindow_Position W w)
                 (with_Size (CreateAWindow_Size W w) w)), true)
      else (log Error W,
            with_Position (CreateAWindow_Position W w)
              (with_Size (CreateAWindow_Size W w) w), false).
Proof.
  intros G. unfold CreateAWindow_window, CreateAWindow_Size,
    CreateAWindow_Position.
  apply orb_false_iff in G. destruct G as [G G3].
  apply orb_false_iff in G. destruct G as [G1 G2].
  rewrite G1, G2, G3. cbn [negb andb].
  destruct (negb (FullScreen w =? 0) && nonnull (mainScreen W))%bool.
  - rewrite if_negb.
    exists (allocFullScreenWindow P (send_frame W (mainScreen W))).
    destruct w. reflexivity.
  - rewrite if_negb.
    set (w1 := if fst (Size w) + snd (Size w) =? 0 then with_Size (300, 300) w
               else w).
    set (w2 := if fst (Position w1) + snd (Position w1) =? 0
               then with_Position (50, 50) w1 else w1).
    exists
      (allocWindow P
         (if nonnull (mainScreen W)
          then convertRectFromBacking P (mainScreen W)
                 (MkRect (IZR (fst (Position w2))) (IZR (snd (Position w2)))
                    (IZR (fst (Size w2))) (IZR (snd (Size w2))))
          else MkRect (IZR (fst (Position w2))) (IZR (snd (Position w2)))
                 (IZR (fst (Size w2))) (IZR (snd (Size w2))))).
    assert (E : with_Position
                  (if fst (Position w) + snd (Position w) =? 0
                   then (50, 50) else Position w)
                  (with_Size
                     (if fst (Size w) + snd (Size w) =? 0
                      then (300, 300) else Size w) w) = w2).
    { subst w2 w1.
      destruct (fst (Size w) + snd (Size w) =? 0);
        replace (Position (with_Size (300, 300) w)) with (Position w)
          by (destruct w; reflexivity);
        destruct (fst (Position w) + snd (Position w) =? 0);
        destruct w; reflexivity. }
    rewrite E. as_slots.
    rewrite (SetSlot_same_manager RootWindow _ W w2 w)
      by (rewrite <- E; destruct w; reflexivity).
    reflexivity.
Qed.

Lemma CreateAWindow_view_value (P : Platform) (W : World) (w : Window) :
  (CreateAWindow_view P W w = None
   /\ GetWindowId W w = nullptr
   /\ (GetParentId W w <> nullptr /\ windowOf P (GetParentId W w) = nullptr
       \/ GetParentId W w = nullptr /\ GetRootWindow W w = nullptr))
  \/ (CreateAWindow_view P W w = Some (W, w) /\ GetWindowId W w <> nullptr)
  \/ (exists glView rect,
        CreateAWindow_view P W w
        = Some (SetWindowId glView (setFrame glView rect W) w,
                with_ViewCreated 1 w)
        /\ GetWindowId W w = nullptr).
Proof.
  unfold CreateAWindow_view.
  destruct (nonnull (GetWindowId W w)) eqn:V; cbn [negb].
  - right. left. split; [reflexivity | apply nonnull_true; exact V].
  - apply nonnull_false in V.
    destruct (nonnull (GetParentId W w)) eqn:Pa.
    + destruct (nonnull (windowOf P (GetParentId W w))) eqn:Wi; cbn [negb].
      * right. right. eexists _, _. split; [reflexivity | exact V].
      * left. split; [reflexivity |]. split; [exact V |]. left.
        split; [apply nonnull_true; exact Pa | apply nonnull_false; exact Wi].
    + destruct (nonnull (GetRootWindow W w)) eqn:Ro; cbn [negb].
      * right. right. eexists _, _. split; [reflexivity | exact V].
      * left. split; [reflexivity |]. split; [exact V |]. right.
        split; apply nonnull_false; assumption.
Qed.

Lemma setFrame_world (o : ptr) (r : NSRect) (W : World) :
  dictionaries (setFrame o r W) = dictionaries W
  /\ observers (setFrame o r W) = observers W
  /\ events (setFrame o r W) = events W.
Proof.
  unfold setFrame. destruct (nonnull o); [destruct W |]; repeat split.
Qed.

(** The third part of [CreateAWindow], in terms of the getters. *)
Lemma CreateAWindow_context_facts
    (P : Platform) (fuel : nat) (shared : option Window)
    (W : World) (w : Window) :
  NSOpenGLPFAAccelerated P <> 0 ->
  (3 <= fuel)%nat ->
  keeps_to_OpenGL (OpenGLInit P) ->
  CocoaManager w <> nullptr ->
  exists W',
    CreateAWindow_context P fuel shared W w = Some (W', with_Mapped 1 w)
    /\ GetSlot RootWindow W' (with_Mapped 1 w) = GetSlot RootWindow W w
    /\ GetSlot WindowId W' (with_Mapped 1 w) = GetSlot WindowId W w
    /\ GetSlot ParentId W' (with_Mapped 1 w) = GetSlot ParentId W w
    /\ GetSlot CocoaServer W' (with_Mapped 1 w) = allocServer P
    /\ observers W'
       = (if nonnull (allocServer P)
          then registrations (allocServer P) W' (with_Mapped 1 w) else [])
         ++ observers W
    /\ (events W' = events W \/ events W' = Warning :: events W).
Proof.
  intros A F K M.
  destruct (CreateAWindow_context_value P fuel shared W w A F K M)
    as (W' & E & S & SV & O & Ev).
  exists W'. split; [exact E |]. rewrite !GetSlot_with_Mapped.
  assert (R : GetSlot RootWindow W' w = GetSlot RootWindow W w)
    by (apply S; discriminate).
  assert (I : GetSlot WindowId W' w = GetSlot WindowId W w)
    by (apply S; discriminate).
  repeat (split; [first [exact R | exact I | exact SV
                         | apply S; discriminate] |]).
  split.
  - rewrite registrations_with_Mapped.
    rewrite (registrations_slots _ W' W w R I). exact O.
  - rewrite Ev. destruct (nonnull (firstGranted P (candidates P) w));
      [left | right]; reflexivity.
Qed.

Lemma Initialize_cases
    (P : Platform) (fuel : nat) (shared : option Window)
    (W : World) (w : Window) :
  NSOpenGLPFAAccelerated P <> 0 ->
  (3 <= fuel)%nat ->
  keeps_to_OpenGL (OpenGLInit P) ->
  CocoaManager w <> nullptr ->
  OnScreenInitialized w = 0 ->
  let given :=
    (nonnull (GetRootWindow W w) || nonnull (GetWindowId W w)
     || nonnull (GetParentId W w))%bool in
  match Initialize P fuel shared W w with
  | None =>
      GetWindowId W w = nullptr
      /\ GetParentId W w <> nullptr
      /\ windowOf P (GetParentId W w) = nullptr
  | Some (W', w') =>
      OnScreenInitialized w' = 1
      /\ CocoaManager w' = CocoaManager w
      /\ Initialize P fuel shared W' w' = Some (W', w')
      /\ GetParentId W' w' = GetParentId W w
      /\ (Mapped w' = 1
          /\ (given = true ->
              GetRootWindow W' w' = GetRootWindow W w
              /\ WindowCreated w' = WindowCreated w)
          /\ (given = false ->
              GetRootWindow W' w' <> nullptr /\ WindowCreated w' = 1)
          /\ (GetWindowId W w <> nullptr ->
              GetWindowId W' w' = GetWindowId W w
              /\ ViewCreated w' = ViewCreated w)
          /\ (GetWindowId W w = nullptr -> ViewCreated w' = 1)
          /\ GetCocoaServer W' w' = allocServer P
          /\ observers W'
             = (if nonnull (allocServer P)
                then registrations (allocServer P) W' w' else [])
               ++ observers W
          /\ (events W' = events W \/ events W' = Warning :: events W)
          \/ given = false
             /\ events W' = Error :: events W
             /\ Mapped w' = Mapped w
             /\ (forall s, GetSlot s W' w' = GetSlot s W w)
             /\ observers W' = observers W
             /\ WindowCreated w' = WindowCreated w
             /\ ViewCreated w' = ViewCreated w
             /\ W' = log Error W
             /\ w' = with_Position (CreateAWindow_Position W w)
                       (with_Size (CreateAWindow_Size W w)
                          (with_OnScreenInitialized 1 w)))
  end.
Proof.
  intros A F K M OSI given.
  assert (Again : forall W' w', OnScreenInitialized w' = 1 ->
                    Initialize P fuel shared W' w' = Some (W', w')).
  { intros W' w' H. unfold Initialize. rewrite H. reflexivity. }
  unfold Initialize at 1. rewrite OSI. cbn [Z.eqb].
  set (w0 := with_OnScreenInitialized 1 w).
  assert (M0 : CocoaManager w0 = CocoaManager w) by (destruct w; reflexivity).
  assert (G0 : (nonnull (GetRootWindow W w0) || nonnull (GetWindowId W w0)
                || nonnull (GetParentId W w0))%bool = given).
  { subst given. as_slots. rewrite !(GetSlot_same_manager _ W w0 w M0).
    reflexivity. }
  subst given. as_slots. unfold CreateAWindow.
  destruct (nonnull (GetSlot RootWindow W w) || nonnull (GetSlot WindowId W w)
            || nonnull (GetSlot ParentId W w))%bool eqn:G.
  - (* A window, a view or a parent was given. *)
    rewrite (CreateAWindow_window_given P W w0 G0). cbn [negb].
    destruct (CreateAWindow_view_value P W w0)
      as [(E & V & Pa) | [(E & V) | (glView & rect & E & V)]];
      rewrite E; as_slots;
      rewrite ?(GetSlot_same_manager _ W w0 w M0) in *.
    + destruct Pa as [[Pa Wi] | [Pa Ro]].
      * split; [exact V |]. split; [exact Pa |]. exact Wi.
      * exfalso. rewrite V, Pa, Ro in G. discriminate G.
    + destruct (CreateAWindow_context_facts P fuel shared W w0 A F K)
        as (W' & E' & R & I & Pa & SV & O & Ev);
        [rewrite M0; exact M |].
      rewrite E'. rewrite !(GetSlot_same_manager _ W w0 w M0) in *.
      split; [destruct w; reflexivity |].
      split; [destruct w; reflexivity |].
      split; [apply Again; destruct w; reflexivity |].
      split; [exact Pa |]. left.
      split; [destruct w; reflexivity |].
      split; [intros _; split; [exact R | destruct w; reflexivity] |].
      split; [discriminate |].
      split; [intros _; split; [exact I | destruct w; reflexivity] |].
      split; [contradiction |].
      split; [exact SV |]. split; [exact O | exact Ev].
    + set (Wb := SetSlot WindowId glView (setFrame glView rect W) w0) in *.
      set (wb := with_ViewCreated 1 w0) in *.
      assert (Mb : CocoaManager wb = CocoaManager w)
        by (destruct w; reflexivity).
      destruct (setFrame_world glView rect W) as (Df & Of & Ef).
      destruct (SetSlot_world WindowId glView (setFrame glView rect W) w0)
        as (_ & _ & Ob & Eb).
      fold Wb in Ob, Eb. rewrite Of in Ob. rewrite Ef in Eb.
      assert (Sb : forall s, s <> WindowId ->
                     GetSlot s Wb wb = GetSlot s W w).
      { intros s N. rewrite (GetSlot_same_manager s Wb wb w0)
          by (destruct w; reflexivity).
        subst Wb. rewrite GetSlot_set by (rewrite M0; exact M).
        destruct s; try congruence; cbn [Slot_eqb];
          rewrite (GetSlot_ext _ _ W w0 w Df M0); reflexivity. }
      destruct (CreateAWindow_context_facts P fuel shared Wb wb A F K)
        as (W' & E' & R & I & Pa & SV & O & Ev);
        [rewrite Mb; exact M |].
      rewrite E'.
      split; [destruct w; reflexivity |].
      split; [destruct w; reflexivity |].
      split; [apply Again; destruct w; reflexivity |].
      split; [rewrite Pa; apply Sb; discriminate |]. left.
      split; [destruct w; reflexivity |].
      split; [intros _; split;
              [rewrite R; apply Sb; discriminate | destruct w; reflexivity] |].
      split; [discriminate |].
      split; [intros N; contradiction |].
      split; [intros _; destruct w; reflexivity |].
      split; [exact SV |].
      split; [rewrite O, Ob; reflexivity | rewrite Eb in Ev; exact Ev].
  - (* Nothing was given: VTK creates the window. *)
    destruct (CreateAWindow_window_new P W w0 G0) as (theWindow & E).
    rewrite E. clear E.
    set (sz := CreateAWindow_Size W w0).
    set (pos := CreateAWindow_Position W w0).
    apply orb_false_iff in G. destruct G as [G G3].
    apply orb_false_iff in G. destruct G as [G1 G2].
    apply nonnull_false in G1, G2, G3.
    destruct (nonnull theWindow) eqn:T; cbn [negb].
    + apply nonnull_true in T.
      set (Wa := SetRootWindow theWindow W w0).
      set (wa := with_WindowCreated 1 (with_Position pos (with_Size sz w0))).
      assert (Ma : CocoaManager wa = CocoaManager w)
        by (destruct w; reflexivity).
      assert (Sa : forall s, GetSlot s Wa wa
                             = if Slot_eqb RootWindow s then theWindow
                               else GetSlot s W w).
      { intros s. rewrite (GetSlot_same_manager s Wa wa w0)
          by (destruct w; reflexivity).
        subst Wa. as_slots. rewrite GetSlot_set by (rewrite M0; exact M).
        rewrite (GetSlot_same_manager _ W w0 w M0). reflexivity. }
      destruct (SetSlot_world RootWindow theWindow W w0) as (_ & _ & Oa & Ea).
      change (SetSlot RootWindow theWindow W w0) with Wa in Oa, Ea.
      destruct (CreateAWindow_view_value P Wa wa)
        as [(E & V & Pa) | [(E & V) | (glView & rect & E & V)]];
        rewrite E; as_slots.
      * exfalso. destruct Pa as [[Pa _] | [_ Ro]].
        -- rewrite Sa in Pa. cbn [Slot_eqb] in Pa. contradiction.
        -- rewrite Sa in Ro. cbn [Slot_eqb] in Ro. contradiction.
      * exfalso. rewrite Sa in V. cbn [Slot_eqb] in V. contradiction.
      * set (Wb := SetSlot WindowId glView (setFrame glView rect Wa) wa) in *.
        set (wb := with_ViewCreated 1 wa) in *.
        assert (Mb : CocoaManager wb = CocoaManager w)
          by (destruct w; reflexivity).
        destruct (setFrame_world glView rect Wa) as (Df & Of & Ef).
        destruct (SetSlot_world WindowId glView (setFrame glView rect Wa) wa)
          as (_ & _ & Ob & Eb).
        fold Wb in Ob, Eb. rewrite Of, Oa in Ob. rewrite Ef, Ea in Eb.
        assert (Sb : forall s, s <> WindowId ->
                       GetSlot s Wb wb = GetSlot s Wa wa).
        { intros s N. rewrite (GetSlot_same_manager s Wb wb wa)
            by (destruct w; reflexivity).
          subst Wb. rewrite GetSlot_set by (rewrite Ma; exact M).
          destruct s; try congruence; cbn [Slot_eqb];
            rewrite (GetSlot_ext _ _ Wa wa wa Df eq_refl); reflexivity. }
        destruct (CreateAWindow_context_facts P fuel shared Wb wb A F K)
          as (W' & E' & R & I & Pa & SV & O & Ev);
          [rewrite Mb; exact M |].
        rewrite E'.
        split; [destruct w; reflexivity |].
        split; [destruct w; reflexivity |].
        split; [apply Again; destruct w; reflexivity |].
        split; [rewrite Pa, Sb, Sa by discriminate; reflexivity |]. left.
        split; [destruct w; reflexivity |].
        split; [discriminate |].
        split; [intros _; split;
                [rewrite R, Sb, Sa by discriminate; exact T
                | destruct w; reflexivity] |].
        split; [intros N; contradiction |].
        split; [intros _; destruct w; reflexivity |].
        split; [exact SV |].
        split; [rewrite O, Ob; reflexivity | rewrite Eb in Ev; exact Ev].
    + split; [destruct w; reflexivity |].
      split; [destruct w; reflexivity |].
      split; [apply Again; destruct w; reflexivity |].
      assert (S : forall s,
                GetSlot s (log Error W) (with_Position pos (with_Size sz w0))
                = GetSlot s W w).
      { intros s. rewrite GetSlot_log. apply GetSlot_same_manager.
        destruct w; reflexivity. }
      split; [apply S |]. right.
      split; [reflexivity |].
      split; [destruct W; reflexivity |].
      split; [destruct w; reflexivity |].
      split; [exact S |].
      split; [destruct W; reflexivity |].
      split; [destruct w; reflexivity |].
      split; [destruct w; reflexivity |].
      split; [reflexivity |].
      subst sz pos. destruct w; reflexivity.
Qed.

(** X17.  [Initialize] on a window that has a manager and is not yet
    initialised, when the loop of [CreateGLContext] ends and the
    superclass's [OpenGLInit] keeps to the OpenGL state.  The only
    assertion that can fail is the one for a parent view that is in no
    window.  Otherwise the window counts as initialised, so a second
    [Initialize] does nothing, and either it is mapped or no [NSWindow]
    could be created: then an error is reported, the object keeps the
    size and the position that [CreateAWindow] had settled on for the
    window -- the size of the screen in full-screen mode, otherwise 300 by
    300 in place of a size that sums to 0 and (50, 50) in place of a
    position that sums to 0 -- and nothing else changes; since the window
    stays initialised the creation is not tried again.
    A mapped window keeps the [NSWindow] and the view the application gave
    it, with their creation flags; VTK creates an [NSWindow] only when
    neither window, view nor parent was given, and a view only when none
    was given, and flags what it creates.  The server is stored and
    registered for what VTK created. *)
Theorem Initialize_outcome :
  forall (P : Platform) (fuel : nat) (shared : option Window)
         (W : World) (w : Window),
    NSOpenGLPFAAccelerated P <> 0 ->
    (3 <= fuel)%nat ->
    keeps_to_OpenGL (OpenGLInit P) ->
    CocoaManager w <> nullptr ->
    OnScreenInitialized w = 0 ->
    let given :=
      (nonnull (GetRootWindow W w) || nonnull (GetWindowId W w)
       || nonnull (GetParentId W w))%bool in
    match Initialize P fuel shared W w with
    | None =>
        GetWindowId W w = nullptr
        /\ GetParentId W w <> nullptr
        /\ windowOf P (GetParentId W w) = nullptr
    | Some (W', w') =>
        OnScreenInitialized w' = 1
        /\ CocoaManager w' = CocoaManager w
        /\ Initialize P fuel shared W' w' = Some (W', w')
        /\ GetParentId W' w' = GetParentId W w
        /\ (Mapped w' = 1
            /\ (given = true ->
                GetRootWindow W' w' = GetRootWindow W w
                /\ WindowCreated w' = WindowCreated w)
            /\ (given = false ->
                GetRootWindow W' w' <> nullptr /\ WindowCreated w' = 1)
            /\ (GetWindowId W w <> nullptr ->
                GetWindowId W' w' = GetWindowId W w
                /\ ViewCreated w' = ViewCreated w)
            /\ (GetWindowId W w = nullptr -> ViewCreated w' = 1)
            /\ GetCocoaServer W' w' = allocServer P
            /\ observers W'
               = (if nonnull (allocServer P)
                  then registrations (allocServer P) W' w' else [])
                 ++ observers W
            /\ (events W' = events W \/ events W' = Warning :: events W)
            \/ given = false
               /\ events W' = Error :: events W
               /\ Mapped w' = Mapped w
               /\ (forall s, GetSlot s W' w' = GetSlot s W w)
               /\ observers W' = observers W
               /\ WindowCreated w' = WindowCreated w
               /\ ViewCreated w' = ViewCreated w
               /\ W' = log Error W
               /\ w' = with_Position (CreateAWindow_Position W w)
                         (with_Size (CreateAWindow_Size W w)
                            (with_OnScreenInitialized 1 w)))
    end.
Proof. exact Initialize_cases. Qed.

Lemma keeps_to_OpenGL_example :
  keeps_to_OpenGL (OpenGLInit examplePlatform)
  /\ keeps_to_OpenGL (ReleaseGraphicsResources examplePlatform).
Proof. split; intros W w; repeat split. Qed.

(** X17 on the constructed window and the example platform: the window
    and the view are created and flagged, and the window is mapped. *)
Lemma Initialize_outcome_witness :
  let w := snd (Constructor 7%N blankWorld blankWindow) in
  let W := fst (Constructor 7%N blankWorld blankWindow) in
  match Initialize examplePlatform 3 None W w with
  | Some (W', w') =>
      GetRootWindow W' w' <> nullptr
      /\ WindowCreated w' = 1 /\ ViewCreated w' = 1 /\ Mapped w' = 1
  | None => False
  end.
Proof.
  intros w W.
  assert (A : NSOpenGLPFAAccelerated examplePlatform <> 0)
    by (intros H; discriminate H).
  assert (M : CocoaManager w <> nullptr) by (intros H; discriminate H).
  pose proof (Initialize_outcome examplePlatform 3 None W w A (le_n 3)
                (proj1 keeps_to_OpenGL_example) M eq_refl) as H.
  cbv zeta in H.
  destruct (Initialize examplePlatform 3 None W w) as [[W' w'] |] eqn:E.
  - destruct H as (_ & _ & _ & _ & [H | H]).
    + destruct H as (Mp & _ & Gf & _ & Vf & _).
      destruct (Gf eq_refl) as [R C].
      split; [exact R |]. split; [exact C |].
      split; [exact (Vf eq_refl) | exact Mp].
    + destruct H as (_ & Ev & _). exfalso.
      vm_compute in E. injection E as <- <-.
      vm_compute in Ev. discriminate Ev.
  - destruct H as (_ & N & _). apply N. reflexivity.
Defined.

(** ** From [Initialize] to [Finalize] *)

Lemma registrations_observer (server : ptr) (W : World) (w : Window)
    (o : Observation) :
  In o (registrations server W w) -> ob_observer o = server.
Proof.
  unfold registrations.
  destruct (negb (ViewCreated w =? 0) && nonnull (GetWindowId W w))%bool;
    destruct (negb (WindowCreated w =? 0) && nonnull (GetRootWindow W w))%bool;
    cbn [app In]; intros I;
    repeat match goal with
           | H : _ \/ _ |- _ => destruct H
           | H : False |- _ => destruct H
           end; subst o; reflexivity.
Qed.

Lemma DestroyWindow_window (P : Platform) (W : World) (w : Window) :
  snd (DestroyWindow P W w)
  = with_Mapped 0
      (with_ViewCreated 0
         (with_WindowCreated 0 (snd (finishRendering P W w)))).
Proof.
  unfold DestroyWindow. destruct (finishRendering P W w). reflexivity.
Qed.

Lemma finishRendering_keeps (P : Platform) (W : World) (w : Window) :
  keeps_to_OpenGL (ReleaseGraphicsResources P) ->
  snd (finishRendering P W w) = w
  /\ dictionaries (fst (finishRendering P W w)) = dictionaries W
  /\ observers (fst (finishRendering P W w)) = observers W
  /\ events (fst (finishRendering P W w)) = events W.
Proof.
  intros K. unfold finishRendering.
  destruct (negb (OwnContext w =? 0) && nonnull (GetContextId W w))%bool;
    [| repeat split].
  destruct (K (MakeCurrent W w) w) as (Kw & Kd & Ko & Ke).
  destruct (MakeCurrent_world W w) as (Md & Mo & Me).
  rewrite Kw, Kd, Ko, Ke, Md, Mo, Me. repeat split.
Qed.

(** X18.  What [Initialize] sets up, [Finalize] takes down.  For a window
    that has a manager, no server yet and nothing created, on a platform
    whose server is a new object, and with superclass functions that keep
    to the OpenGL state: after [Initialize] and then [Finalize] the
    notification centre is as it was before, the six entries are gone
    whether VTK or the application supplied them, the flags are 0 so that
    [Initialize] can run again, and the [NSWindow] is closed exactly when
    VTK created it -- never a window that the application gave. *)
Theorem Initialize_Finalize :
  forall (P : Platform) (fuel : nat) (shared : option Window)
         (W : World) (w : Window) (W1 : World) (w1 : Window),
    NSOpenGLPFAAccelerated P <> 0 ->
    (3 <= fuel)%nat ->
    keeps_to_OpenGL (OpenGLInit P) ->
    keeps_to_OpenGL (ReleaseGraphicsResources P) ->
    CocoaManager w <> nullptr ->
    OnScreenInitialized w = 0 ->
    WindowCreated w = 0 ->
    GetCocoaServer W w = nullptr ->
    (forall o, In o (observers W) -> ob_observer o <> allocServer P) ->
    Initialize P fuel shared W w = Some (W1, w1) ->
    let given :=
      (nonnull (GetRootWindow W w) || nonnull (GetWindowId W w)
       || nonnull (GetParentId W w))%bool in
    let after := Finalize P W1 w1 in
    observers (fst after) = observers W
    /\ (forall s, GetSlot s (fst after) (snd after) = nullptr)
    /\ events (fst after)
       = (if WindowCreated w1 =? 0 then []
          else [NSWindow_close (GetRootWindow W1 w1)])
         ++ events W1
    /\ (given = true -> WindowCreated w1 = 0)
    /\ OnScreenInitialized (snd after) = 0
    /\ WindowCreated (snd after) = 0
    /\ ViewCreated (snd after) = 0
    /\ Mapped (snd after) = 0
    /\ CocoaManager (snd after) = CocoaManager w.
Proof.
  intros P fuel shared W w W1 w1 A F KI KR M OSI WC0 SV0 Fresh E given after.
  pose proof (Initialize_cases P fuel shared W w A F KI M OSI) as H.
  cbv zeta in H. rewrite E in H. fold given in H.
  destruct H as (OS1 & M1 & _ & _ & H).
  set (w1' := with_OnScreenInitialized 0 w1).
  assert (FA : after = DestroyWindow P W1 w1').
  { subst after. unfold Finalize. rewrite OS1. reflexivity. }
  assert (M1' : CocoaManager w1' = CocoaManager w1)
    by (destruct w1; reflexivity).
  destruct (finishRendering_keeps P W1 w1' KR) as (Bw & Bd & Bo & Be).
  pose proof (DestroyWindow_after P W1 w1') as D. cbv zeta in D.
  pose proof (DestroyWindow_window P W1 w1') as DW.
  rewrite <- FA in D, DW. rewrite Bw, Bo, Be in D. rewrite Bw in DW.
  destruct D as (G & (C & V & Mp) & Ev & O & _ & _).
  assert (SB : forall s,
             GetSlot s (fst (finishRendering P W1 w1')) w1' = GetSlot s W1 w1).
  { intros s. apply GetSlot_ext; assumption. }
  as_slots. rewrite !SB in Ev, O.
  assert (SB' : forall s, GetSlot s W1 w1' = GetSlot s W1 w1)
    by (intros s; apply GetSlot_same_manager; exact M1').
  rewrite (registrations_slots _ _ W1 w1')
    in O by (rewrite SB, SB'; reflexivity).
  replace (registrations (GetSlot CocoaServer W1 w1) W1 w1')
    with (registrations (GetSlot CocoaServer W1 w1) W1 w1) in O
    by (destruct w1; reflexivity).
  replace (WindowCreated w1') with (WindowCreated w1) in Ev
    by (destruct w1; reflexivity).
  assert (Flags : WindowCreated w1 = 0
                  \/ WindowCreated w1 = 1
                     /\ GetSlot RootWindow W1 w1 <> nullptr).
  { destruct H as [(_ & Gt & Gf & _) | (_ & _ & _ & _ & _ & WC & _)].
    - destruct given.
      + left. rewrite (proj2 (Gt eq_refl)). exact WC0.
      + right. destruct (Gf eq_refl) as [R1 C1]. split; assumption.
    - left. rewrite WC. exact WC0. }
  split; [| split; [exact G |]; split; [| split; [| split;
    [| split; [exact C |]; split; [exact V |]; split; [exact Mp |]]]]].
  - rewrite O.
    destruct H as [(_ & _ & _ & _ & _ & SV & O1 & _)
                  | (_ & _ & _ & S & O1 & _)].
    + as_slots. rewrite SV, O1.
      destruct (nonnull (allocServer P)) eqn:N.
      * rewrite filter_app, filter_all_false, filter_all_true;
          [reflexivity | |].
        -- intros x I. apply negb_true_iff, not_true_iff_false.
           cbn [andb]. rewrite existsb_Observation_eqb.
           intros R. apply registrations_observer in R.
           exact (Fresh x I R).
        -- intros x I. apply negb_false_iff. cbn [andb].
           apply existsb_Observation_eqb. exact I.
      * apply filter_all_true. reflexivity.
    + rewrite (S CocoaServer), O1. as_slots. rewrite SV0.
      apply filter_all_true. reflexivity.
  - rewrite Ev. destruct Flags as [Z0 | [Z1 R]].
    + rewrite Z0. reflexivity.
    + rewrite Z1. apply nonnull_true in R. rewrite R. reflexivity.
  - intros Gv. destruct H as [(_ & Gt & _) | (Gf & _)].
    + rewrite (proj2 (Gt Gv)). exact WC0.
    + fold given in Gf. congruence.
  - rewrite DW. destruct w1. reflexivity.
  - rewrite DW, <- M1. destruct w1. reflexivity.
Qed.

(** X18 on the constructed window and the example platform: the window
    that [Initialize] created at address 32 is closed by [Finalize], and
    the notification centre is empty again. *)
Lemma Initialize_Finalize_witness :
  let w := snd (Constructor 7%N blankWorld blankWindow) in
  let W := fst (Constructor 7%N blankWorld blankWindow) in
  let s1 := match Initialize examplePlatform 3 None W w with
            | Some s => s
            | None => (W, w)
            end in
  let after := Finalize examplePlatform (fst s1) (snd s1) in
  observers (fst after) = []
  /\ events (fst after) = [NSWindow_close 32%N].
Proof.
  intros w W s1 after.
  assert (A : NSOpenGLPFAAccelerated examplePlatform <> 0)
    by (intros H; discriminate H).
  assert (M : CocoaManager w <> nullptr) by (intros H; discriminate H).
  assert (Fresh : forall o, In o (observers W) ->
                    ob_observer o <> allocServer examplePlatform)
    by (intros o I; destruct I).
  pose proof (Initialize_Finalize examplePlatform 3 None W w (fst s1) (snd s1)
                A (le_n 3) (proj1 keeps_to_OpenGL_example)
                (proj2 keeps_to_OpenGL_example) M eq_refl eq_refl eq_refl
                Fresh eq_refl) as H.
  cbv zeta in H. destruct H as (O & _ & Ev & _).
  split; [exact O | exact Ev].
Defined.

(** ** A window closed by the user *)

(** X19.  When the user closes an [NSWindow] that VTK created, the
    server's [windowWillClose:] stops the observations and forgets the
    window, and nothing else.  A later [DestroyWindow] then removes the
    remaining entries without closing the window a second time, although
    [WindowCreated] is still set.  The handler's assertions fail exactly
    when VTK did not create the window or the notification is for another
    object. *)
Theorem windowWillClose_then_DestroyWindow :
  forall (P : Platform) (server object : ptr) (W : World) (w : Window),
    keeps_to_OpenGL (ReleaseGraphicsResources P) ->
    match windowWillClose server object W w with
    | None => WindowCreated w = 0 \/ object <> GetRootWindow W w
    | Some W' =>
        WindowCreated w <> 0
        /\ object = GetRootWindow W w
        /\ GetRootWindow W' w = nullptr
        /\ (forall s, s <> RootWindow -> GetSlot s W' w = GetSlot s W w)
        /\ (forall x,
              In x (observers W')
              <-> In x (observers W) /\ ~ In x (registrations server W w))
        /\ events W' = events W
        /\ events (fst (DestroyWindow P W' w)) = events W'
        /\ (forall s,
              GetSlot s (fst (DestroyWindow P W' w))
                (snd (DestroyWindow P W' w)) = nullptr)
    end.
Proof.
  intros P server object W w KR. unfold windowWillClose, GetWindowCreated.
  destruct (WindowCreated w =? 0) eqn:C.
  { left. apply Z.eqb_eq. exact C. }
  destruct (N.eqb object (GetRootWindow W w)) eqn:O; cbn [negb].
  2:{ right. apply N.eqb_neq. exact O. }
  apply Z.eqb_neq in C. apply N.eqb_eq in O.
  set (W' := SetRootWindow nullptr (stopObservations server W w) w).
  assert (R : GetSlot RootWindow W' w = nullptr).
  { subst W'. as_slots. rewrite GetSlot_clear. reflexivity. }
  destruct (SetSlot_world RootWindow nullptr (stopObservations server W w) w)
    as (_ & _ & Ob & Ev).
  destruct (stopObservations_world server W w) as (_ & _ & _ & Es).
  split; [exact C |]. split; [exact O |]. split; [exact R |].
  split; [| split; [| split; [| split]]].
  - intros s N. subst W'. as_slots. rewrite GetSlot_clear.
    destruct s; try congruence; cbn [Slot_eqb];
      apply GetSlot_stopObservations.
  - intros x. subst W'. as_slots. rewrite Ob. apply In_stopObservations.
  - subst W'. as_slots. rewrite Ev, Es. reflexivity.
  - pose proof (DestroyWindow_after P W' w) as D. cbv zeta in D.
    destruct D as (_ & _ & E & _).
    destruct (finishRendering_keeps P W' w KR) as (Bw & Bd & _ & Be).
    rewrite E, Bw, Be. as_slots.
    rewrite (GetSlot_ext RootWindow _ W' w w Bd eq_refl), R.
    rewrite andb_false_r. reflexivity.
  - apply (DestroyWindow_after P W' w).
Qed.

(** X19 on a window that VTK created at address 5, with the server at
    address 9 observing it: after the handler [DestroyWindow] logs no
    close. *)
Lemma windowWillClose_then_DestroyWindow_witness :
  let w0 := snd (Constructor 7%N blankWorld blankWindow) in
  let W0 := fst (Constructor 7%N blankWorld blankWindow) in
  let w := with_WindowCreated 1 w0 in
  let W := startObservations 9%N (SetRootWindow 5%N W0 w) w in
  match windowWillClose 9%N 5%N W w with
  | Some W' =>
      observers W = [MkObservation 9%N NSWindowWillCloseNotification 5%N]
      /\ events (fst (DestroyWindow examplePlatform W' w)) = []
  | None => False
  end.
Proof.
  intros w0 W0 w W.
  pose proof (windowWillClose_then_DestroyWindow examplePlatform 9%N 5%N W w
                (proj2 keeps_to_OpenGL_example)) as H.
  destruct (windowWillClose 9%N 5%N W w) as [W' |] eqn:E.
  - destruct H as (_ & _ & _ & _ & _ & E1 & E2 & _).
    split; [reflexivity |]. rewrite E2, E1. reflexivity.
  - destruct H as [H | H]; [discriminate H | apply H; reflexivity].
Defined.

(** ** From the constructor to the destructor *)

Lemma CursorCalls_frame (calls : list CursorCall) (W : World) (w : Window) :
  let W' := fst (CursorCalls calls W w) in
  let w' := snd (CursorCalls calls W w) in
  CocoaManager w' = CocoaManager w
  /\ OnScreenInitialized w' = OnScreenInitialized w
  /\ retainCount W' = retainCount W
  /\ observers W' = observers W.
Proof.
  revert W w. induction calls as [| c rest IH]; intros W w.
  - repeat split.
  - cbn [CursorCalls]. destruct c.
    + unfold HideCursor. destruct (negb (CursorHidden w =? 0)).
      * apply IH.
      * specialize (IH (log NSCursor_hide W) (with_CursorHidden 1 w)).
        cbv zeta in *. destruct IH as (a & b & c & d).
        rewrite a, b, c, d. destruct W, w. repeat split.
    + unfold ShowCursor. destruct (CursorHidden w =? 0).
      * apply IH.
      * specialize (IH (log NSCursor_unhide W) (with_CursorHidden 0 w)).
        cbv zeta in *. destruct IH as (a & b & c & d).
        rewrite a, b, c, d. destruct W, w. repeat split.
Qed.

Lemma CursorCalls_dictionaries
    (calls : list CursorCall) (W : World) (w : Window) :
  dictionaries (fst (CursorCalls calls W w)) = dictionaries W.
Proof.
  revert W w. induction calls as [| c rest IH]; intros W w; [reflexivity |].
  cbn [CursorCalls]. destruct c.
  - unfold HideCursor. destruct (negb (CursorHidden w =? 0)); rewrite IH;
      [| destruct W]; reflexivity.
  - unfold ShowCursor. destruct (CursorHidden w =? 0); rewrite IH;
      [| destruct W]; reflexivity.
Qed.

Lemma ShowCursor_dictionaries (W : World) (w : Window) :
  dictionaries
    (fst (if negb (CursorHidden w =? 0) then ShowCursor W w else (W, w)))
  = dictionaries W.
Proof.
  unfold ShowCursor. destruct (CursorHidden w =? 0); cbn [negb fst];
    [| destruct W]; reflexivity.
Qed.

Lemma SetCocoaManager_frame (m : ptr) (W : World) (w : Window) :
  observers (fst (SetCocoaManager m W w)) = observers W
  /\ CursorHidden (snd (SetCocoaManager m W w)) = CursorHidden w.
Proof.
  unfold SetCocoaManager, CFRelease, CFRetain.
  destruct (negb (N.eqb (CocoaManager w) m)); [| split; reflexivity].
  destruct (nonnull (CocoaManager w)), (nonnull m); destruct W, w;
    split; reflexivity.
Qed.

Lemma ShowCursor_if_hidden (W : World) (w : Window) :
  CursorHidden w = 0 \/ CursorHidden w = 1 ->
  let s := if negb (CursorHidden w =? 0) then ShowCursor W w else (W, w) in
  CursorHidden (snd s) = 0
  /\ hideBalance (events (fst s)) = hideBalance (events W) - CursorHidden w
  /\ CocoaManager (snd s) = CocoaManager w
  /\ OnScreenInitialized (snd s) = OnScreenInitialized w
  /\ retainCount (fst s) = retainCount W
  /\ observers (fst s) = observers W.
Proof.
  intros H. unfold ShowCursor.
  destruct H as [H | H]; rewrite H; cbn [Z.eqb negb fst snd].
  - repeat split; try assumption; lia.
  - destruct W, w. cbn in *. repeat split; lia.
Qed.

(** X20.  From the constructor to the destructor, with any cursor calls in
    between: the object releases the one retain it took on its manager, so
    every retain count is as before; it shows the cursor again if it left
    it hidden, so the calls to [[NSCursor hide]] and [[NSCursor unhide]]
    balance; and it makes no use of the superclass's
    [ReleaseGraphicsResources] and of the notification centre, the window
    never having been initialised. *)
Theorem Constructor_Destructor :
  forall (P : Platform) (cocoaManager : ptr) (calls : list CursorCall)
         (W : World) (base : Window),
    cocoaManager <> nullptr ->
    let built := Constructor cocoaManager W base in
    let used := CursorCalls calls (fst built) (snd built) in
    let gone := Destructor P (fst used) (snd used) in
    retainCount (fst built) cocoaManager = retainCount W cocoaManager + 1
    /\ (forall a, retainCount (fst gone) a = retainCount W a)
    /\ hideBalance (events (fst gone)) = hideBalance (events W)
    /\ CursorHidden (snd gone) = 0
    /\ CocoaManager (snd gone) = nullptr
    /\ observers (fst gone) = observers W.
Proof.
  intros P m calls W base N built used gone.
  assert (B : built
              = (CFRetain m
                   (with_dictionaries
                      (fun a => if N.eqb a m then emptyDictionary
                                else dictionaries W a) W),
                 with_WantsBestResolution true
                   (with_OnScreenInitialized 0
                      (with_ForceMakeCurrent 0
                         (with_CursorHidden 0
                            (with_ViewCreated 0
                               (with_WindowCreated 0
                                  (with_CocoaManager m
                                     (with_ContextStack [] base))))))))).
  { subst built. unfold Constructor, SetCocoaManager.
    replace (CocoaManager (with_CocoaManager nullptr
                             (with_ContextStack [] base))) with nullptr
      by (destruct base; reflexivity).
    replace (N.eqb nullptr m) with false
      by (symmetry; apply N.eqb_neq; congruence).
    apply nonnull_true in N. rewrite N. cbn [negb nonnull nullptr N.eqb].
    destruct base. reflexivity. }
  assert (W1 : retainCount (fst built)
               = (fun a => if N.eqb a m then retainCount W a + 1
                           else retainCount W a)
               /\ events (fst built) = events W
               /\ observers (fst built) = observers W
               /\ CursorHidden (snd built) = 0
               /\ OnScreenInitialized (snd built) = 0
               /\ CocoaManager (snd built) = m).
  { rewrite B. destruct W, base. repeat split. }
  destruct W1 as (R1 & E1 & O1 & H1 & I1 & M1).
  destruct (CursorCalls_frame calls (fst built) (snd built))
    as (M2 & I2 & R2 & O2).
  destruct (CursorCalls_balance calls (fst built) (snd built)
              (or_introl H1)) as (H2 & B2).
  fold used in M2, I2, R2, O2, H2, B2.
  destruct (ShowCursor_if_hidden (fst used) (snd used) H2)
    as (H3 & B3 & M3 & I3 & R3 & O3).
  pose proof (ShowCursor_dictionaries (fst used) (snd used)) as D3.
  pose proof (CursorCalls_dictionaries calls (fst built) (snd built)) as D2.
  fold used in D2. rewrite D2 in D3. clear D2.
  subst gone. unfold Destructor.
  destruct (if negb (CursorHidden (snd used) =? 0)
            then ShowCursor (fst used) (snd used)
            else (fst used, snd used)) as [W3 w3].
  cbn [fst snd] in H3, B3, M3, I3, R3, O3, D3.
  assert (G3 : forall s, GetSlot s W3 w3 = nullptr).
  { intros s. rewrite GetSlot_objectForKey. unfold objectForKey.
    rewrite D3, M3, M2, M1, B.
    destruct W. cbn [fst CFRetain with_retainCount with_dictionaries
                     dictionaries].
    rewrite N.eqb_refl. destruct (nonnull m); reflexivity. }
  unfold Finalize. rewrite I3, I2, I1. cbn [Z.eqb negb]. as_slots.
  match goal with
  | |- context [SetCocoaManager nullptr ?X w3] => set (W9 := X)
  end.
  assert (F9 : retainCount W9 = retainCount W3
               /\ observers W9 = observers W3
               /\ events W9 = events W3).
  { subst W9.
    rewrite (SetSlot_nullptr_absent ContextId W3 w3 (G3 _)).
    rewrite (SetSlot_nullptr_absent PixelFormat W3 w3 (G3 _)).
    rewrite (SetSlot_nullptr_absent CocoaServer W3 w3 (G3 _)).
    rewrite (SetSlot_nullptr_absent RootWindow W3 w3 (G3 _)).
    rewrite (SetSlot_nullptr_absent WindowId W3 w3 (G3 _)).
    rewrite (SetSlot_nullptr_absent ParentId W3 w3 (G3 _)).
    repeat split. }
  destruct F9 as (R9 & O9 & E9).
  destruct (SetCocoaManager_frame nullptr W9 w3) as (Of & Hf).
  split; [rewrite R1, N.eqb_refl; reflexivity |].
  split; [| split; [| split; [| split]]].
  - intros a.
    destruct (SetCocoaManager_step nullptr W9 w3 a) as (Rf & _).
    rewrite Rf, R9, R3, R2, R1, M3, M2, M1.
    cbn [nonnull nullptr N.eqb negb andb].
    apply nonnull_true in N. rewrite N. cbn [andb].
    destruct (N.eqb a m); lia.
  - destruct (SetCocoaManager_step nullptr W9 w3 m) as (_ & _ & _ & _ & Ef).
    rewrite Ef, E9, B3. rewrite <- E1. lia.
  - rewrite Hf. exact H3.
  - apply (SetCocoaManager_step nullptr W9 w3 m).
  - rewrite Of, O9, O3, O2. exact O1.
Qed.

(** X20 on the blank world: one retain is taken and given back, and the
    cursor that was left hidden is shown. *)
Lemma Constructor_Destructor_witness :
  let built := Constructor 7%N blankWorld blankWindow in
  let used := CursorCalls [CallHideCursor] (fst built) (snd built) in
  let gone := Destructor examplePlatform (fst used) (snd used) in
  retainCount (fst built) 7%N = 1
  /\ retainCount (fst gone) 7%N = 0
  /\ events (fst used) = [NSCursor_hide]
  /\ hideBalance (events (fst gone)) = 0.
Proof.
  intros built used gone.
  assert (N : 7%N <> nullptr) by (intros H; discriminate H).
  destruct (Constructor_Destructor examplePlatform 7%N [CallHideCursor]
              blankWorld blankWindow N) as (R1 & R & B & _).
  split; [exact R1 |]. split; [exact (R 7%N) |].
  split; [reflexivity | exact B].
Defined.
